(** * AutoViz-Insight: the deterministic data core

    A shallow embedding of the four pure operations of the repository
    - [sanitizeAnalysisResult] (App.tsx),
    - [parseCSV], [calculateCorrelations] with [calculatePearson], and
      [queryData] (services/dataService.ts),
    and of the guard of the [CorrelationHeatmap] component, with the
    properties of them that the specification states; and of the code
    around them that decides what the user sees:
    - the filters and the search of the dashboard (Dashboard.tsx),
    - the guard, the cut and the click of [ChartRenderer],
    - the pages and the cell edit of the data studio (DataStudio.tsx),
    - [processFile] (FileUpload.tsx),
    - the pass of [interpretUserQuery] over the filters of an intent
      (services/geminiService.ts),
    - the suggestions and [handleSend] of the chat (AIChat.tsx),
    with properties read off the code.

    The program is TypeScript; what it computes is decided by the ECMAScript
    operations it calls: [String], [Number], [+], [<], [toFixed],
    [Math.round], property lookup and assignment on plain objects,
    [Object.keys], [Array.prototype.sort].  Module [JS] models those
    operations after ECMA-262:
    - a Number is an IEEE 754 binary64 value ([spec_float] at precision 53),
      with the rounding of every operation;
    - a string is a sequence of code units below 0x100;
    - a row is a plain object: its own properties in enumeration order, and
      [Object.prototype] behind them;
    - a call returns normally or throws;
    - [Array.prototype.sort] is the engine's: any implementation that
      returns the elements it was given, in the order the standard fixes
      when the comparator is consistent.
    The data model and the program follow, then sample inputs, then the
    properties. *)

From Stdlib Require Import ZArith NArith PArith List String Ascii Bool Lia.
From Stdlib Require Import DecimalString SpecFloat Permutation Sorted.
Import ListNotations.

Set Implicit Arguments.

Module JS.

(** ** Strings

    A string is a sequence of code units.  The development covers the code
    units below 0x100 (one [ascii] each); on that range the functions below
    are the ECMAScript ones. *)

Definition charCode (c : ascii) : N := N_of_ascii c.

Definition quoteChar : ascii := ascii_of_N 34.
Definition commaChar : ascii := ascii_of_N 44.
Definition LF : ascii := ascii_of_N 10.
Definition CR : ascii := ascii_of_N 13.

(** WhiteSpace and LineTerminator code units (ECMA-262 12.2, 12.3) below
    0x100: TAB, LF, VT, FF, CR, SP and NBSP. *)
Definition isWhiteSpace (c : ascii) : bool :=
  let n := charCode c in
  (((9 <=? n) && (n <=? 13)) || (n =? 32) || (n =? 160))%N.

Fixpoint trimStart (s : string) : string :=
  match s with
  | EmptyString => EmptyString
  | String c s' => if isWhiteSpace c then trimStart s' else s
  end.

Fixpoint trimEnd (s : string) : string :=
  match s with
  | EmptyString => EmptyString
  | String c s' =>
      match trimEnd s' with
      | EmptyString => if isWhiteSpace c then EmptyString else String c EmptyString
      | t => String c t
      end
  end.

(** [String.prototype.trim] *)
Definition trim (s : string) : string := trimEnd (trimStart s).

(** Lower-case mapping of one code unit below 0x100: A-Z and the Latin-1
    capitals U+00C0-U+00DE (U+00D7, the multiplication sign, apart). *)
Definition lowerChar (c : ascii) : ascii :=
  let n := charCode c in
  if (((65 <=? n) && (n <=? 90)) ||
      ((192 <=? n) && (n <=? 222) && negb (n =? 215)))%N
  then ascii_of_N (n + 32) else c.

(** [String.prototype.toLowerCase] *)
Fixpoint toLowerCase (s : string) : string :=
  match s with
  | EmptyString => EmptyString
  | String c s' => String (lowerChar c) (toLowerCase s')
  end.

(** [String.prototype.includes] *)
Fixpoint includes (s sub : string) : bool :=
  prefix sub s ||
  match s with
  | EmptyString => false
  | String _ s' => includes s' sub
  end.

(** [s.split(sep)] for a one-character separator. *)
Fixpoint split (sep : ascii) (s : string) : list string :=
  match s with
  | EmptyString => [EmptyString]
  | String c s' =>
      if Ascii.eqb c sep then EmptyString :: split sep s'
      else match split sep s' with
           | h :: t => String c h :: t
           | [] => [String c EmptyString]
           end
  end.

(** [s.split(/\r\n|\n/)]: a line ends at CR LF or at LF; a CR that no LF
    follows is part of its line. *)
Fixpoint splitLines (s : string) : list string :=
  let cons_char c r :=
    match r with
    | h :: t => String c h :: t
    | [] => [String c EmptyString]
    end in
  match s with
  | EmptyString => [EmptyString]
  | String c s' =>
      if Ascii.eqb c LF then EmptyString :: splitLines s'
      else if Ascii.eqb c CR then
        match s' with
        | String c' s'' =>
            if Ascii.eqb c' LF then EmptyString :: splitLines s''
            else cons_char c (splitLines s')
        | EmptyString => cons_char c (splitLines s')
        end
      else cons_char c (splitLines s')
  end.

Definition dropLeadingQuote (s : string) : string :=
  match s with
  | String c s' => if Ascii.eqb c quoteChar then s' else s
  | EmptyString => EmptyString
  end.

Fixpoint dropTrailingQuote (s : string) : string :=
  match s with
  | EmptyString => EmptyString
  | String c EmptyString => if Ascii.eqb c quoteChar then EmptyString else s
  | String c s' => String c (dropTrailingQuote s')
  end.

(** [s.replace(/^"|"$/g, '')]: the global pattern matches a quote at the
    start of the input and a quote at its end, each at most once, and the
    second match starts after the first. *)
Definition stripQuotes (s : string) : string :=
  dropTrailingQuote (dropLeadingQuote s).

Definition isEmpty (s : string) : bool :=
  match s with EmptyString => true | _ => false end.

(** ** Numbers

    The Number type is IEEE 754 binary64.  [spec_float] at precision 53 and
    maximal exponent 1024 is that format, with one NaN; its operations round
    to nearest, ties to even, as ECMAScript's do. *)

Definition number : Type := spec_float.

Definition prec : Z := 53.
Definition emax : Z := 1024.

Definition NaN : number := S754_nan.
Definition zero : number := S754_zero false.

Definition add : number -> number -> number := SFadd prec emax.
Definition sub : number -> number -> number := SFsub prec emax.
Definition mul : number -> number -> number := SFmul prec emax.
Definition div : number -> number -> number := SFdiv prec emax.
Definition sqrt : number -> number := SFsqrt prec emax.

(** The Number value of an integer. *)
Definition ofZ (z : Z) : number := binary_normalize prec emax z 0 false.
Definition ofNat (n : nat) : number := ofZ (Z.of_nat n).
Definition one : number := ofZ 1.

(** The Number value of the decimal [(-1)^neg * m * 10^e10], rounded once. *)
Definition ofDecimal (neg : bool) (m : N) (e10 : Z) : number :=
  match m with
  | N0 => S754_zero neg
  | Npos p =>
      match e10 with
      | Zneg q =>
          SFdiv prec emax (S754_finite neg p 0)
                          (S754_finite false (Pos.pow 10 q) 0)
      | _ => binary_normalize prec emax (cond_Zopp neg (Zpos p) * 10 ^ e10) 0 false
      end
  end.

(** The global [isNaN] on a Number. *)
Definition isNaN (x : number) : bool :=
  match x with S754_nan => true | _ => false end.

(** [x === y] and [x < y] on Numbers: NaN is unordered, the two zeros are
    equal. *)
Definition strictEq (x y : number) : bool := SFeqb x y.
Definition lessThan (x y : number) : option bool :=
  match SFcompare x y with
  | None => None
  | Some Lt => Some true
  | Some _ => Some false
  end.

Definition number_eq_dec (x y : number) : {x = y} + {x <> y}.
Proof.
  decide equality; try apply Bool.bool_dec;
    try apply Z.eq_dec; apply Pos.eq_dec.
Defined.

Definition sameNumber (x y : number) : bool :=
  if number_eq_dec x y then true else false.

(** *** StringToNumber (ECMA-262 7.1.4.1.1) *)

Definition isDigit (c : ascii) : bool :=
  let n := charCode c in ((48 <=? n) && (n <=? 57))%N.

Definition digitValue (c : ascii) : option N :=
  let n := charCode c in
  if ((48 <=? n) && (n <=? 57))%N then Some (n - 48)%N
  else if ((97 <=? n) && (n <=? 102))%N then Some (n - 87)%N
  else if ((65 <=? n) && (n <=? 70))%N then Some (n - 55)%N
  else None.

(** DecimalDigits at the head of [s]: their value added to [acc] as further
    digits, how many there were, and what follows them. *)
Fixpoint readDigits (s : string) (acc cnt : N) : N * N * string :=
  match s with
  | String c s' =>
      if isDigit c
      then readDigits s' (10 * acc + (charCode c - 48))%N (cnt + 1)%N
      else (acc, cnt, s)
  | EmptyString => (acc, cnt, s)
  end.

(** The digits of a NonDecimalIntegerLiteral: all of [s], in [radix]. *)
Fixpoint readRadix (radix : N) (s : string) (acc : N) : option N :=
  match s with
  | EmptyString => Some acc
  | String c s' =>
      match digitValue c with
      | Some d => if (d <? radix)%N then readRadix radix s' (acc * radix + d)%N
                  else None
      | None => None
      end
  end.

Definition radixPrefix (s : string) : option (N * string) :=
  match s with
  | String c0 (String c1 r) =>
      if (charCode c0 =? 48)%N then
        let n := charCode c1 in
        if ((n =? 120) || (n =? 88))%N then Some (16%N, r)
        else if ((n =? 111) || (n =? 79))%N then Some (8%N, r)
        else if ((n =? 98) || (n =? 66))%N then Some (2%N, r)
        else None
      else None
  | _ => None
  end.

(** ExponentPart, or nothing, up to the end of the literal. *)
Definition readExponent (s : string) : option Z :=
  match s with
  | EmptyString => Some 0%Z
  | String c s1 =>
      if ((charCode c =? 101) || (charCode c =? 69))%N then
        let '(sg, s2) :=
          match s1 with
          | String c' r =>
              if (charCode c' =? 43)%N then (false, r)
              else if (charCode c' =? 45)%N then (true, r)
              else (false, s1)
          | EmptyString => (false, s1)
          end in
        let '(v, cnt, rest) := readDigits s2 0 0 in
        if ((0 <? cnt)%N && isEmpty rest)%bool
        then Some (cond_Zopp sg (Z.of_N v)) else None
      else None
  end.

(** StrUnsignedDecimalLiteral: [Infinity], [D.D?E?], [.DE?] or [DE?]. *)
Definition parseUnsignedDecimal (neg : bool) (s : string) : option number :=
  if String.eqb s "Infinity" then Some (S754_infinity neg) else
  let '(i, ci, r1) := readDigits s 0 0 in
  let '(m, cf, r2) :=
    match r1 with
    | String c r => if (charCode c =? 46)%N then readDigits r i 0 else (i, 0%N, r1)
    | EmptyString => (i, 0%N, r1)
    end in
  if (ci + cf =? 0)%N then None
  else match readExponent r2 with
       | Some e => Some (ofDecimal neg m (e - Z.of_N cf))
       | None => None
       end.

Definition parseDecimal (s : string) : option number :=
  match s with
  | String c r =>
      if (charCode c =? 43)%N then parseUnsignedDecimal false r
      else if (charCode c =? 45)%N then parseUnsignedDecimal true r
      else parseUnsignedDecimal false s
  | EmptyString => None
  end.

(** [Number(s)] for a string [s]: white space around the literal is
    skipped, the empty literal is +0, and what is no StringNumericLiteral is
    NaN. *)
Definition StringToNumber (s : string) : number :=
  let t := trim s in
  if isEmpty t then zero
  else match radixPrefix t with
       | Some (radix, r) =>
           if isEmpty r then NaN
           else match readRadix radix r 0 with
                | Some n => ofZ (Z.of_N n)
                | None => NaN
                end
       | None =>
           match parseDecimal t with
           | Some x => x
           | None => NaN
           end
       end.

(** *** Number::toString (ECMA-262 6.1.6.1.20), radix 10 *)

Local Open Scope string_scope.

(** The decimal digits of a natural number. *)
Definition digits (n : N) : string := NilZero.string_of_uint (N.to_uint n).

Fixpoint zeros (n : nat) : string :=
  match n with
  | O => EmptyString
  | S n' => String (ascii_of_N 48) (zeros n')
  end.

(** A positive finite Number as the exact fraction [num / den]. *)
Definition fraction (m : positive) (e : Z) : positive * positive :=
  match e with
  | Zneg q => (m, Pos.pow 2 q)
  | Z0 => (m, 1%positive)
  | Zpos q => ((m * Pos.pow 2 q)%positive, 1%positive)
  end.

(** The integer [n] with [10^(n-1) <= num/den < 10^n]. *)
Definition decimalExponent (num den : positive) : Z :=
  if (den <=? num)%positive
  then Z.of_nat (String.length (digits (Npos num / Npos den)))
  else 1 - Z.of_nat (String.length (digits ((Npos den - 1) / Npos num))).

(** [num/den * 10^p] as a fraction. *)
Definition scale10 (num den : positive) (p : Z) : N * N :=
  match p with
  | Zneg q => (Npos num, Npos (den * Pos.pow 10 q))
  | Z0 => (Npos num, Npos den)
  | Zpos q => (Npos (num * Pos.pow 10 q), Npos den)
  end.

(** The two [k]-digit decimals [s * 10^(n-k)] next to [num/den], the nearer
    one first (the even one on a tie). *)
Definition neighbours (num den : positive) (n0 : Z) (k : positive)
  : list (N * Z) :=
  let '(a, b) := scale10 num den (Zpos k - n0) in
  let lo := (a / b)%N in
  let r := (a mod b)%N in
  let norm c :=
    if (c =? 10 ^ Npos k)%N then ((10 ^ (Npos k - 1))%N, (n0 + 1)%Z)
    else (c, n0) in
  match (2 * r ?= b)%N with
  | Lt => [norm lo; norm (lo + 1)%N]
  | Gt => [norm (lo + 1)%N; norm lo]
  | Eq => if N.even lo then [norm lo; norm (lo + 1)%N]
          else [norm (lo + 1)%N; norm lo]
  end.

(** The shortest digits: the least [k] for which a [k]-digit decimal
    [s * 10^(n-k)] has the Number value [x], and of such decimals the one
    nearest to [x]. *)
Fixpoint shortest (x : number) (num den : positive) (n0 : Z)
    (fuel : nat) (k : positive) : N * Z * positive :=
  let ok := filter (fun c : N * Z =>
                      sameNumber (ofDecimal false (fst c) (snd c - Zpos k)) x)
                   (neighbours num den n0 k) in
  match ok, fuel with
  | (s, n) :: _, _ => (s, n, k)
  | [], S fuel' => shortest x num den n0 fuel' (Pos.succ k)
  | [], O => (fst (scale10 num den (Zpos k - n0)) /
              snd (scale10 num den (Zpos k - n0)), n0, k)%N
  end.

Definition signedExponent (e : Z) : string :=
  (if (e <? 0)%Z then "-" else "+") ++ digits (Z.abs_N e).

(** Steps 6-10 of Number::toString: the layout of the digits [s] (there are
    [k] of them) for the decimal [s * 10^(n-k)]. *)
Definition layout (s : N) (n : Z) (k : positive) : string :=
  let d := digits s in
  let kz := Zpos k in
  if ((kz <=? n) && (n <=? 21))%Z then d ++ zeros (Z.to_nat (n - kz))
  else if ((0 <? n) && (n <=? 21))%Z then
    substring 0 (Z.to_nat n) d ++ "." ++
    substring (Z.to_nat n) (Z.to_nat (kz - n)) d
  else if ((-6 <? n) && (n <=? 0))%Z then
    "0." ++ zeros (Z.to_nat (- n)) ++ d
  else if (kz =? 1)%Z then d ++ "e" ++ signedExponent (n - 1)
  else substring 0 1 d ++ "." ++ substring 1 (Z.to_nat (kz - 1)) d
       ++ "e" ++ signedExponent (n - 1).

Definition NumberToString (x : number) : string :=
  match x with
  | S754_nan => "NaN"
  | S754_zero _ => "0"
  | S754_infinity sg => if sg then "-Infinity" else "Infinity"
  | S754_finite sg m e =>
      let '(num, den) := fraction m e in
      let '(s, n, k) :=
        shortest (S754_finite false m e) num den (decimalExponent num den)
                 16 1 in
      (if sg then "-" else EmptyString) ++ layout s n k
  end.

(** *** Number.prototype.toFixed(2) (ECMA-262 21.1.3.3) *)

Definition toFixed2 (x : number) : string :=
  match x with
  | S754_finite sg m e =>
      let '(num, den) := fraction m e in
      if (Npos (Pos.pow 10 21 * den) <=? Npos num)%N
      then NumberToString x
      else
        (* the integer n for which n / 100 - x is nearest to zero, the
           larger one of two *)
        let n := ((2 * 100 * Npos num + Npos den) / (2 * Npos den))%N in
        let d := digits n in
        let d := zeros (3 - String.length d) ++ d in
        let k := String.length d in
        (if sg then "-" else EmptyString) ++
        substring 0 (k - 2) d ++ "." ++ substring (k - 2) 2 d
  | S754_zero _ => "0.00"
  | _ => NumberToString x
  end.

(** *** Math.round (ECMA-262 21.3.2.28): the nearest integer, a tie going
    up; the sign of a zero result is that of the argument. *)
Definition Math_round (x : number) : number :=
  match x with
  | S754_finite sg m (Zneg q) =>
      let d := Z.pow 2 (Zpos q) in
      let n := ((2 * cond_Zopp sg (Zpos m) + d) / (2 * d))%Z in
      if (n =? 0)%Z then S754_zero sg else ofZ n
  | _ => x
  end.

(** ** Values

    The values the program meets: a cell of a row is a number or a string,
    a column a row lacks reads as [undefined], and a name that a plain
    object inherits from [Object.prototype] reads as that built-in object.
    [VObject prim] is such an object; [prim] is the string its ToPrimitive
    gives (its [valueOf] returns the object itself, so both hints end in
    [toString]). *)

Inductive value : Type :=
| VUndefined
| VNumber (x : number)
| VString (s : string)
| VObject (prim : string).

(** [typeof v === 'number'] *)
Definition typeofNumber (v : value) : bool :=
  match v with VNumber _ => true | _ => false end.

(** [String(v)] *)
Definition ToString (v : value) : string :=
  match v with
  | VUndefined => "undefined"
  | VNumber x => NumberToString x
  | VString s => s
  | VObject prim => prim
  end.

(** [Number(v)] *)
Definition ToNumber (v : value) : number :=
  match v with
  | VUndefined => NaN
  | VNumber x => x
  | VString s => StringToNumber s
  | VObject prim => StringToNumber prim
  end.

(** The string of a value whose primitive is a String. *)
Definition primString (v : value) : option string :=
  match v with
  | VString s => Some s
  | VObject prim => Some prim
  | _ => None
  end.

(** [a + b] (ECMA-262 13.15.3): concatenation when either primitive is a
    String, the sum of the Numbers otherwise. *)
Definition plus (a b : value) : value :=
  match primString a, primString b with
  | None, None => VNumber (add (ToNumber a) (ToNumber b))
  | _, _ => VString (ToString a ++ ToString b)
  end.

(** [a * b] and [a - b] *)
Definition times (a b : value) : number := mul (ToNumber a) (ToNumber b).
Definition minus (a b : value) : number := sub (ToNumber a) (ToNumber b).

(** IsLessThan (ECMA-262 7.2.13): two Strings compare by code units,
    anything else as Numbers; [None] is the undefined result of a NaN. *)
Definition IsLessThan (x y : value) : option bool :=
  match primString x, primString y with
  | Some sx, Some sy => Some (String.ltb sx sy)
  | _, _ => lessThan (ToNumber x) (ToNumber y)
  end.

(** [a < b], [a > b], [a <= b], [a >= b] *)
Definition lt (a b : value) : bool :=
  match IsLessThan a b with Some true => true | _ => false end.
Definition gt (a b : value) : bool :=
  match IsLessThan b a with Some true => true | _ => false end.
Definition le (a b : value) : bool :=
  match IsLessThan b a with Some false => true | _ => false end.
Definition ge (a b : value) : bool :=
  match IsLessThan a b with Some false => true | _ => false end.

(** [x || 0] on a Number: NaN and the two zeros are falsy. *)
Definition orZero (x : number) : number :=
  if (isNaN x || strictEq x zero)%bool then zero else x.

(** SameValueZero on Numbers, the equality of [Set]. *)
Definition sameValueZero (x y : number) : bool :=
  ((isNaN x && isNaN y) || strictEq x y)%bool.

(** The elements of [new Set(values)], in insertion order. *)
Definition SetOf (values : list number) : list number :=
  fold_left (fun seen v =>
               if existsb (sameValueZero v) seen then seen
               else (seen ++ [v])%list)
            values [].

(** ** Plain objects

    An object created by [{}]: its own properties in the order
    [Object.keys] and [Object.entries] list them (ECMA-262 10.1.11: array
    indices in ascending order, then the other names in the order they were
    created), and [Object.prototype] behind it. *)

Section Props.
Variable A : Type.

Definition props : Type := list (string * A).

Fixpoint own (o : props) (k : string) : option A :=
  match o with
  | [] => None
  | (k', v) :: o' => if String.eqb k' k then Some v else own o' k
  end.

Fixpoint replace (o : props) (k : string) (v : A) : props :=
  match o with
  | [] => []
  | (k', v') :: o' =>
      if String.eqb k' k then (k', v) :: o' else (k', v') :: replace o' k v
  end.

(** The array index [k] writes, if it is the canonical numeric string of an
    integer below 2^32 - 1. *)
Definition arrayIndex (k : string) : option N :=
  let '(n, cnt, rest) := readDigits k 0 0 in
  if (isEmpty rest && (0 <? cnt)%N && String.eqb (digits n) k
      && (n <? 4294967295)%N)%bool
  then Some n else None.

Fixpoint insertIndex (o : props) (i : N) (k : string) (v : A) : props :=
  match o with
  | [] => [(k, v)]
  | (k', v') :: o' =>
      match arrayIndex k' with
      | Some j => if (j <? i)%N then (k', v') :: insertIndex o' i k v
                  else (k, v) :: o
      | None => (k, v) :: o
      end
  end.

(** CreateDataProperty: the own property [k] is given the value [v]. *)
Definition defineOwn (o : props) (k : string) (v : A) : props :=
  match own o k with
  | Some _ => replace o k v
  | None =>
      match arrayIndex k with
      | Some i => insertIndex o i k v
      | None => (o ++ [(k, v)])%list
      end
  end.

Definition keys (o : props) : list string := map fst o.

(** [{...o}]: the own properties are copied, in their order, into a new
    object. *)
Definition spread (o : props) : props :=
  fold_left (fun acc kv => defineOwn acc (fst kv) (snd kv)) o [].

(** [delete o[k]] *)
Fixpoint delete (o : props) (k : string) : props :=
  match o with
  | [] => []
  | (k', v) :: o' =>
      if String.eqb k' k then o' else (k', v) :: delete o' k
  end.

(** [Object.entries] and [Object.values] *)
Definition entries (o : props) : list (string * A) := o.
Definition values (o : props) : list A := map snd o.

(** The shape every object has: an array index stands before the array
    indices above it and before every other name, and a name that is no
    array index stands before other such names only. *)
Definition precedes (k k' : string) : bool :=
  match arrayIndex k, arrayIndex k' with
  | Some i, Some j => (i <? j)%N
  | Some _, None => true
  | None, Some _ => false
  | None, None => negb (String.eqb k k')
  end.

Fixpoint ordered (ks : list string) : bool :=
  match ks with
  | [] => true
  | k :: ks' => forallb (precedes k) ks' && ordered ks'
  end.

Definition canonical (o : props) : Prop := ordered (keys o) = true.

End Props.

Definition object : Type := props value.

(** The properties of [Object.prototype] (ECMA-262 20.1.3 and B.2.2), each
    with the string its value converts to: the functions print as native
    code, and [__proto__] reads as [Object.prototype] itself. *)
Definition ObjectPrototype : props string :=
  [ ("constructor", "function Object() { [native code] }");
    ("__defineGetter__", "function __defineGetter__() { [native code] }");
    ("__defineSetter__", "function __defineSetter__() { [native code] }");
    ("hasOwnProperty", "function hasOwnProperty() { [native code] }");
    ("__lookupGetter__", "function __lookupGetter__() { [native code] }");
    ("__lookupSetter__", "function __lookupSetter__() { [native code] }");
    ("isPrototypeOf", "function isPrototypeOf() { [native code] }");
    ("propertyIsEnumerable",
     "function propertyIsEnumerable() { [native code] }");
    ("toString", "function toString() { [native code] }");
    ("valueOf", "function valueOf() { [native code] }");
    ("__proto__", "[object Object]");
    ("toLocaleString", "function toLocaleString() { [native code] }") ].

Definition inherited (k : string) : bool :=
  match own ObjectPrototype k with Some _ => true | None => false end.

(** [o[k]]: the own property, else the inherited one, else [undefined]. *)
Definition Get (o : object) (k : string) : value :=
  match own o k with
  | Some v => v
  | None =>
      match own ObjectPrototype k with
      | Some prim => VObject prim
      | None => VUndefined
      end
  end.

(** [o[k] = v] for a number or a string [v]: a data property is created or
    updated, except that [__proto__], unless it is an own property, is the
    accessor of [Object.prototype], whose setter ignores a primitive. *)
Definition Put (o : object) (k : string) (v : value) : object :=
  match own o k with
  | None => if String.eqb k "__proto__" then o else defineOwn o k v
  | Some _ => defineOwn o k v
  end.

(** [k in o] *)
Definition hasProperty (o : object) (k : string) : bool :=
  match own o k with
  | Some _ => true
  | None => inherited k
  end.

(** [x == y] (IsLooselyEqual, ECMA-262 7.2.14).  Two objects are equal when
    they are the same object; the built-in objects of this development
    differ in their strings.  An object against a primitive is compared by
    its primitive, and a string against a number by its Number. *)
Definition looseEq (x y : value) : bool :=
  match x, y with
  | VUndefined, VUndefined => true
  | VNumber a, VNumber b => strictEq a b
  | VString s, VString t => String.eqb s t
  | VObject p, VObject q => String.eqb p q
  | VNumber a, VString t => strictEq a (StringToNumber t)
  | VString s, VNumber b => strictEq (StringToNumber s) b
  | VObject p, VString t => String.eqb p t
  | VString s, VObject q => String.eqb s q
  | VObject p, VNumber b => strictEq (StringToNumber p) b
  | VNumber a, VObject q => strictEq a (StringToNumber q)
  | _, _ => false
  end.

(** [s.endsWith(suffix)] *)
Definition endsWith (s suffix : string) : bool :=
  (String.length suffix <=? String.length s)%nat &&
  String.eqb (substring (String.length s - String.length suffix)
                        (String.length suffix) s) suffix.

(** [a.slice(start, end)] (ECMA-262 23.1.3.28): a negative index counts
    from the end, and both are clamped to the array. *)
Definition slice (A : Type) (start stop : Z) (a : list A) : list A :=
  let len := Z.of_nat (List.length a) in
  let clamp i := if (i <? 0)%Z then Z.max (len + i) 0 else Z.min i len in
  let k := clamp start in
  let final := clamp stop in
  firstn (Z.to_nat (Z.max (final - k) 0)) (skipn (Z.to_nat k) a).

(** ** Array.prototype.sort with a comparator

    [a.sort(cmp)] puts [x] after [y] when [cmp(x, y)] is positive; a NaN
    from the comparator counts as +0.  ECMA-262 (23.1.3.30) fixes the
    result only for a comparator that is consistent for the elements of
    the array: then it is the array in the order of the comparator, the
    elements the comparator holds equal in the order they had (the sort is
    stable).  For any other comparator the order is
    implementation-defined: engines differ, and the development says
    nothing about it beyond that the result holds the same elements. *)

Section Sort.
Variable A : Type.
Variable cmp : A -> A -> number.

Definition positive_result (v : number) : bool := SFltb zero v.

(** [a <C b], [a =C b] and [a >C b] of the standard. *)
Definition lessC (a b : A) : bool := SFltb (cmp a b) zero.
Definition equalC (a b : A) : bool := strictEq (cmp a b) zero.
Definition greaterC (a b : A) : bool := positive_result (cmp a b).

(** A consistent comparator for the elements of [xs]: no call returns NaN,
    [=C] is reflexive, symmetric and transitive, and [<C] and [>C] are
    transitive. *)
Definition consistent (xs : list A) : bool :=
  forallb (fun a =>
    equalC a a &&
    forallb (fun b =>
      negb (isNaN (cmp a b)) &&
      implb (equalC a b) (equalC b a) &&
      forallb (fun c =>
        implb (equalC a b && equalC b c) (equalC a c) &&
        implb (lessC a b && lessC b c) (lessC a c) &&
        implb (greaterC a b && greaterC b c) (greaterC a c)) xs) xs) xs.

(** The sorted array of a consistent comparator, by insertion: each
    element goes before the first one it is not after. *)
Fixpoint insert (x : A) (l : list A) : list A :=
  match l with
  | [] => [x]
  | y :: l' => if positive_result (cmp x y) then y :: insert x l'
               else x :: l
  end.

Definition insertionSort (l : list A) : list A := fold_right insert [] l.

(** [x] may stand before [y]: the comparator does not send it after. *)
Definition notAfter (x y : A) : Prop := positive_result (cmp x y) = false.

(** How V8 sorts an array of fewer than 64 elements (its TimSort before
    any merge).  The first run is found: it descends when the comparator
    puts the second element before the first, and it goes on as long as
    each element is before the one it follows (for a run that descends),
    or is not (for any other run); a run that descends is reversed.
    Each later element is then put into the sorted part, at the place a
    binary search finds for it. *)
Definition negative_result (v : number) : bool := SFltb v zero.

Fixpoint continueRun (descending : bool) (previous : A) (l : list A)
  : list A * list A :=
  match l with
  | [] => ([], [])
  | current :: l' =>
      let order := cmp current previous in
      if (if descending then negb (negative_result order)
          else negative_result order)
      then ([], l)
      else let (run, rest) := continueRun descending current l' in
           (current :: run, rest)
  end.

(** The loop [while (left < right)], which runs at most [fuel] times. *)
Fixpoint searchPosition (fuel : nat) (pivot : A) (a : list A)
    (left right : nat) : nat :=
  match fuel with
  | O => left
  | S fuel' =>
      if Nat.ltb left right then
        let mid := left + Nat.div2 (right - left) in
        if negative_result (cmp pivot (nth mid a pivot))
        then searchPosition fuel' pivot a left mid
        else searchPosition fuel' pivot a (S mid) right
      else left
  end.

Definition binaryInsert (a : list A) (pivot : A) : list A :=
  let left := searchPosition (List.length a) pivot a 0 (List.length a) in
  (firstn left a ++ pivot :: skipn left a)%list.

Definition binaryInsertionSort (l : list A) : list A :=
  match l with
  | first :: second :: l' =>
      let descending := negative_result (cmp second first) in
      let (run, rest) := continueRun descending second l' in
      let run := first :: second :: run in
      fold_left binaryInsert rest (if descending then rev run else run)
  | _ => l
  end.

End Sort.

(** An implementation of [Array.prototype.sort]: it returns the elements
    of the array in some order, and in the order the standard fixes
    when the comparator is consistent for them. *)
Record Engine : Type := {
  sort : forall A : Type, (A -> A -> number) -> list A -> list A;
  sort_elements :
    forall (A : Type) (cmp : A -> A -> number) (l : list A),
      Permutation (sort cmp l) l;
  sort_consistent :
    forall (A : Type) (cmp : A -> A -> number) (l : list A),
      consistent cmp l = true -> sort cmp l = insertionSort cmp l
}.

(** One engine, used to run examples: the order the standard fixes for a
    consistent comparator, and the order of [binaryInsertionSort] for any
    other.  The test changes nothing, the two being the same array for a
    consistent comparator ([binaryInsertionEngine_sort] below): this
    engine sorts by binary insertion, as V8 does below 64 elements.  From
    64 elements on V8 merges runs, and may order differently when the
    comparator is not consistent; the properties of the program are
    therefore stated for every engine. *)
Definition binaryInsertionEngine : Engine.
Proof.
  refine {| sort := fun A cmp l =>
                      if consistent cmp l then insertionSort cmp l
                      else binaryInsertionSort cmp l |}.
  - intros A cmp l. destruct (consistent cmp l).
    + induction l as [| x l IH]; simpl; [apply perm_nil |].
      apply perm_trans with (x :: insertionSort cmp l);
        [| now apply perm_skip].
      clear IH. induction (insertionSort cmp l) as [| y l' IH]; simpl;
        [apply Permutation_refl |].
      destruct (positive_result (cmp x y)); [| apply Permutation_refl].
      apply perm_trans with (y :: x :: l');
        [now apply perm_skip | apply perm_swap].
    + assert (Hrun : forall descending previous l0,
                 (fst (continueRun cmp descending previous l0)
                  ++ snd (continueRun cmp descending previous l0))%list
                 = l0).
      { intros descending previous l0. revert previous.
        induction l0 as [| current l0 IH]; intros previous; simpl;
          [reflexivity |].
        destruct (if descending
                  then negb (negative_result (cmp current previous))
                  else negative_result (cmp current previous));
          [reflexivity |].
        specialize (IH current).
        destruct (continueRun cmp descending current l0) as [run rest].
        simpl in *. now rewrite IH. }
      assert (Hfold : forall rest a,
                 Permutation (fold_left (binaryInsert cmp) rest a)
                             (a ++ rest)%list).
      { induction rest as [| pivot rest IH]; intros a; simpl.
        - now rewrite app_nil_r.
        - apply perm_trans with (binaryInsert cmp a pivot ++ rest)%list;
            [apply IH |].
          replace (a ++ pivot :: rest)%list
            with ((a ++ [pivot]) ++ rest)%list
            by (now rewrite <- app_assoc).
          apply Permutation_app_tail. unfold binaryInsert.
          apply perm_trans with (pivot :: a).
          + apply Permutation_sym.
            rewrite <- (firstn_skipn
                          (searchPosition cmp (List.length a) pivot a 0
                                          (List.length a)) a) at 1.
            apply Permutation_middle.
          + apply Permutation_cons_append. }
      destruct l as [| first [| second l']]; simpl;
        try apply Permutation_refl.
      specialize (Hrun (negative_result (cmp second first)) second l').
      destruct (continueRun cmp (negative_result (cmp second first))
                            second l') as [run rest].
      simpl in Hrun. apply perm_trans with
        ((if negative_result (cmp second first)
          then rev (first :: second :: run)
          else first :: second :: run) ++ rest)%list;
        [apply Hfold |].
      rewrite <- Hrun.
      change (first :: second :: run ++ rest)%list
        with ((first :: second :: run) ++ rest)%list.
      apply Permutation_app_tail.
      destruct (negative_result (cmp second first));
        [apply Permutation_sym, Permutation_rev | apply Permutation_refl].
  - intros A cmp l H. now rewrite H.
Defined.

(** ** Completions: a value, or an exception thrown *)

Inductive exn : Type :=
| Error (message : string)
| TypeError (message : string).

Inductive completion (A : Type) : Type :=
| Normal (a : A)
| Throw (e : exn).

Arguments Normal {A} a.
Arguments Throw {A} e.

Definition bind {A B : Type} (c : completion A) (k : A -> completion B)
  : completion B :=
  match c with
  | Normal a => k a
  | Throw e => Throw e
  end.

(** [xs.forEach(x => ...)] over a body that updates a state and may throw. *)
Fixpoint forEach {A S : Type} (body : S -> A -> completion S)
    (xs : list A) (st : S) : completion S :=
  match xs with
  | [] => Normal st
  | x :: xs' => bind (body st x) (forEach body xs')
  end.

End JS.

Import JS.
Local Open Scope string_scope.

(** * The data model (types.ts) *)

Inductive ChartType : Type := BAR | LINE | SCATTER | PIE | AREA.

Record ChartConfig : Type := {
  chart_id : string;
  chart_type : ChartType;
  chart_title : string;
  chart_description : string;
  xKey : string;
  yKey : string;
  categoryKey : option string
}.

Inductive ColumnType : Type := numeric | categorical | datetime | text.

Record ColumnProfile : Type := {
  name : string;
  type : ColumnType;
  missingCount : number;
  uniqueCount : number;
  exampleValues : list string
}.

Record AnalysisResult : Type := {
  summary : string;
  columns : list ColumnProfile;
  recommendedCharts : list ChartConfig;
  insights : list string
}.

(** [rowCount] is the length of an array; [analysis] is optional. *)
Record Dataset : Type := {
  dataset_id : string;
  dataset_name : string;
  data : list object;
  rowCount : nat;
  analysis : option AnalysisResult
}.

Record CorrelationMatrix : Type := {
  variables : list string;
  matrix : list (list number)
}.

(** The operator and the aggregate kind are strings an external service
    sends; the program compares them with the literals it knows. *)
Record QueryFilter : Type := {
  column : string;
  operator : string;
  value : JS.value
}.

Inductive IntentType : Type := query | chat | clarification.

Record QueryIntent : Type := {
  intent_type : IntentType;
  filters : option (list QueryFilter);
  groupBy : option string;
  aggregateColumn : option string;
  aggregateType : option string;
  chartType : option ChartType;
  textResponse : option string;
  title : option string
}.

(** An optional string that is present and not empty, the only truthy
    one. *)
Definition truthy (o : option string) : option string :=
  match o with
  | Some s => if isEmpty s then None else Some s
  | None => None
  end.

(** * Result reconciliation (App.tsx) *)

(** [validKeys.includes(key)] *)
Definition includesKey (validKeys : list string) (key : string) : bool :=
  existsb (String.eqb key) validKeys.

Definition findKey (validKeys : list string) (key : string) : string :=
  if isEmpty key then key
  else if includesKey validKeys key then key
  else
    match find (fun k => String.eqb (toLowerCase k) (toLowerCase key))
               validKeys with
    | Some m => if isEmpty m then key else m
    | None => key
    end.

Definition sanitizeChart (validKeys : list string) (chart : ChartConfig)
  : ChartConfig :=
  {| chart_id := chart_id chart;
     chart_type := chart_type chart;
     chart_title := chart_title chart;
     chart_description := chart_description chart;
     xKey := findKey validKeys (xKey chart);
     yKey := findKey validKeys (yKey chart);
     categoryKey :=
       match truthy (categoryKey chart) with
       | Some c => Some (findKey validKeys c)
       | None => None
       end |}.

Definition sanitizeAnalysisResult (result : AnalysisResult)
    (dataset : Dataset) : AnalysisResult :=
  match data dataset with
  | [] => result
  | row0 :: _ =>
      let validKeys := keys row0 in
      let sanitizedCharts :=
        filter (fun chart => includesKey validKeys (xKey chart)
                             && includesKey validKeys (yKey chart))
               (map (sanitizeChart validKeys) (recommendedCharts result)) in
      {| summary := summary result;
         columns := columns result;
         recommendedCharts := sanitizedCharts;
         insights := insights result |}
  end.

(** * Tabular ingestion (services/dataService.ts) *)

(** The body of [headers.forEach] for one field: the cell as it is
    stored. *)
Definition parseCell (field : string) : JS.value :=
  let value := stripQuotes (trim field) in
  if negb (isNaN (StringToNumber value)) && negb (isEmpty value)
  then VNumber (StringToNumber value)
  else VString value.

(** [headers.forEach((header, index) => ...)] on a line that has as many
    fields as there are headers. *)
Definition putCell (row : object) (hf : string * string) : object :=
  Put row (fst hf) (parseCell (snd hf)).

Definition buildRow (headers currentLine : list string) : object :=
  fold_left putCell (combine headers currentLine) [].

(** The header line.  The first header loses its first code unit when that
    is the byte order mark U+FEFF (no code unit below 0x100 is). *)
Definition parseHeaders (line : string) : list string :=
  let headers := map (fun h => stripQuotes (trim h)) (split commaChar line) in
  match headers with
  | String c rest :: others =>
      if (charCode c =? 65279)%N then rest :: others else headers
  | _ => headers
  end.

(** The [for] loop over the lines after the header. *)
Definition parseRows (headers : list string) (lines : list string)
  : list object :=
  flat_map (fun line =>
              let currentLine := split commaChar line in
              if Nat.eqb (List.length currentLine) (List.length headers)
              then [buildRow headers currentLine] else [])
           lines.

Definition nonBlankLines (csvText : string) : list string :=
  filter (fun line => negb (isEmpty (trim line))) (splitLines csvText).

(** [uuid] is what [crypto.randomUUID()] returns at this call. *)
Definition parseCSV (uuid : string) (csvText fileName : string)
  : completion Dataset :=
  match nonBlankLines csvText with
  | [] => Throw (Error "File is empty")
  | headerLine :: rest =>
      let headers := parseHeaders headerLine in
      let data := parseRows headers rest in
      let limitedData := firstn 3000 data in
      Normal {| dataset_id := uuid;
                dataset_name := fileName;
                data := limitedData;
                rowCount := List.length data;
                analysis := None |}
  end.

(** The same text as a Windows editor saves it: each line feed preceded by
    a carriage return. *)
Fixpoint withCRLF (s : string) : string :=
  match s with
  | EmptyString => EmptyString
  | String c s' =>
      if Ascii.eqb c LF then String CR (String LF (withCRLF s'))
      else String c (withCRLF s')
  end.

(** * Correlation engine (services/dataService.ts) *)

(** [x.reduce((a, b, i) => a + b * y[i], 0)], from the accumulator [a] on;
    [y[i]] is [undefined] past the end of [y]. *)
Fixpoint sumProducts (a : JS.value) (x y : list JS.value) : JS.value :=
  match x with
  | [] => a
  | b :: x' =>
      sumProducts (plus a (VNumber (times b (hd VUndefined y)))) x' (tl y)
  end.

Definition pearsonNumerator (x y : list JS.value) : number :=
  let n := VNumber (ofNat (List.length x)) in
  let sumX := fold_left plus x (VNumber zero) in
  let sumY := fold_left plus y (VNumber zero) in
  let sumXY := sumProducts (VNumber zero) x y in
  sub (times n sumXY) (times sumX sumY).

Definition pearsonDenominator (x y : list JS.value) : number :=
  let n := VNumber (ofNat (List.length x)) in
  let sumX := fold_left plus x (VNumber zero) in
  let sumY := fold_left plus y (VNumber zero) in
  let sumX2 := fold_left (fun a b => plus a (VNumber (times b b))) x (VNumber zero) in
  let sumY2 := fold_left (fun a b => plus a (VNumber (times b b))) y (VNumber zero) in
  sqrt (mul (sub (times n sumX2) (times sumX sumX))
            (sub (times n sumY2) (times sumY sumY))).

Definition calculatePearson (x y : list JS.value) : number :=
  let n := List.length x in
  if Nat.eqb n 0 then zero
  else
    let numerator := pearsonNumerator x y in
    let denominator := pearsonDenominator x y in
    if strictEq denominator zero then zero
    else StringToNumber (toFixed2 (div numerator denominator)).

(** The formula of the specification, for two columns of numbers,
    [r = (n Sxy - Sx Sy) / sqrt ((n Sxx - Sx^2) (n Syy - Sy^2))], each sum
    taken from 0 in the order of the rows. *)
Definition spec_sum (xs : list number) : number := fold_left add xs zero.

Definition spec_numerator (xs ys : list number) : number :=
  let n := ofNat (List.length xs) in
  let Sxy := spec_sum (map (fun p => mul (fst p) (snd p)) (combine xs ys)) in
  sub (mul n Sxy) (mul (spec_sum xs) (spec_sum ys)).

Definition spec_denominator (xs ys : list number) : number :=
  let n := ofNat (List.length xs) in
  let Sxx := spec_sum (map (fun x => mul x x) xs) in
  let Syy := spec_sum (map (fun y => mul y y) ys) in
  sqrt (mul (sub (mul n Sxx) (mul (spec_sum xs) (spec_sum xs)))
            (sub (mul n Syy) (mul (spec_sum ys) (spec_sum ys)))).

(** The coefficient the specification defines: 0 when the denominator is
    zero, the quotient rounded to two decimals otherwise. *)
Definition spec_coefficient (xs ys : list number) : number :=
  if strictEq (spec_denominator xs ys) zero then zero
  else StringToNumber
         (toFixed2 (div (spec_numerator xs ys) (spec_denominator xs ys))).

(** The numbers a column holds, row by row. *)
Definition numbersOf (col : string) (data : list object) : list number :=
  map (fun row => ToNumber (Get row col)) data.

Definition numericColumns (data : list object) (columns : list string)
  : list string :=
  filter (fun col =>
            forallb (fun row => typeofNumber (Get row col)) (firstn 50 data))
         columns.

Definition calculateCorrelations (data : list object) (columns : list string)
  : CorrelationMatrix :=
  let numericColumns := numericColumns data columns in
  let indices := seq 0 (List.length numericColumns) in
  let matrix :=
    map (fun i =>
           map (fun j =>
                  if Nat.eqb i j then one
                  else
                    let col1 := nth i numericColumns EmptyString in
                    let col2 := nth j numericColumns EmptyString in
                    let values1 := map (fun d => Get d col1) data in
                    let values2 := map (fun d => Get d col2) data in
                    calculatePearson values1 values2)
               indices)
        indices in
  {| variables := numericColumns; matrix := matrix |}.

(** What the [CorrelationHeatmap] component (components/CorrelationHeatmap.tsx)
    renders: the message of its guard, or the grid of the matrix. *)
Inductive HeatmapView : Type :=
| Message (text : string)
| Grid (variables : list string) (matrix : list (list number)).

Definition isNumericType (t : ColumnType) : bool :=
  match t with numeric => true | _ => false end.

Definition CorrelationHeatmap (data : list object)
    (columns : list ColumnProfile) : HeatmapView :=
  let numericCols := map name (filter (fun c => isNumericType (type c)) columns) in
  let correlationData := calculateCorrelations data numericCols in
  if Nat.ltb (List.length (variables correlationData)) 2
  then Message "Not enough numeric data for correlations"
  else Grid (variables correlationData) (matrix correlationData).

(** * Query engine (services/dataService.ts) *)

(** The predicate of one filter on one row: the [switch] on the
    operator. *)
Definition evalFilter (row : object) (filter : QueryFilter) : bool :=
  let rowVal := Get row (column filter) in
  let filterVal := value filter in
  let op := operator filter in
  if String.eqb op "==" then
    String.eqb (toLowerCase (ToString rowVal)) (toLowerCase (ToString filterVal))
  else if String.eqb op ">" then gt rowVal filterVal
  else if String.eqb op "<" then lt rowVal filterVal
  else if String.eqb op ">=" then ge rowVal filterVal
  else if String.eqb op "<=" then le rowVal filterVal
  else if String.eqb op "contains" then
    includes (toLowerCase (ToString rowVal)) (toLowerCase (ToString filterVal))
  else true.

(** Stage 1: the rows that pass every filter. *)
Definition filterRows (data : list object) (intent : QueryIntent)
  : list object :=
  match filters intent with
  | Some fs =>
      if Nat.ltb 0 (List.length fs)
      then List.filter (fun row => forallb (evalFilter row) fs) data
      else data
  | None => data
  end.

(** The body of [result.forEach] in stage 2.  [groups] is a plain object:
    [groups[key]] is truthy both for a group that exists and for a name
    inherited from [Object.prototype], and what is inherited has no
    [push]. *)
Definition groupKey (groupBy : string) (row : object) : string :=
  ToString (Get row groupBy).

Definition groupValue (aggregateColumn : string) (row : object) : number :=
  orZero (ToNumber (Get row aggregateColumn)).

Definition addToGroup (groupBy aggregateColumn : string)
    (groups : props (list number)) (row : object)
  : completion (props (list number)) :=
  let key := groupKey groupBy row in
  let val := groupValue aggregateColumn row in
  match own groups key with
  | Some values => Normal (replace groups key (values ++ [val])%list)
  | None =>
      if inherited key
      then Throw (TypeError "groups[key].push is not a function")
      else Normal (defineOwn groups key [val])
  end.

(** No group is named like a property of [Object.prototype]: [groups] as
    [addToGroup] leaves it. *)
Definition clean (groups : props (list number)) : Prop :=
  forall k, inherited k = true -> own groups k = None.

(** The values [addToGroup] collects under the key [k] from [rows]. *)
Definition valuesOf (groupBy aggregateColumn k : string) (rows : list object)
  : list number :=
  map (groupValue aggregateColumn)
      (List.filter (fun row => String.eqb (groupKey groupBy row) k) rows).

(** The number of values the groups hold together. *)
Definition collected (groups : props (list number)) : nat :=
  list_sum (map (fun entry => List.length (snd entry)) groups).

Definition sum (values : list number) : number := fold_left add values zero.

(** The [switch] on the aggregate kind; [aggregatedValue] starts at 0. *)
Definition aggregate (aggregateType : string) (values : list number)
  : number :=
  if String.eqb aggregateType "SUM" then sum values
  else if String.eqb aggregateType "AVG"
       then div (sum values) (ofNat (List.length values))
  else if String.eqb aggregateType "COUNT" then ofNat (List.length values)
  else if String.eqb aggregateType "COUNT_DISTINCT"
       then ofNat (List.length (SetOf values))
  else zero.

(** [Math.round(v * 100) / 100] *)
Definition round2 (v : number) : number :=
  div (Math_round (mul v (ofZ 100))) (ofZ 100).

(** The object literal of one group: two computed keys, in this order. *)
Definition groupRow (groupBy aggregateColumn aggregateType : string)
    (entry : string * list number) : object :=
  defineOwn (defineOwn [] groupBy (VString (fst entry)))
            aggregateColumn
            (VNumber (round2 (aggregate aggregateType (snd entry)))).

(** The comparator of the sort: [b[aggregateColumn] - a[aggregateColumn]]. *)
Definition byAggregateDesc (aggregateColumn : string) (a b : object)
  : number :=
  minus (Get b aggregateColumn) (Get a aggregateColumn).

Definition queryData (engine : Engine) (data : list object)
    (intent : QueryIntent) : completion (list object) :=
  let result := filterRows data intent in
  match truthy (groupBy intent), truthy (aggregateColumn intent),
        truthy (aggregateType intent) with
  | Some g, Some a, Some t =>
      bind (forEach (addToGroup g a) result [])
           (fun groups =>
              let result := map (groupRow g a t) groups in
              let result := sort engine (byAggregateDesc a) result in
              Normal (firstn 50 result))
  | _, _, _ => Normal (firstn 50 result)
  end.

(** * The dashboard (components/Dashboard.tsx) *)

(** [FilterState]: the drill-down filters, a plain object from column names
    to values. *)
Definition FilterState : Type := object.

(** The body of the [filteredData] memo: one pass over the rows for each
    drill-down filter, then the global search when the term is not blank.
    The term is lower-cased but not trimmed. *)
Definition filteredData (data : list object) (searchTerm : string)
    (activeFilters : FilterState) : list object :=
  let data :=
    fold_left (fun data kv =>
                 List.filter (fun row => looseEq (Get row (fst kv)) (snd kv))
                             data)
              (entries activeFilters) data in
  if negb (isEmpty (trim searchTerm)) then
    let lowerTerm := toLowerCase searchTerm in
    List.filter (fun row =>
                   existsb (fun val =>
                              includes (toLowerCase (ToString val)) lowerTerm)
                           (values row))
                data
  else data.

(** A row passes the drill-down filters; a row is a hit of the search. *)
Definition passesFilters (activeFilters : FilterState) (row : object) : bool :=
  forallb (fun kv => looseEq (Get row (fst kv)) (snd kv))
          (entries activeFilters).

Definition matchesSearch (searchTerm : string) (row : object) : bool :=
  existsb (fun val =>
             includes (toLowerCase (ToString val)) (toLowerCase searchTerm))
          (values row).

(** The state update of [handleDrillDown]: [{ ...prev, [key]: value }]. *)
Definition handleDrillDown (key : string) (value : JS.value)
    (prev : FilterState) : FilterState :=
  defineOwn (spread prev) key value.

(** The state update of [removeFilter]. *)
Definition removeFilter (key : string) (activeFilters : FilterState)
  : FilterState :=
  delete (spread activeFilters) key.

(** * The chart renderer (components/ChartRenderer.tsx) *)

Definition chartData (data : list object) : list object :=
  if Nat.ltb 2000 (List.length data) then slice 0 500 data else data.

Definition isValidKey (config : ChartConfig) (chartData : list object)
  : bool :=
  match chartData with
  | [] => false
  | row0 :: _ => hasProperty row0 (xKey config) && hasProperty row0 (yKey config)
  end.

(** What the component renders: the notice with the two keys, or the chart
    of the configured kind over its data (a pie shows the first ten
    rows). *)
Inductive ChartView : Type :=
| UnableToRender (xKey yKey : string)
| Chart (kind : ChartType) (points : list object).

Definition ChartRenderer (config : ChartConfig) (data : list object)
  : ChartView :=
  let chartData := chartData data in
  if negb (isValidKey config chartData) || Nat.eqb (List.length chartData) 0
  then UnableToRender (xKey config) (yKey config)
  else match chart_type config with
       | PIE => Chart PIE (slice 0 10 chartData)
       | kind => Chart kind chartData
       end.

(** The drill-down of [handleClick] on the row of a clicked element: the
    filter it asks for, if any. *)
Definition handleClick (config : ChartConfig) (payload : object)
  : option (string * JS.value) :=
  match Get payload (xKey config) with
  | VUndefined => None
  | value => Some (xKey config, value)
  end.

(** * The data studio (components/DataStudio.tsx) *)

Definition rowsPerPage : Z := 50.

Definition paginatedData (data : list object) (page : Z) : list object :=
  slice ((page - 1) * rowsPerPage) (page * rowsPerPage) data.

(** The value a cell gets from the text typed into it. *)
Definition editedValue (value : string) : JS.value :=
  let numVal := StringToNumber value in
  if negb (isNaN numVal) && negb (isEmpty (trim value))
  then VNumber numVal else VString value.

(** [{ ...row, [key]: ... }] *)
Definition editRow (row : object) (key value : string) : object :=
  defineOwn (spread row) key (editedValue value).

(** [handleCellEdit]: the new array, a hole being [None].  Inside the
    array the row at [realIndex] is replaced; an index at or past the end
    extends the array, leaving holes before the new row; a negative index
    writes no element. *)
Definition handleCellEdit (data : list object) (page rowIndex : Z)
    (key value : string) : list (option object) :=
  let realIndex := ((page - 1) * rowsPerPage + rowIndex)%Z in
  let newData := map Some data in
  if (realIndex <? 0)%Z then newData
  else
    let i := Z.to_nat realIndex in
    match nth_error data i with
    | Some row =>
        firstn i newData ++ Some (editRow row key value) :: skipn (S i) newData
    | None =>
        newData ++ repeat None (i - List.length data)
                ++ [Some (editRow [] key value)]
    end%list.

(** * File upload (components/FileUpload.tsx) *)

(** What [processFile] ends in, once the file is read: a message, or the
    dataset handed to [onDataLoaded]. *)
Inductive UploadOutcome : Type :=
| UploadError (message : string)
| DataLoaded (dataset : Dataset).

(** [fileType] and [fileName] are [file.type] and [file.name], [text] what
    the reader read. *)
Definition processFile (uuid fileType fileName text : string)
  : UploadOutcome :=
  if negb (String.eqb fileType "text/csv") && negb (endsWith fileName ".csv")
  then UploadError "Please upload a valid CSV file."
  else match parseCSV uuid text fileName with
       | Normal dataset => DataLoaded dataset
       | Throw _ =>
           UploadError "Failed to parse CSV. Please check the file format."
       end.

(** * Intent post-processing (services/geminiService.ts) *)

(** The pass of [interpretUserQuery] over the filters of the parsed intent:
    a value that reads as a number becomes that number, except under
    [contains]. *)
Definition coerceFilter (f : QueryFilter) : QueryFilter :=
  if negb (isNaN (ToNumber (value f)))
     && negb (String.eqb (operator f) "contains")
  then {| column := column f; operator := operator f;
          value := VNumber (ToNumber (value f)) |}
  else f.

Definition coerceFilters (result : QueryIntent) : QueryIntent :=
  match filters result with
  | Some fs =>
      {| intent_type := intent_type result;
         filters := Some (map coerceFilter fs);
         groupBy := groupBy result;
         aggregateColumn := aggregateColumn result;
         aggregateType := aggregateType result;
         chartType := chartType result;
         textResponse := textResponse result;
         title := title result |}
  | None => result
  end.

(** * The chat (components/AIChat.tsx) *)

Inductive Role : Type := user | ai.

Record ChatChart : Type := {
  config : ChartConfig;
  chart_data : list object
}.

(** [timestamp] is the time of a [Date]. *)
Record ChatMessage : Type := {
  message_id : string;
  role : Role;
  content : string;
  timestamp : number;
  chart : option ChatChart;
  isError : option bool
}.

(** The suggestions of the welcome message. *)
Definition suggestions (columns : list ColumnProfile) : list string :=
  let numericCols :=
    map name (List.filter (fun c => isNumericType (type c)) columns) in
  let catCols :=
    map name (List.filter (fun c => match type c with
                                    | categorical | text => true
                                    | _ => false
                                    end) columns) in
  let dateCols :=
    map name (List.filter (fun c => match type c with
                                    | datetime => true
                                    | _ => false
                                    end) columns) in
  let suggestions : list string := [] in
  let suggestions : list string :=
    match numericCols, catCols with
    | n0 :: _, _ =>
        (suggestions ++ [("What is the average **" ++ n0 ++ "**?")%string])%list
    | [], c0 :: _ =>
        (suggestions ++ [("Count records by **" ++ c0 ++ "**")%string])%list
    | [], [] => suggestions
    end in
  let suggestions : list string :=
    match dateCols, catCols, numericCols with
    | d0 :: _, _, n0 :: _ =>
        (suggestions ++
         [("Show **" ++ n0 ++ "** trend over **" ++ d0 ++ "**")%string])%list
    | _, c0 :: _, n0 :: _ =>
        (suggestions ++
         [("Top 5 **" ++ c0 ++ "** by **" ++ n0 ++ "**")%string])%list
    | _, _, n0 :: n1 :: _ =>
        (suggestions ++
         [("Plot **" ++ n0 ++ "** vs **" ++ n1 ++ "**")%string])%list
    | _, _, _ => suggestions
    end in
  let suggestions : list string :=
    if Nat.ltb (List.length suggestions) 2
    then (suggestions ++ ["Summarize the key insights"])%list
    else suggestions in
  slice 0 3 suggestions.

(** The readings of the clock during one [handleSend]: [Date.now()] and
    [new Date()] for the user's message, for the reply, for the id of its
    chart, and for the message of the [catch] block. *)
Record Times : Type := {
  sentId : number;
  sentAt : number;
  repliedId : number;
  repliedAt : number;
  chartedAt : number;
  failedId : number;
  failedAt : number
}.

(** The reply of [handleSend] to the intent [interpretUserQuery] returned;
    [generateDataSummary] is the answer of the external service to a
    question and the rows of a result. *)
Definition reply (engine : Engine) (data : list object)
    (intent : QueryIntent)
    (question : string)
    (generateDataSummary : string -> list object -> string)
    (times : Times) : completion ChatMessage :=
  let aiMsg (content : string) (chart : option ChatChart) :=
    {| message_id := NumberToString (add (repliedId times) one);
       role := ai;
       content := content;
       timestamp := repliedAt times;
       chart := chart;
       isError := None |} in
  let text :=
    match truthy (textResponse intent) with
    | Some t => t
    | None => "Here is what I found."
    end in
  match intent_type intent, truthy (groupBy intent),
        truthy (aggregateColumn intent) with
  | query, Some g, Some a =>
      bind (queryData engine data intent)
           (fun resultData =>
              if Nat.ltb 0 (List.length resultData) then
                let summary := generateDataSummary question resultData in
                match chartType intent with
                | Some kind =>
                    let chartConfig :=
                      {| chart_id :=
                           "chat-chart-" ++ NumberToString (chartedAt times);
                         chart_type := kind;
                         chart_title :=
                           match truthy (title intent) with
                           | Some t => t
                           | None => "Analysis Result"
                           end;
                         chart_description :=
                           "Generated from query: " ++ question;
                         xKey := g;
                         yKey := a;
                         categoryKey := None |} in
                    Normal (aiMsg summary
                              (Some {| config := chartConfig;
                                       chart_data := resultData |}))
                | None => Normal (aiMsg summary None)
                end
              else if Nat.eqb (List.length resultData) 0 then
                Normal (aiMsg
                  "I ran the query on your data, but no records matched your criteria."
                  None)
              else Normal (aiMsg (generateDataSummary question resultData)
                                 None))
  | _, _, _ => Normal (aiMsg text None)
  end.

(** [handleSend], as it acts on the list of messages: the list after the
    question [input] was sent and answered. *)
Definition handleSend (engine : Engine) (messages : list ChatMessage)
    (data : list object)
    (input : string) (intent : QueryIntent)
    (generateDataSummary : string -> list object -> string)
    (times : Times) : list ChatMessage :=
  if isEmpty (trim input) then messages
  else
    let userMsg :=
      {| message_id := NumberToString (sentId times);
         role := user;
         content := input;
         timestamp := sentAt times;
         chart := None;
         isError := None |} in
    let messages := (messages ++ [userMsg])%list in
    match reply engine data intent (content userMsg) generateDataSummary
                times with
    | Normal aiMsg => (messages ++ [aiMsg])%list
    | Throw _ =>
        (messages ++
         [ {| message_id := NumberToString (failedId times);
              role := ai;
              content :=
                "Sorry, I encountered an error processing your request.";
              timestamp := failedAt times;
              chart := None;
              isError := Some true |} ])%list
    end.

(** * Sample inputs *)

Module Samples.

Definition num (z : Z) : JS.value := VNumber (ofZ z).

Definition intent (fs : list QueryFilter) (g a t : option string)
  : QueryIntent :=
  {| intent_type := query;
     filters := Some fs;
     groupBy := g;
     aggregateColumn := a;
     aggregateType := t;
     chartType := Some BAR;
     textResponse := None;
     title := None |}.

(** A dataset of one row with the columns [region] and [sales]. *)
Definition salesData : Dataset :=
  {| dataset_id := "d1";
     dataset_name := "sales.csv";
     data := [ [("region", VString "north"); ("sales", num 10)] ];
     rowCount := 1;
     analysis := None |}.

Definition chart (x y : string) (c : option string) : ChartConfig :=
  {| chart_id := "c1";
     chart_type := BAR;
     chart_title := "Sales by region";
     chart_description := "Total sales of each region";
     xKey := x;
     yKey := y;
     categoryKey := c |}.

Definition proposal (charts : list ChartConfig) : AnalysisResult :=
  {| summary := "Sales";
     columns := [];
     recommendedCharts := charts;
     insights := [] |}.

(** Three rows: [b] is twice [a], [c] is constant and [label] is text. *)
Definition trend : list object :=
  [ [("a", num 1); ("b", num 2); ("c", num 5); ("label", VString "p")];
    [("a", num 2); ("b", num 4); ("c", num 5); ("label", VString "q")];
    [("a", num 3); ("b", num 6); ("c", num 5); ("label", VString "r")] ].

(** The rows of the aggregation example of the specification. *)
Definition catRows : list object :=
  [ [("cat", VString "x"); ("v", num 1)];
    [("cat", VString "x"); ("v", num 3)];
    [("cat", VString "y"); ("v", num 2)] ].

Definition sumByCat : QueryIntent :=
  intent [] (Some "cat") (Some "v") (Some "SUM").

(** A table of occupations: one of them is [constructor]. *)
Definition jobRows : list object :=
  [ [("cat", VString "teacher"); ("v", num 2)];
    [("cat", VString "constructor"); ("v", num 1)] ].

(** Eighty rows, each a group of its own: [g0] ... [g79]. *)
Definition eightyRows : list object :=
  map (fun i => [("cat", VString ("g" ++ digits (N.of_nat i)));
                 ("v", VNumber (ofNat i))])
      (seq 0 80).

(** A file of a header and two lines, the second cell of each in
    quotes. *)
Definition smallCsv : string :=
  "name,qty" ++ String LF
  ("pen," ++ String quoteChar ("42" ++ String quoteChar (String CR (String LF
  ("ink," ++ String quoteChar ("42abc" ++ String quoteChar (String LF
  EmptyString))))))).

(** A file of a header and 3001 lines. *)
Definition longCsv : string :=
  "n" ++ String.concat EmptyString (repeat (String LF "7") 3001).

(** Five rows: [c] is 0.7 in each of them and [i] counts them. *)
Definition constantRows : list object :=
  map (fun i => [("c", VNumber (ofDecimal false 7 (-1)));
                 ("i", VNumber (ofNat i))])
      (seq 0 5).

(** Fifty-three rows of a column [n] that is blank in the fifty-second,
    beside a column [i] that counts the rows. *)
Definition blankLateRows : list object :=
  map (fun i => [("n", if Nat.eqb i 51 then VString EmptyString
                       else VNumber (ofNat i));
                 ("i", VNumber (ofNat i))])
      (seq 0 53).

(** The readings of the clock during one exchange of the chat, and a
    service that answers every question with the number of rows it was
    given. *)
Definition clock : Times :=
  {| sentId := ofZ 1000; sentAt := ofZ 1000;
     repliedId := ofZ 2000; repliedAt := ofZ 2001;
     chartedAt := ofZ 2002;
     failedId := ofZ 3000; failedAt := ofZ 3000 |}.

(** The rows of [constantRows] as a file. *)
Definition constantCsv : string :=
  "c,i" ++ String.concat EmptyString
             (map (fun i => String LF ("0.7," ++ digits (N.of_nat i)))
                  (seq 0 5)).

(** A numeric, a categorical and a date column. *)
Definition threeColumns : list ColumnProfile :=
  [ {| name := "sales"; type := numeric; missingCount := zero;
       uniqueCount := ofZ 3; exampleValues := ["10"; "20"] |};
    {| name := "region"; type := categorical; missingCount := zero;
       uniqueCount := ofZ 2; exampleValues := ["north"; "south"] |};
    {| name := "day"; type := datetime; missingCount := zero;
       uniqueCount := ofZ 3; exampleValues := ["2024-01-01"] |} ].

(** Rows of four groups, the aggregate of the third being NaN. *)
Definition nanRows : list object :=
  [ [("cat", VString "a"); ("v", num 1)];
    [("cat", VString "b"); ("v", num 2)];
    [("cat", VString "c"); ("v", VNumber NaN)];
    [("cat", VString "d"); ("v", num 3)] ].

Definition summarize (question : string) (rows : list object) : string :=
  "rows: " ++ digits (N.of_nat (List.length rows)).

End Samples.

(** * Properties *)

(** ** Facts about the ECMAScript operations *)

Module JSFacts.

Lemma mul_comm (x y : number) : mul x y = mul y x.
Proof.
  unfold mul, SFmul.
  destruct x as [sx | sx | | sx mx ex], y as [sy | sy | | sy my ey];
    try reflexivity; try (now rewrite xorb_comm).
  now rewrite xorb_comm, Pos.mul_comm, Z.add_comm.
Qed.

Lemma times_comm (a b : JS.value) : times a b = times b a.
Proof. unfold times. apply mul_comm. Qed.

Lemma toLowerCase_empty (s : string) :
  toLowerCase s = EmptyString -> s = EmptyString.
Proof. destruct s; simpl; [reflexivity | discriminate]. Qed.

Lemma isEmpty_false (s : string) : isEmpty s = false <-> s <> EmptyString.
Proof. destruct s; simpl; split; congruence. Qed.



End JSFacts.

(** ** The sign of a difference *)

Lemma binary_round_aux_negative (m e : Z) (l : location) :
  positive_result (binary_round_aux prec emax true m e l) = false.
Proof.
  unfold binary_round_aux.
  destruct (shr_fexp prec emax m e l) as [mrs' e'].
  destruct (shr_fexp prec emax _ e' loc_Exact) as [mrs'' e''].
  destruct (shr_m mrs''); [reflexivity | | reflexivity].
  destruct (Z.leb e'' (emax - prec)); reflexivity.
Qed.

Lemma binary_normalize_positive (z e : Z) :
  positive_result (binary_normalize prec emax z e false) = true ->
  (0 < z)%Z.
Proof.
  destruct z as [| p | p]; simpl.
  - discriminate.
  - intros _. apply Pos2Z.is_pos.
  - unfold binary_round.
    destruct (shl_align p e _) as [mz ez].
    now rewrite binary_round_aux_negative.
Qed.

Lemma binary_normalize_not_positive (z e : Z) :
  (z <= 0)%Z ->
  positive_result (binary_normalize prec emax z e false) = false.
Proof.
  intros Hz.
  destruct (positive_result (binary_normalize prec emax z e false)) eqn:H;
    [| reflexivity].
  apply binary_normalize_positive in H. lia.
Qed.

(** When [x - y] is positive, [y - x] is not. *)
Lemma sub_antisym (x y : number) :
  positive_result (sub x y) = true -> positive_result (sub y x) = false.
Proof.
  unfold sub.
  destruct x as [sx | sx | | sx mx ex], y as [sy | sy | | sy my ey];
    try (repeat match goal with b : bool |- _ => destruct b end;
         simpl; intros H; first [discriminate H | reflexivity]).
  unfold SFsub. intros H. apply binary_normalize_positive in H.
  apply binary_normalize_not_positive.
  rewrite (Z.min_comm ey ex). lia.
Qed.

(** ** Lists *)

Lemma nth_map_seq (A : Type) (f : nat -> A) (n i : nat) (d : A) :
  i < n -> nth i (map f (seq 0 n)) d = f i.
Proof.
  intros Hi.
  rewrite (nth_indep _ d (f 0)) by (now rewrite length_map, length_seq).
  rewrite map_nth. now rewrite seq_nth.
Qed.

Lemma find_first (A : Type) (p : A -> bool) (before after : list A) (x : A) :
  (forall y, In y before -> p y = false) -> p x = true ->
  find p (before ++ x :: after) = Some x.
Proof.
  intros Hb Hx. induction before as [| y before IH]; simpl.
  - now rewrite Hx.
  - rewrite (Hb y) by now left. apply IH. intros z Hz. apply Hb. now right.
Qed.

Lemma find_absent (A : Type) (p : A -> bool) (l : list A) :
  (forall y, In y l -> p y = false) -> find p l = None.
Proof.
  intros H. induction l as [| y l IH]; simpl; [reflexivity |].
  rewrite (H y) by now left. apply IH. intros z Hz. apply H. now right.
Qed.

Lemma filter_all (A : Type) (l : list A) : List.filter (fun _ => true) l = l.
Proof. induction l as [| x l IH]; simpl; [reflexivity | now rewrite IH]. Qed.

Lemma In_firstn (A : Type) (n : nat) (l : list A) (x : A) :
  In x (firstn n l) -> In x l.
Proof.
  intros Hin. rewrite <- (firstn_skipn n l). apply in_or_app. now left.
Qed.

Lemma Normal_inj (A : Type) (a b : A) : Normal a = Normal b -> a = b.
Proof. now intros [= ->]. Qed.

(** ** Own properties of a plain object *)

Section PropsFacts.

Variable A : Type.
Implicit Types (o : props A) (k : string) (v : A).

Lemma own_replace o k v k' :
  own (replace o k v) k' =
  if String.eqb k k'
  then match own o k with Some _ => Some v | None => None end
  else own o k'.
Proof.
  induction o as [| [k0 v0] o IH]; simpl.
  - now destruct (String.eqb k k').
  - destruct (String.eqb_spec k0 k) as [-> | Hk0]; simpl.
    + now destruct (String.eqb k k').
    + rewrite IH.
      destruct (String.eqb_spec k0 k') as [-> | Hk0'];
        destruct (String.eqb_spec k k') as [-> | Hk']; congruence.
Qed.

Lemma own_insertIndex o i k v k' :
  own o k = None ->
  own (insertIndex o i k v) k' =
  if String.eqb k k' then Some v else own o k'.
Proof.
  induction o as [| [k0 v0] o IH]; simpl; [reflexivity |].
  destruct (String.eqb_spec k0 k) as [-> | Hk0]; [discriminate |].
  intros Hnone.
  destruct (arrayIndex k0) as [j |]; [destruct (j <? i)%N |]; simpl;
    try reflexivity.
  rewrite (IH Hnone).
  destruct (String.eqb_spec k0 k') as [-> | Hk0'];
    destruct (String.eqb_spec k k') as [-> | Hk']; congruence.
Qed.

Lemma own_app_last o k v k' :
  own o k = None ->
  own (o ++ [(k, v)])%list k' =
  if String.eqb k k' then Some v else own o k'.
Proof.
  induction o as [| [k0 v0] o IH]; simpl; [reflexivity |].
  destruct (String.eqb_spec k0 k) as [-> | Hk0]; [discriminate |].
  intros Hnone. rewrite (IH Hnone).
  destruct (String.eqb_spec k0 k') as [-> | Hk0'];
    destruct (String.eqb_spec k k') as [-> | Hk']; congruence.
Qed.

Lemma own_defineOwn o k v k' :
  own (defineOwn o k v) k' = if String.eqb k k' then Some v else own o k'.
Proof.
  unfold defineOwn. destruct (own o k) as [v0 |] eqn:Hown.
  - rewrite own_replace, Hown. reflexivity.
  - destruct (arrayIndex k);
      [now apply own_insertIndex | now apply own_app_last].
Qed.

End PropsFacts.

(** ** The names of the own properties *)

Section KeysFacts.

Variable A : Type.
Implicit Types (o : props A) (k : string) (v : A).

Lemma keys_replace o k v : keys (replace o k v) = keys o.
Proof.
  unfold keys. induction o as [| [k0 v0] o IH]; simpl; [reflexivity |].
  destruct (String.eqb k0 k); simpl; [reflexivity | now rewrite IH].
Qed.

Lemma own_None_keys o k : own o k = None <-> ~ In k (keys o).
Proof.
  unfold keys. induction o as [| [k0 v0] o IH]; simpl; [tauto |].
  destruct (String.eqb_spec k0 k) as [-> | Hne].
  - split; [discriminate | intros H; exfalso; apply H; now left].
  - rewrite IH. tauto.
Qed.

Lemma In_own o k v : NoDup (keys o) -> In (k, v) o -> own o k = Some v.
Proof.
  unfold keys. induction o as [| [k0 v0] o IH]; simpl; [contradiction |].
  intros Hnodup [[= -> ->] | Hin].
  - now rewrite String.eqb_refl.
  - inversion Hnodup as [| ? ? Hfresh Hnodup']; subst.
    destruct (String.eqb_spec k0 k) as [-> | Hne]; [| now apply IH].
    exfalso. apply Hfresh. change k with (fst (k, v)). now apply in_map.
Qed.

Lemma keys_insertIndex o i k v :
  Permutation (keys (insertIndex o i k v)) (k :: keys o).
Proof.
  unfold keys. induction o as [| [k0 v0] o IH]; simpl;
    [apply Permutation_refl |].
  destruct (arrayIndex k0) as [j |]; [destruct (j <? i)%N |]; simpl;
    try apply Permutation_refl.
  apply perm_trans with (k0 :: k :: map fst o);
    [now apply perm_skip | apply perm_swap].
Qed.

Lemma keys_defineOwn_fresh o k v :
  own o k = None -> Permutation (keys (defineOwn o k v)) (k :: keys o).
Proof.
  intros Hnone. unfold defineOwn. rewrite Hnone.
  destruct (arrayIndex k); [apply keys_insertIndex |].
  unfold keys. rewrite map_app. simpl.
  apply Permutation_sym, Permutation_cons_append.
Qed.

Lemma NoDup_keys_defineOwn_fresh o k v :
  own o k = None -> NoDup (keys o) -> NoDup (keys (defineOwn o k v)).
Proof.
  intros Hnone Hnodup.
  apply (Permutation_NoDup (Permutation_sym (keys_defineOwn_fresh o k v Hnone))).
  constructor; [now apply own_None_keys | assumption].
Qed.

End KeysFacts.

(** ** Sorting *)

(** A result of the comparator that is not NaN is negative, zero or
    positive, and one of them only. *)
Lemma sign_of_result (v : number) :
  isNaN v = false ->
  (SFltb v zero = true /\ strictEq v zero = false
   /\ positive_result v = false) \/
  (SFltb v zero = false /\ strictEq v zero = true
   /\ positive_result v = false) \/
  (SFltb v zero = false /\ strictEq v zero = false
   /\ positive_result v = true).
Proof.
  destruct v as [s | s | | s m e]; try discriminate; intros _;
    destruct s; cbv; tauto.
Qed.

Section SortFacts.

Variable A : Type.
Variable cmp : A -> A -> number.

Lemma insert_Permutation (x : A) (l : list A) :
  Permutation (insert cmp x l) (x :: l).
Proof.
  induction l as [| y l IH]; simpl; [apply Permutation_refl |].
  destruct (positive_result (cmp x y)); [| apply Permutation_refl].
  apply perm_trans with (y :: x :: l);
    [now apply perm_skip | apply perm_swap].
Qed.

Lemma insertionSort_Permutation (l : list A) :
  Permutation (insertionSort cmp l) l.
Proof.
  induction l as [| x l IH]; simpl; [apply perm_nil |].
  apply perm_trans with (x :: insertionSort cmp l);
    [apply insert_Permutation | now apply perm_skip].
Qed.

(** What an engine returns holds the elements it was given. *)
Lemma sort_In (engine : Engine) (l : list A) (x : A) :
  In x (sort engine cmp l) <-> In x l.
Proof.
  split; apply Permutation_in;
    [| apply Permutation_sym]; apply sort_elements.
Qed.

Lemma sort_nil (engine : Engine) : sort engine cmp [] = [].
Proof. apply Permutation_nil, Permutation_sym, sort_elements. Qed.

Lemma sort_length (engine : Engine) (l : list A) :
  List.length (sort engine cmp l) = List.length l.
Proof. apply Permutation_length, sort_elements. Qed.

(** *** The order of a consistent comparator *)

Section Consistent.

Variable xs : list A.
Hypothesis cmp_consistent : consistent cmp xs = true.

Lemma consistent_inv (a b c : A) :
  In a xs -> In b xs -> In c xs ->
  isNaN (cmp a b) = false /\
  equalC cmp a a = true /\
  (equalC cmp a b = true -> equalC cmp b a = true) /\
  (equalC cmp a b = true -> equalC cmp b c = true ->
   equalC cmp a c = true) /\
  (lessC cmp a b = true -> lessC cmp b c = true -> lessC cmp a c = true) /\
  (greaterC cmp a b = true -> greaterC cmp b c = true ->
   greaterC cmp a c = true).
Proof.
  intros Ha Hb Hc. unfold consistent in cmp_consistent.
  rewrite forallb_forall in cmp_consistent.
  pose proof (cmp_consistent a Ha) as H.
  apply andb_true_iff in H. destruct H as [Hrefl H].
  rewrite forallb_forall in H. specialize (H b Hb).
  apply andb_true_iff in H. destruct H as [H Htrans].
  apply andb_true_iff in H. destruct H as [Hnan Hsym].
  rewrite forallb_forall in Htrans. specialize (Htrans c Hc).
  apply andb_true_iff in Htrans. destruct Htrans as [Htrans Hgt].
  apply andb_true_iff in Htrans. destruct Htrans as [Heq Hlt].
  apply negb_true_iff in Hnan.
  split; [assumption |]. split; [assumption |]. split.
  { intros H1. now rewrite H1 in Hsym. }
  split.
  { intros H1 H2. now rewrite H1, H2 in Heq. }
  split.
  { intros H1 H2. now rewrite H1, H2 in Hlt. }
  intros H1 H2. now rewrite H1, H2 in Hgt.
Qed.

Lemma trichotomy (a b : A) :
  In a xs -> In b xs ->
  (lessC cmp a b = true /\ equalC cmp a b = false
   /\ greaterC cmp a b = false) \/
  (lessC cmp a b = false /\ equalC cmp a b = true
   /\ greaterC cmp a b = false) \/
  (lessC cmp a b = false /\ equalC cmp a b = false
   /\ greaterC cmp a b = true).
Proof.
  intros Ha Hb. destruct (consistent_inv _ _ _ Ha Hb Ha) as [Hnan _].
  apply sign_of_result. exact Hnan.
Qed.

Lemma lessC_irrefl (a : A) : In a xs -> lessC cmp a a = false.
Proof.
  intros Ha. destruct (consistent_inv _ _ _ Ha Ha Ha) as [_ [Hrefl _]].
  destruct (trichotomy _ _ Ha Ha) as [[_ [H _]] | [[H _] | [_ [H _]]]];
    congruence.
Qed.

Lemma greaterC_irrefl (a : A) : In a xs -> greaterC cmp a a = false.
Proof.
  intros Ha. destruct (consistent_inv _ _ _ Ha Ha Ha) as [_ [Hrefl _]].
  destruct (trichotomy _ _ Ha Ha) as [[_ [H _]] | [[_ [_ H]] | [_ [H _]]]];
    congruence.
Qed.

(** The two directions of a comparison agree. *)
Lemma lessC_greaterC (a b : A) :
  In a xs -> In b xs -> lessC cmp a b = true -> greaterC cmp b a = true.
Proof.
  intros Ha Hb Hlt.
  destruct (trichotomy _ _ Hb Ha) as [[Hba _] | [[_ [Hba _]] | [_ [_ Hba]]]];
    [| | assumption]; exfalso.
  - destruct (consistent_inv _ _ _ Ha Hb Ha) as [_ [_ [_ [_ [Htrans _]]]]].
    pose proof (Htrans Hlt Hba) as H. rewrite (lessC_irrefl _ Ha) in H.
    discriminate.
  - destruct (consistent_inv _ _ _ Hb Ha Ha) as [_ [_ [Hsym _]]].
    specialize (Hsym Hba).
    destruct (trichotomy _ _ Ha Hb) as [[_ [H _]] | [[H _] | [H _]]];
      congruence.
Qed.

Lemma greaterC_lessC (a b : A) :
  In a xs -> In b xs -> greaterC cmp a b = true -> lessC cmp b a = true.
Proof.
  intros Ha Hb Hgt.
  destruct (trichotomy _ _ Hb Ha) as [[Hba _] | [[_ [Hba _]] | [_ [_ Hba]]]];
    [assumption | |]; exfalso.
  - destruct (consistent_inv _ _ _ Hb Ha Ha) as [_ [_ [Hsym _]]].
    specialize (Hsym Hba).
    destruct (trichotomy _ _ Ha Hb) as [[_ [H _]] | [[_ [_ H]] | [_ [H _]]]];
      congruence.
  - destruct (consistent_inv _ _ _ Ha Hb Ha) as [_ [_ [_ [_ [_ Htrans]]]]].
    pose proof (Htrans Hgt Hba) as H. rewrite (greaterC_irrefl _ Ha) in H.
    discriminate.
Qed.

(** What is sent after an element may not stand before it. *)
Lemma greaterC_notAfter (a b : A) :
  In a xs -> In b xs -> greaterC cmp a b = true -> notAfter cmp b a.
Proof.
  intros Ha Hb Hgt. pose proof (greaterC_lessC _ _ Ha Hb Hgt) as Hlt.
  destruct (trichotomy _ _ Hb Ha) as [[_ [_ H]] | [[H _] | [H _]]];
    [exact H | congruence | congruence].
Qed.

Lemma notAfter_trans (a b c : A) :
  In a xs -> In b xs -> In c xs ->
  notAfter cmp a b -> notAfter cmp b c -> notAfter cmp a c.
Proof.
  unfold notAfter. fold (greaterC cmp a b) (greaterC cmp b c)
    (greaterC cmp a c).
  intros Ha Hb Hc Hab Hbc.
  destruct (greaterC cmp a c) eqn:Hac; [exfalso | reflexivity].
  (* a >C c *)
  destruct (trichotomy _ _ Ha Hb) as [[Hlt _] | [[_ [Heq _]] | [_ [_ H]]]];
    [| | congruence].
  - (* a <C b, so b >C a >C c *)
    pose proof (lessC_greaterC _ _ Ha Hb Hlt) as Hba.
    destruct (consistent_inv _ _ _ Hb Ha Hc) as [_ [_ [_ [_ [_ Htrans]]]]].
    pose proof (Htrans Hba Hac). congruence.
  - (* a =C b *)
    destruct (trichotomy _ _ Hb Hc) as [[Hlt _] | [[_ [Heq' _]] | [_ [_ H]]]];
      [| | congruence].
    + (* b <C c, so c >C b and a >C c >C b *)
      pose proof (lessC_greaterC _ _ Hb Hc Hlt) as Hcb.
      destruct (consistent_inv _ _ _ Ha Hc Hb) as [_ [_ [_ [_ [_ Htrans]]]]].
      pose proof (Htrans Hac Hcb) as H.
      destruct (trichotomy _ _ Ha Hb) as [[_ [H' _]] | [[_ [_ H']] | [_ [H' _]]]];
        congruence.
    + (* b =C c, so a =C c *)
      destruct (consistent_inv _ _ _ Ha Hb Hc) as [_ [_ [_ [Htrans _]]]].
      pose proof (Htrans Heq Heq') as H.
      destruct (trichotomy _ _ Ha Hc) as [[_ [H' _]] | [[_ [_ H']] | [_ [H' _]]]];
        congruence.
Qed.

Lemma insert_StronglySorted (x : A) (l : list A) :
  In x xs -> incl l xs ->
  StronglySorted (notAfter cmp) l ->
  StronglySorted (notAfter cmp) (insert cmp x l).
Proof.
  intros Hx. induction l as [| y l IH]; intros Hl Hsorted; simpl.
  - repeat constructor.
  - assert (Hy : In y xs) by (apply Hl; now left).
    assert (Hl' : incl l xs) by (intros z Hz; apply Hl; now right).
    apply StronglySorted_inv in Hsorted. destruct Hsorted as [Hs Hall].
    destruct (positive_result (cmp x y)) eqn:Hxy.
    + constructor; [now apply IH |].
      apply Forall_forall. intros z Hz.
      apply (Permutation_in _ (insert_Permutation x l)) in Hz.
      destruct Hz as [<- | Hz].
      * now apply greaterC_notAfter.
      * rewrite Forall_forall in Hall. now apply Hall.
    + constructor; [now constructor |].
      constructor; [exact Hxy |].
      apply Forall_forall. intros z Hz.
      rewrite Forall_forall in Hall.
      apply notAfter_trans with y; auto.
Qed.

Lemma insertionSort_StronglySorted_incl (l : list A) :
  incl l xs -> StronglySorted (notAfter cmp) (insertionSort cmp l).
Proof.
  induction l as [| x l IH]; intros Hl; simpl; [constructor |].
  apply insert_StronglySorted.
  - apply Hl. now left.
  - intros z Hz. apply Hl. right.
    now apply (Permutation_in _ (insertionSort_Permutation l)).
  - apply IH. intros z Hz. apply Hl. now right.
Qed.

(** Insertion keeps the order of the elements the comparator holds
    equal. *)
Lemma insert_stable (z x : A) (l : list A) :
  In z xs -> In x xs -> incl l xs ->
  List.filter (equalC cmp z) (insert cmp x l) =
  List.filter (equalC cmp z) (x :: l).
Proof.
  intros Hz Hx. induction l as [| y l IH]; intros Hl; [reflexivity |].
  assert (Hy : In y xs) by (apply Hl; now left).
  assert (Hl' : incl l xs) by (intros w Hw; apply Hl; now right).
  cbn [insert]. destruct (positive_result (cmp x y)) eqn:Hxy;
    [| reflexivity].
  cbn [List.filter]. rewrite (IH Hl'). cbn [List.filter].
  destruct (equalC cmp z x) eqn:Hzx; [| reflexivity].
  destruct (equalC cmp z y) eqn:Hzy; [exfalso | reflexivity].
  (* x =C z =C y, against x >C y *)
  destruct (consistent_inv _ _ _ Hz Hx Hx) as [_ [_ [Hsym _]]].
  specialize (Hsym Hzx).
  destruct (consistent_inv _ _ _ Hx Hz Hy) as [_ [_ [_ [Htrans _]]]].
  pose proof (Htrans Hsym Hzy) as H.
  destruct (trichotomy _ _ Hx Hy) as [[_ [H' _]] | [[_ [_ H']] | [_ [H' _]]]];
    unfold greaterC in *; congruence.
Qed.

Lemma insertionSort_stable_incl (z : A) (l : list A) :
  In z xs -> incl l xs ->
  List.filter (equalC cmp z) (insertionSort cmp l) =
  List.filter (equalC cmp z) l.
Proof.
  intros Hz. induction l as [| x l IH]; intros Hl; [reflexivity |].
  assert (Hx : In x xs) by (apply Hl; now left).
  assert (Hl' : incl l xs) by (intros w Hw; apply Hl; now right).
  cbn [insertionSort fold_right]. fold (insertionSort cmp l).
  rewrite insert_stable; [| assumption | assumption |].
  - cbn [List.filter]. now rewrite (IH Hl').
  - intros w Hw. apply Hl'.
    now apply (Permutation_in _ (insertionSort_Permutation l)).
Qed.

(** *** Binary insertion *)

Lemma lessC_notAfter_trans (a b c : A) :
  In a xs -> In b xs -> In c xs ->
  lessC cmp a b = true -> notAfter cmp b c -> lessC cmp a c = true.
Proof.
  intros Ha Hb Hc Hab Hbc. unfold notAfter in Hbc.
  fold (greaterC cmp b c) in Hbc.
  pose proof (lessC_greaterC _ _ Ha Hb Hab) as Hba.
  destruct (trichotomy _ _ Ha Hc) as [[H _] | [[_ [Heq _]] | [_ [_ Hgt]]]];
    [assumption | exfalso | exfalso].
  - (* a =C c *)
    destruct (consistent_inv _ _ _ Ha Hc Ha) as [_ [_ [Hsym _]]].
    specialize (Hsym Heq).
    destruct (trichotomy _ _ Hb Hc) as [[Hlt _] | [[_ [Heq' _]] | [_ [_ H]]]];
      [| | congruence].
    + (* b <C c, so c >C b >C a *)
      pose proof (lessC_greaterC _ _ Hb Hc Hlt) as Hcb.
      destruct (consistent_inv _ _ _ Hc Hb Ha) as [_ [_ [_ [_ [_ Htrans]]]]].
      pose proof (Htrans Hcb Hba) as H.
      destruct (trichotomy _ _ Hc Ha) as [[_ [H' _]] | [[_ [_ H']] | [_ [H' _]]]];
        congruence.
    + (* b =C c =C a *)
      destruct (consistent_inv _ _ _ Hb Hc Ha) as [_ [_ [_ [Htrans _]]]].
      pose proof (Htrans Heq' Hsym) as H.
      destruct (trichotomy _ _ Hb Ha) as [[_ [H' _]] | [[_ [_ H']] | [_ [H' _]]]];
        congruence.
  - (* a >C c, so c <C a <C b *)
    pose proof (greaterC_lessC _ _ Ha Hc Hgt) as Hca.
    destruct (consistent_inv _ _ _ Hc Ha Hb) as [_ [_ [_ [_ [Htrans _]]]]].
    pose proof (Htrans Hca Hab) as H.
    pose proof (lessC_greaterC _ _ Hc Hb H). congruence.
Qed.

Lemma lessC_false_notAfter (p e : A) :
  In p xs -> In e xs -> lessC cmp p e = false -> notAfter cmp e p.
Proof.
  intros Hp He H. unfold notAfter. fold (greaterC cmp e p).
  destruct (greaterC cmp e p) eqn:Hgt; [| reflexivity].
  pose proof (greaterC_lessC _ _ He Hp Hgt). congruence.
Qed.

Lemma lessC_notAfter (p e : A) :
  In p xs -> In e xs -> lessC cmp p e = true -> notAfter cmp p e.
Proof.
  intros Hp He H.
  destruct (trichotomy _ _ Hp He) as [[_ [_ H']] | [[H' _] | [H' _]]];
    [exact H' | congruence | congruence].
Qed.

(** What stands after a pivot is not held equal to what is held equal to
    the pivot. *)
Lemma equalC_lessC (z p e : A) :
  In z xs -> In p xs -> In e xs ->
  equalC cmp z p = true -> lessC cmp p e = true -> equalC cmp z e = false.
Proof.
  intros Hz Hp He Hzp Hpe.
  destruct (equalC cmp z e) eqn:Hze; [exfalso | reflexivity].
  destruct (consistent_inv _ _ _ Hz Hp Hp) as [_ [_ [Hsym _]]].
  specialize (Hsym Hzp).
  destruct (consistent_inv _ _ _ Hp Hz He) as [_ [_ [_ [Htrans _]]]].
  pose proof (Htrans Hsym Hze) as H.
  destruct (trichotomy _ _ Hp He) as [[_ [H' _]] | [[H' _] | [H' _]]];
    congruence.
Qed.

Lemma notAfter_both_equalC (a b : A) :
  In a xs -> In b xs ->
  notAfter cmp a b -> notAfter cmp b a -> equalC cmp a b = true.
Proof.
  unfold notAfter. fold (greaterC cmp a b) (greaterC cmp b a).
  intros Ha Hb Hab Hba.
  destruct (trichotomy _ _ Ha Hb) as [[Hlt _] | [[_ [H _]] | [_ [_ H]]]];
    [| assumption | congruence].
  pose proof (lessC_greaterC _ _ Ha Hb Hlt). congruence.
Qed.

(** There is one sorted array that keeps the order of the elements held
    equal. *)
Lemma sorted_stable_unique (l1 : list A) :
  forall l2 : list A,
    incl l1 xs -> incl l2 xs ->
    StronglySorted (notAfter cmp) l1 ->
    StronglySorted (notAfter cmp) l2 ->
    (forall z, In z xs ->
               List.filter (equalC cmp z) l1 = List.filter (equalC cmp z) l2) ->
    l1 = l2.
Proof.
  induction l1 as [| h1 t1 IH]; intros l2 H1 H2 S1 S2 Hclass.
  - destruct l2 as [| h2 t2]; [reflexivity | exfalso].
    assert (Hh2 : In h2 xs) by (apply H2; now left).
    specialize (Hclass h2 Hh2). cbn [List.filter] in Hclass.
    destruct (consistent_inv _ _ _ Hh2 Hh2 Hh2) as [_ [Hrefl _]].
    rewrite Hrefl in Hclass. discriminate.
  - assert (Hh1 : In h1 xs) by (apply H1; now left).
    assert (Ht1 : incl t1 xs) by (intros w Hw; apply H1; now right).
    destruct (consistent_inv _ _ _ Hh1 Hh1 Hh1) as [_ [Hrefl1 _]].
    destruct l2 as [| h2 t2].
    { exfalso. specialize (Hclass h1 Hh1). cbn [List.filter] in Hclass.
      rewrite Hrefl1 in Hclass. discriminate. }
    assert (Hh2 : In h2 xs) by (apply H2; now left).
    assert (Ht2 : incl t2 xs) by (intros w Hw; apply H2; now right).
    destruct (consistent_inv _ _ _ Hh2 Hh2 Hh2) as [_ [Hrefl2 _]].
    apply StronglySorted_inv in S1. destruct S1 as [S1 F1].
    apply StronglySorted_inv in S2. destruct S2 as [S2 F2].
    rewrite Forall_forall in F1, F2.
    (* each head occurs in the other list *)
    assert (Hin2 : In h2 (h1 :: t1)).
    { assert (H : In h2 (List.filter (equalC cmp h2) (h1 :: t1))).
      { rewrite (Hclass h2 Hh2). cbn [List.filter]. rewrite Hrefl2.
        now left. }
      now apply filter_In in H. }
    assert (Hin1 : In h1 (h2 :: t2)).
    { assert (H : In h1 (List.filter (equalC cmp h1) (h2 :: t2))).
      { rewrite <- (Hclass h1 Hh1). cbn [List.filter]. rewrite Hrefl1.
        now left. }
      now apply filter_In in H. }
    assert (Heq : equalC cmp h1 h2 = true).
    { destruct Hin2 as [<- | Hin2]; [assumption |].
      destruct Hin1 as [<- | Hin1]; [assumption |].
      apply notAfter_both_equalC; auto. }
    assert (Hhead : h1 = h2).
    { pose proof (Hclass h1 Hh1) as H. cbn [List.filter] in H.
      rewrite Hrefl1, Heq in H. now injection H. }
    subst h2. f_equal. apply IH; try assumption.
    intros z Hz. pose proof (Hclass z Hz) as H. cbn [List.filter] in H.
    destruct (equalC cmp z h1); [now injection H | assumption].
Qed.

Lemma StronglySorted_nth (R : A -> A -> Prop) (d : A) (l : list A) :
  StronglySorted R l ->
  forall i j, i < j -> j < List.length l -> R (nth i l d) (nth j l d).
Proof.
  induction 1 as [| x l Hs IH Hall]; intros i j Hij Hj;
    [simpl in Hj; lia |].
  destruct j as [| j]; [lia |]. simpl in Hj.
  destruct i as [| i]; simpl.
  - rewrite Forall_forall in Hall. apply Hall. apply nth_In. lia.
  - apply IH; lia.
Qed.

Lemma StronglySorted_insert_middle (R : A -> A -> Prop) (x : A)
    (l1 l2 : list A) :
  StronglySorted R (l1 ++ l2)%list ->
  Forall (fun e => R e x) l1 -> Forall (R x) l2 ->
  StronglySorted R (l1 ++ x :: l2)%list.
Proof.
  induction l1 as [| y l1 IH]; simpl; intros Hs H1 H2.
  - now constructor.
  - apply StronglySorted_inv in Hs. destruct Hs as [Hs Hall].
    apply Forall_cons_iff in H1. destruct H1 as [Hy H1].
    constructor; [now apply IH |].
    rewrite Forall_forall in *. intros e He.
    apply in_app_or in He. destruct He as [He | [<- | He]].
    + apply Hall. apply in_or_app. now left.
    + assumption.
    + apply Hall. apply in_or_app. now right.
Qed.

Lemma searchPosition_spec (pivot : A) (a : list A) :
  In pivot xs -> incl a xs -> StronglySorted (notAfter cmp) a ->
  forall fuel left right,
    left <= right -> right <= List.length a -> right - left <= fuel ->
    (forall i, i < left -> lessC cmp pivot (nth i a pivot) = false) ->
    (forall i, right <= i -> i < List.length a ->
               lessC cmp pivot (nth i a pivot) = true) ->
    searchPosition cmp fuel pivot a left right <= List.length a /\
    (forall i, i < searchPosition cmp fuel pivot a left right ->
               lessC cmp pivot (nth i a pivot) = false) /\
    (forall i, searchPosition cmp fuel pivot a left right <= i ->
               i < List.length a ->
               lessC cmp pivot (nth i a pivot) = true).
Proof.
  intros Hpivot Ha Hsorted.
  assert (Hnth : forall i, i < List.length a -> In (nth i a pivot) xs).
  { intros i Hi. apply Ha. now apply nth_In. }
  induction fuel as [| fuel IH]; intros left right Hlr Hr Hfuel Hleft Hright.
  - cbn [searchPosition]. assert (left = right) by lia. subst right.
    repeat split; [lia | assumption | assumption].
  - cbn [searchPosition]. destruct (Nat.ltb_spec left right) as [Hlt | Hge].
    + set (mid := left + Nat.div2 (right - left)).
      assert (Hmid : left <= mid /\ mid < right).
      { unfold mid.
        assert (H : Nat.div2 (right - left) < right - left)
          by (apply Nat.lt_div2; lia).
        split; [apply Nat.le_add_r |].
        apply Nat.lt_le_trans with (left + (right - left));
          [now apply Nat.add_lt_mono_l |].
        rewrite Nat.add_comm, Nat.sub_add; [apply Nat.le_refl |].
        now apply Nat.lt_le_incl. }
      change (negative_result (cmp pivot (nth mid a pivot)))
        with (lessC cmp pivot (nth mid a pivot)).
      destruct (lessC cmp pivot (nth mid a pivot)) eqn:Hcmp.
      * apply IH; try lia; [assumption |].
        intros i Hi Hlen.
        destruct (Nat.eq_dec i mid) as [-> | Hne]; [assumption |].
        apply lessC_notAfter_trans with (nth mid a pivot);
          try assumption; try (apply Hnth; lia).
        apply StronglySorted_nth; [assumption | lia | lia].
      * apply IH; try lia; [| assumption].
        intros i Hi.
        destruct (Nat.eq_dec i mid) as [-> | Hne]; [assumption |].
        destruct (lessC cmp pivot (nth i a pivot)) eqn:Hi'; [| reflexivity].
        rewrite <- Hcmp. symmetry.
        apply lessC_notAfter_trans with (nth i a pivot);
          try assumption; try (apply Hnth; lia).
        apply StronglySorted_nth; [assumption | lia | lia].
    + assert (left = right) by lia. subst right.
      repeat split; [lia | assumption | assumption].
Qed.

Lemma Forall_firstn_nth (P : A -> Prop) (d : A) (p : nat) (l : list A) :
  (forall i, i < p -> i < List.length l -> P (nth i l d)) ->
  Forall P (firstn p l).
Proof.
  revert l. induction p as [| p IH]; intros l H; [constructor |].
  destruct l as [| x l]; [constructor |]. cbn [firstn].
  constructor.
  - apply (H 0); simpl; lia.
  - apply IH. intros i Hi Hlen. apply (H (S i)); simpl; lia.
Qed.

Lemma Forall_skipn_nth (P : A -> Prop) (d : A) (p : nat) (l : list A) :
  (forall i, p <= i -> i < List.length l -> P (nth i l d)) ->
  Forall P (skipn p l).
Proof.
  revert l. induction p as [| p IH]; intros l H.
  - cbn [skipn]. apply Forall_forall. intros x Hx.
    destruct (In_nth _ _ d Hx) as [i [Hi <-]]. apply H; lia.
  - destruct l as [| x l]; [constructor |]. cbn [skipn].
    apply IH. intros i Hi Hlen. apply (H (S i)); simpl; lia.
Qed.

(** The place of the pivot: after the elements it is not before. *)
Lemma binaryInsert_place (pivot : A) (a : list A) :
  In pivot xs -> incl a xs -> StronglySorted (notAfter cmp) a ->
  exists before after,
    a = (before ++ after)%list /\
    binaryInsert cmp a pivot = (before ++ pivot :: after)%list /\
    Forall (fun e => lessC cmp pivot e = false) before /\
    Forall (fun e => lessC cmp pivot e = true) after.
Proof.
  intros Hpivot Ha Hsorted. unfold binaryInsert.
  set (p := searchPosition cmp (List.length a) pivot a 0 (List.length a)).
  destruct (@searchPosition_spec pivot a Hpivot Ha Hsorted
              (List.length a) 0 (List.length a))
    as [Hp [Hbefore Hafter]]; try lia.
  fold p in Hp, Hbefore, Hafter.
  exists (firstn p a), (skipn p a).
  split; [now rewrite firstn_skipn |]. split; [reflexivity |]. split.
  - apply Forall_firstn_nth with pivot. intros i Hi _. now apply Hbefore.
  - apply Forall_skipn_nth with pivot. intros i Hi Hlen. now apply Hafter.
Qed.

Lemma binaryInsert_sorted (pivot : A) (a : list A) :
  In pivot xs -> incl a xs -> StronglySorted (notAfter cmp) a ->
  StronglySorted (notAfter cmp) (binaryInsert cmp a pivot).
Proof.
  intros Hpivot Ha Hsorted.
  destruct (@binaryInsert_place pivot a Hpivot Ha Hsorted)
    as [before [after [Heq [-> [Hb Hafter]]]]].
  subst a. apply StronglySorted_insert_middle; [assumption | |].
  - rewrite Forall_forall in *. intros e He.
    apply lessC_false_notAfter; auto.
    apply Ha, in_or_app. now left.
  - rewrite Forall_forall in *. intros e He.
    apply lessC_notAfter; auto.
    apply Ha, in_or_app. now right.
Qed.

Lemma filter_equalC_after (z pivot : A) (after : list A) :
  In z xs -> In pivot xs -> incl after xs ->
  equalC cmp z pivot = true ->
  Forall (fun e => lessC cmp pivot e = true) after ->
  List.filter (equalC cmp z) after = [].
Proof.
  intros Hz Hpivot Hafter Hzp Hall.
  induction after as [| e after IH]; [reflexivity |].
  apply Forall_cons_iff in Hall. destruct Hall as [He Hall].
  cbn [List.filter].
  rewrite (@equalC_lessC z pivot e Hz Hpivot (Hafter e (or_introl eq_refl))
             Hzp He).
  apply IH; [| assumption].
  intros w Hw. apply Hafter. now right.
Qed.

Lemma binaryInsert_stable (z pivot : A) (a : list A) :
  In z xs -> In pivot xs -> incl a xs -> StronglySorted (notAfter cmp) a ->
  List.filter (equalC cmp z) (binaryInsert cmp a pivot) =
  List.filter (equalC cmp z) (a ++ [pivot])%list.
Proof.
  intros Hz Hpivot Ha Hsorted.
  destruct (@binaryInsert_place pivot a Hpivot Ha Hsorted)
    as [before [after [Heq [-> [_ Hafter]]]]].
  subst a. rewrite <- app_assoc, !filter_app. f_equal.
  cbn [List.filter].
  destruct (equalC cmp z pivot) eqn:Hzp; [| now rewrite app_nil_r].
  rewrite (@filter_equalC_after z pivot after Hz Hpivot); auto.
  intros w Hw. apply Ha, in_or_app. now right.
Qed.

Lemma binaryInsert_incl (pivot : A) (a : list A) :
  In pivot xs -> incl a xs -> incl (binaryInsert cmp a pivot) xs.
Proof.
  intros Hpivot Ha w Hw. unfold binaryInsert in Hw.
  apply in_app_or in Hw. destruct Hw as [Hw | [<- | Hw]];
    [| assumption |].
  - apply Ha. revert Hw. apply In_firstn.
  - apply Ha. rewrite <- (firstn_skipn
      (searchPosition cmp (List.length a) pivot a 0 (List.length a)) a).
    apply in_or_app. now right.
Qed.

Lemma fold_binaryInsert (rest : list A) :
  forall a : list A,
    incl a xs -> incl rest xs -> StronglySorted (notAfter cmp) a ->
    StronglySorted (notAfter cmp) (fold_left (binaryInsert cmp) rest a) /\
    incl (fold_left (binaryInsert cmp) rest a) xs /\
    forall z, In z xs ->
      List.filter (equalC cmp z) (fold_left (binaryInsert cmp) rest a) =
      List.filter (equalC cmp z) (a ++ rest)%list.
Proof.
  induction rest as [| pivot rest IH]; intros a Ha Hrest Hsorted.
  - cbn [fold_left]. rewrite app_nil_r. now repeat split.
  - cbn [fold_left].
    assert (Hpivot : In pivot xs) by (apply Hrest; now left).
    assert (Hrest' : incl rest xs) by (intros w Hw; apply Hrest; now right).
    destruct (IH (binaryInsert cmp a pivot)
                 (@binaryInsert_incl pivot a Hpivot Ha) Hrest'
                 (@binaryInsert_sorted pivot a Hpivot Ha Hsorted))
      as [Hs [Hincl Hclass]].
    split; [assumption |]. split; [assumption |].
    intros z Hz. rewrite (Hclass z Hz), filter_app.
    rewrite (@binaryInsert_stable z pivot a Hz Hpivot Ha Hsorted).
    rewrite <- filter_app, <- app_assoc. reflexivity.
Qed.

(** *** The first run *)

Lemma continueRun_app (descending : bool) (l : list A) :
  forall previous,
    (fst (continueRun cmp descending previous l)
     ++ snd (continueRun cmp descending previous l))%list = l.
Proof.
  induction l as [| current l IH]; intros previous; cbn [continueRun];
    [reflexivity |].
  destruct (if descending
            then negb (negative_result (cmp current previous))
            else negative_result (cmp current previous));
    [reflexivity |].
  specialize (IH current).
  destruct (continueRun cmp descending current l) as [run rest].
  cbn [fst snd] in *. cbn [app]. now rewrite IH.
Qed.

Lemma continueRun_incl (descending : bool) (previous : A) (l : list A) :
  incl l xs ->
  incl (fst (continueRun cmp descending previous l)) xs /\
  incl (snd (continueRun cmp descending previous l)) xs.
Proof.
  intros Hl. rewrite <- (continueRun_app descending l previous) in Hl.
  split; intros w Hw; apply Hl, in_or_app; [now left | now right].
Qed.

Lemma ascending_run (l : list A) :
  forall previous,
    In previous xs -> incl l xs ->
    StronglySorted (notAfter cmp)
                   (previous :: fst (continueRun cmp false previous l)).
Proof.
  induction l as [| current l IH]; intros previous Hp Hl;
    cbn [continueRun]; [repeat constructor |].
  assert (Hc : In current xs) by (apply Hl; now left).
  assert (Hl' : incl l xs) by (intros w Hw; apply Hl; now right).
  change (negative_result (cmp current previous))
    with (lessC cmp current previous).
  destruct (lessC cmp current previous) eqn:Horder;
    [repeat constructor |].
  specialize (IH current Hc Hl').
  pose proof (proj1 (@continueRun_incl false current l Hl')) as Hrun.
  destruct (continueRun cmp false current l) as [run rest].
  cbn [fst] in *.
  pose proof (@lessC_false_notAfter current previous Hc Hp Horder) as Hpc.
  constructor; [assumption |].
  constructor; [assumption |].
  apply StronglySorted_inv in IH. destruct IH as [_ Hall].
  rewrite Forall_forall in *. intros e He.
  apply notAfter_trans with current; auto.
Qed.

Lemma descending_run (l : list A) :
  forall previous,
    In previous xs -> incl l xs ->
    StronglySorted (fun x y => lessC cmp y x = true)
                   (previous :: fst (continueRun cmp true previous l)).
Proof.
  induction l as [| current l IH]; intros previous Hp Hl;
    cbn [continueRun]; [repeat constructor |].
  assert (Hc : In current xs) by (apply Hl; now left).
  assert (Hl' : incl l xs) by (intros w Hw; apply Hl; now right).
  change (negative_result (cmp current previous))
    with (lessC cmp current previous).
  destruct (lessC cmp current previous) eqn:Horder; cbn [negb];
    [| repeat constructor].
  specialize (IH current Hc Hl').
  pose proof (proj1 (@continueRun_incl true current l Hl')) as Hrun.
  destruct (continueRun cmp true current l) as [run rest].
  cbn [fst] in *.
  constructor; [assumption |].
  constructor; [assumption |].
  apply StronglySorted_inv in IH. destruct IH as [_ Hall].
  rewrite Forall_forall in *. intros e He.
  destruct (consistent_inv _ _ _ (Hrun e He) Hc Hp)
    as [_ [_ [_ [_ [Htrans _]]]]].
  apply Htrans; [now apply Hall | assumption].
Qed.

Lemma StronglySorted_rev (R : A -> A -> Prop) (l : list A) :
  StronglySorted R l -> StronglySorted (fun x y => R y x) (rev l).
Proof.
  induction 1 as [| x l Hs IH Hall]; [constructor |].
  cbn [rev]. apply StronglySorted_insert_middle.
  - now rewrite app_nil_r.
  - rewrite Forall_forall in *. intros e He. apply Hall.
    now apply in_rev.
  - constructor.
Qed.

Lemma StronglySorted_weaken (R R' : A -> A -> Prop) (l : list A) :
  (forall x y, In x l -> In y l -> R x y -> R' x y) ->
  StronglySorted R l -> StronglySorted R' l.
Proof.
  intros HR Hs. induction Hs as [| x l Hs IH Hall]; [constructor |].
  constructor.
  - apply IH. intros a b Ha Hb. apply HR; now right.
  - rewrite Forall_forall in *. intros e He.
    apply HR; [now left | now right | now apply Hall].
Qed.

(** A run that descends holds at most one element of each class. *)
Lemma descending_class (z : A) (l : list A) :
  In z xs -> incl l xs ->
  StronglySorted (fun x y => lessC cmp y x = true) l ->
  rev (List.filter (equalC cmp z) l) = List.filter (equalC cmp z) l.
Proof.
  intros Hz Hl Hs.
  assert (Hone : List.length (List.filter (equalC cmp z) l) <= 1).
  { induction Hs as [| x l Hs IH Hall]; [simpl; lia |].
    assert (Hx : In x xs) by (apply Hl; now left).
    assert (Hl' : incl l xs) by (intros w Hw; apply Hl; now right).
    cbn [List.filter]. destruct (equalC cmp z x) eqn:Hzx;
      [| now apply IH].
    assert (Hnone : List.filter (equalC cmp z) l = []).
    { rewrite Forall_forall in Hall. clear IH Hs.
      induction l as [| e l IHl]; [reflexivity |].
      cbn [List.filter].
      assert (He : In e xs) by (apply Hl'; now left).
      destruct (equalC cmp z e) eqn:Hze.
      - pose proof (@equalC_lessC z e x Hz He Hx Hze
                      (Hall e (or_introl eq_refl))).
        congruence.
      - apply IHl.
        + intros w Hw. apply Hl. destruct Hw as [<- | Hw];
            [now left | right; now right].
        + intros w Hw. apply Hall. now right.
        + intros w Hw. apply Hl'. now right. }
    rewrite Hnone. simpl. lia. }
  destruct (List.filter (equalC cmp z) l) as [| e [| e' l']];
    [reflexivity | reflexivity | simpl in Hone; lia].
Qed.

Lemma binaryInsertionSort_sorted_stable (l : list A) :
  incl l xs ->
  StronglySorted (notAfter cmp) (binaryInsertionSort cmp l) /\
  incl (binaryInsertionSort cmp l) xs /\
  forall z, In z xs ->
    List.filter (equalC cmp z) (binaryInsertionSort cmp l) =
    List.filter (equalC cmp z) l.
Proof.
  intros Hl. destruct l as [| first [| second l']].
  - cbn [binaryInsertionSort]. repeat split; [constructor | assumption].
  - cbn [binaryInsertionSort].
    repeat split; [repeat constructor | assumption].
  - assert (Hf : In first xs) by (apply Hl; now left).
    assert (Hs : In second xs) by (apply Hl; right; now left).
    assert (Hl' : incl l' xs)
      by (intros w Hw; apply Hl; right; now right).
    cbn [binaryInsertionSort].
    pose proof (continueRun_app (negative_result (cmp second first)) l'
                                second) as Happ.
    destruct (@continueRun_incl (negative_result (cmp second first))
                second l' Hl') as [Hrun Hrest].
    pose proof (@ascending_run (second :: l') first Hf
                  (fun w Hw => Hl w (or_intror Hw))) as Hasc.
    pose proof (@descending_run (second :: l') first Hf
                  (fun w Hw => Hl w (or_intror Hw))) as Hdesc.
    cbn [continueRun] in Hasc, Hdesc.
    destruct (negative_result (cmp second first)) eqn:Horder;
      cbn [negb] in Hasc, Hdesc;
      destruct (continueRun cmp _ second l') as [run rest];
      cbn [fst snd] in *.
    + (* a run that descends, reversed *)
      clear Hasc.
      assert (Hincl : incl (first :: second :: run) xs).
      { intros w [<- | [<- | Hw]]; auto. }
      assert (Hsorted : StronglySorted (notAfter cmp)
                          (rev (first :: second :: run))).
      { apply StronglySorted_weaken
          with (R := fun x y => lessC cmp x y = true).
        - intros x y Hx Hy. apply lessC_notAfter;
            apply Hincl; now apply in_rev.
        - apply (StronglySorted_rev Hdesc). }
      destruct (@fold_binaryInsert rest (rev (first :: second :: run)))
        as [Hs' [Hincl' Hclass]]; try assumption.
      { intros w Hw. apply Hincl. now apply in_rev. }
      split; [assumption |]. split; [assumption |].
      intros z Hz. rewrite (Hclass z Hz), filter_app, filter_rev.
      rewrite (@descending_class z (first :: second :: run) Hz Hincl Hdesc).
      rewrite <- filter_app, <- Happ. reflexivity.
    + clear Hdesc.
      assert (Hincl : incl (first :: second :: run) xs).
      { intros w [<- | [<- | Hw]]; auto. }
      destruct (@fold_binaryInsert rest (first :: second :: run))
        as [Hs' [Hincl' Hclass]]; try assumption.
      split; [assumption |]. split; [assumption |].
      intros z Hz. rewrite (Hclass z Hz), <- Happ. reflexivity.
Qed.

End Consistent.

(** For a consistent comparator [insertionSort] is the sorted array of
    the standard: no element is followed by one that goes before it, and
    the elements the comparator holds equal stand in the order they
    had. *)
Lemma insertionSort_sorted (l : list A) :
  consistent cmp l = true ->
  StronglySorted (notAfter cmp) (insertionSort cmp l) /\
  forall z, In z l ->
            List.filter (equalC cmp z) (insertionSort cmp l) =
            List.filter (equalC cmp z) l.
Proof.
  intros Hl. split.
  - eapply insertionSort_StronglySorted_incl; [exact Hl | apply incl_refl].
  - intros z Hz.
    eapply insertionSort_stable_incl; [exact Hl | exact Hz | apply incl_refl].
Qed.

(** On a consistent comparator binary insertion gives the same array. *)
Lemma binaryInsertionSort_consistent (l : list A) :
  consistent cmp l = true ->
  binaryInsertionSort cmp l = insertionSort cmp l.
Proof.
  intros Hl.
  destruct (@binaryInsertionSort_sorted_stable l Hl l (incl_refl l))
    as [Hsorted [Hincl Hclass]].
  apply (@sorted_stable_unique l Hl); try assumption.
  - intros w Hw.
    now apply (Permutation_in _ (insertionSort_Permutation l)).
  - eapply insertionSort_StronglySorted_incl; [exact Hl | apply incl_refl].
  - intros z Hz. rewrite (Hclass z Hz). symmetry.
    eapply insertionSort_stable_incl; [exact Hl | exact Hz | apply incl_refl].
Qed.

(** So the engine [binaryInsertionEngine] sorts by binary insertion,
    whatever the comparator. *)
Lemma binaryInsertionEngine_sort (l : list A) :
  sort binaryInsertionEngine cmp l = binaryInsertionSort cmp l.
Proof.
  cbn [sort binaryInsertionEngine].
  destruct (consistent cmp l) eqn:Hl; [| reflexivity].
  symmetry. now apply binaryInsertionSort_consistent.
Qed.

End SortFacts.

(** ** Result reconciliation *)

Section Reconciliation.

Variable validKeys : list string.

Lemma includesKey_In (key : string) :
  includesKey validKeys key = true <-> In key validKeys.
Proof.
  unfold includesKey. rewrite existsb_exists. split.
  - intros [k [Hin Heq]]. apply String.eqb_eq in Heq. now subst.
  - intros Hin. exists key. split; [assumption | apply String.eqb_refl].
Qed.

Lemma includesKey_not_In (key : string) :
  includesKey validKeys key = false <-> ~ In key validKeys.
Proof.
  rewrite <- includesKey_In. destruct (includesKey validKeys key); split;
    congruence.
Qed.

Lemma findKey_exact (key : string) :
  In key validKeys -> findKey validKeys key = key.
Proof.
  intros Hin. unfold findKey. destruct (isEmpty key); [reflexivity |].
  now rewrite (proj2 (includesKey_In key) Hin).
Qed.

Lemma findKey_case_insensitive (key k : string) (before after : list string) :
  ~ In key validKeys ->
  validKeys = (before ++ k :: after)%list ->
  toLowerCase k = toLowerCase key ->
  (forall k', In k' before -> toLowerCase k' <> toLowerCase key) ->
  findKey validKeys key = k.
Proof.
  intros Hnot Hsplit Hk Hbefore.
  assert (Hkin : In k validKeys)
    by (rewrite Hsplit; apply in_or_app; right; now left).
  assert (Hkey : key <> EmptyString).
  { intros ->. simpl in Hk. apply JSFacts.toLowerCase_empty in Hk.
    subst k. contradiction. }
  assert (Hkne : k <> EmptyString).
  { intros ->. simpl in Hk. symmetry in Hk.
    apply JSFacts.toLowerCase_empty in Hk. contradiction. }
  unfold findKey.
  rewrite (proj2 (JSFacts.isEmpty_false key) Hkey).
  rewrite (proj2 (includesKey_not_In key) Hnot).
  rewrite Hsplit, find_first.
  - now rewrite (proj2 (JSFacts.isEmpty_false k) Hkne).
  - intros y Hy. apply String.eqb_neq. now apply Hbefore.
  - now apply String.eqb_eq.
Qed.

Lemma findKey_unresolved (key : string) :
  (forall k, In k validKeys -> toLowerCase k <> toLowerCase key) ->
  findKey validKeys key = key.
Proof.
  intros Hno. unfold findKey. destruct (isEmpty key); [reflexivity |].
  destruct (includesKey validKeys key); [reflexivity |].
  rewrite find_absent; [reflexivity |].
  intros y Hy. apply String.eqb_neq. now apply Hno.
Qed.

End Reconciliation.

(** C1, as the specification states it, fails: the name [Region ] with a
    trailing space is not matched with the column [region], since names are
    compared after [toLowerCase] only and nothing trims them; the name stays
    as it was and its chart is dropped. *)
Lemma trailing_space_is_not_reconciled :
  findKey (keys (hd [] (data Samples.salesData))) "Region " <> "region" /\
  findKey (keys (hd [] (data Samples.salesData))) "Region " = "Region " /\
  recommendedCharts
    (sanitizeAnalysisResult
       (Samples.proposal [Samples.chart "Region " "sales" None])
       Samples.salesData) = [].
Proof.
  split; [vm_compute; discriminate | split; reflexivity].
Qed.

(** C1 (amended): against the column names of the first row, [findKey]
    keeps a name that is a column name, replaces another by the first column
    name equal to it after [toLowerCase], and keeps it when there is none (a
    name that differs from a column by white space is such a name);
    [sanitizeAnalysisResult] resolves [xKey], [yKey] and a present
    [categoryKey] of every chart this way and keeps, in order, exactly the
    charts whose resolved [xKey] and [yKey] are column names, whatever the
    [categoryKey]; [Region] against the column [region] resolves to
    [region]. *)
Theorem sanitizeAnalysisResult_reconciles
    (result : AnalysisResult) (dataset : Dataset)
    (row0 : object) (rest : list object) :
  data dataset = row0 :: rest ->
  let validKeys := keys row0 in
  (forall key, In key validKeys -> findKey validKeys key = key) /\
  (forall key k before after,
      ~ In key validKeys ->
      validKeys = (before ++ k :: after)%list ->
      toLowerCase k = toLowerCase key ->
      (forall k', In k' before -> toLowerCase k' <> toLowerCase key) ->
      findKey validKeys key = k) /\
  (forall key,
      (forall k, In k validKeys -> toLowerCase k <> toLowerCase key) ->
      findKey validKeys key = key) /\
  (forall chart,
      xKey (sanitizeChart validKeys chart) = findKey validKeys (xKey chart) /\
      yKey (sanitizeChart validKeys chart) = findKey validKeys (yKey chart) /\
      categoryKey (sanitizeChart validKeys chart) =
        option_map (findKey validKeys) (truthy (categoryKey chart))) /\
  recommendedCharts (sanitizeAnalysisResult result dataset) =
    List.filter (fun chart => includesKey validKeys (xKey chart)
                              && includesKey validKeys (yKey chart))
                (map (sanitizeChart validKeys) (recommendedCharts result)) /\
  (forall chart',
      In chart' (recommendedCharts (sanitizeAnalysisResult result dataset)) <->
      exists chart,
        In chart (recommendedCharts result) /\
        chart' = sanitizeChart validKeys chart /\
        In (findKey validKeys (xKey chart)) validKeys /\
        In (findKey validKeys (yKey chart)) validKeys) /\
  findKey ["region"] "Region" = "region".
Proof.
  intros Hdata validKeys.
  assert (Hout : recommendedCharts (sanitizeAnalysisResult result dataset) =
    List.filter (fun chart => includesKey validKeys (xKey chart)
                              && includesKey validKeys (yKey chart))
                (map (sanitizeChart validKeys) (recommendedCharts result))).
  { unfold sanitizeAnalysisResult. rewrite Hdata. reflexivity. }
  split; [| split; [| split; [| split; [| split; [| split]]]]].
  - apply findKey_exact.
  - intros key k before after. apply findKey_case_insensitive.
  - apply findKey_unresolved.
  - intros chart. unfold sanitizeChart, option_map; simpl. repeat split.
  - exact Hout.
  - intros chart'. rewrite Hout, filter_In, in_map_iff, andb_true_iff.
    rewrite !includesKey_In. split.
    + intros [[chart [Heq Hin]] [Hx Hy]]. exists chart. subst chart'.
      now repeat split.
    + intros [chart [Hin [Heq [Hx Hy]]]]. subst chart'.
      repeat split; try assumption. now exists chart.
  - reflexivity.
Qed.

Lemma sanitizeAnalysisResult_reconciles_witness :
  data Samples.salesData = hd [] (data Samples.salesData) :: [] /\
  recommendedCharts
    (sanitizeAnalysisResult
       (Samples.proposal [Samples.chart "Region" "SALES" (Some "Month")])
       Samples.salesData)
  = [Samples.chart "region" "sales" (Some "Month")].
Proof.
  split; [reflexivity |].
  destruct (sanitizeAnalysisResult_reconciles
              (Samples.proposal [Samples.chart "Region" "SALES" (Some "Month")])
              Samples.salesData (rest := []) eq_refl)
    as [_ [_ [_ [_ [Hout _]]]]].
  rewrite Hout. reflexivity.
Defined.

(** ** Tabular ingestion *)

Lemma own_Put_other (o : object) (k k' : string) (v : JS.value) :
  k <> k' -> own (Put o k v) k' = own o k'.
Proof.
  intros Hne. unfold Put.
  destruct (own o k); [| destruct (String.eqb k "__proto__")];
    try reflexivity;
    rewrite own_defineOwn;
    now rewrite (proj2 (String.eqb_neq k k') Hne).
Qed.

Lemma own_Put_same (o : object) (k : string) (v : JS.value) :
  k <> "__proto__" -> own (Put o k v) k = Some v.
Proof.
  intros Hne. unfold Put.
  rewrite (proj2 (String.eqb_neq _ _) Hne).
  destruct (own o k); rewrite own_defineOwn; now rewrite String.eqb_refl.
Qed.

Section BuildRow.

Lemma own_fold_other (l : list (string * string)) (k : string) :
  forall o, ~ In k (map fst l) -> own (fold_left putCell l o) k = own o k.
Proof.
  induction l as [| [h f] l IH]; intros o Hnot; simpl; [reflexivity |].
  rewrite IH by (intros Hin; apply Hnot; now right).
  unfold putCell; simpl.
  apply own_Put_other. intros ->. apply Hnot. now left.
Qed.


End BuildRow.


Lemma parseRows_accepted (headers lines : list string) :
  parseRows headers lines =
  map (fun line => buildRow headers (split commaChar line))
      (List.filter (fun line => Nat.eqb (List.length (split commaChar line))
                                        (List.length headers))
                   lines).
Proof.
  unfold parseRows. induction lines as [| line lines IH]; simpl;
    [reflexivity |].
  rewrite IH.
  now destruct (Nat.eqb (List.length (split commaChar line))
                        (List.length headers)).
Qed.

(** A text with no line that is not blank is the only one refused. *)
Lemma parseCSV_empty (uuid csvText fileName : string) :
  nonBlankLines csvText = [] <->
  parseCSV uuid csvText fileName = Throw (Error "File is empty").
Proof.
  unfold parseCSV. destruct (nonBlankLines csvText); split; try discriminate;
    reflexivity.
Qed.

(** C6: for a text with a header line, [parseCSV] returns a dataset whose
    [rowCount] is the number N of accepted lines (the lines after the
    header with as many fields as the header) and whose rows are those of
    the first 3000 accepted lines: N rows when N <= 3000, and 3000 rows
    when N > 3000. *)
Theorem parseCSV_row_counts
    (uuid csvText fileName headerLine : string) (rest : list string) :
  nonBlankLines csvText = headerLine :: rest ->
  let headers := parseHeaders headerLine in
  let accepted :=
    List.filter (fun line => Nat.eqb (List.length (split commaChar line))
                                     (List.length headers)) rest in
  let N := List.length accepted in
  exists dataset,
    parseCSV uuid csvText fileName = Normal dataset /\
    rowCount dataset = N /\
    data dataset =
      map (fun line => buildRow headers (split commaChar line))
          (firstn 3000 accepted) /\
    (N <= 3000 -> List.length (data dataset) = N) /\
    (3000 < N -> List.length (data dataset) = 3000).
Proof.
  intros Hlines headers accepted N.
  unfold parseCSV. rewrite Hlines. eexists. split; [reflexivity |].
  cbn [rowCount data]. fold headers.
  rewrite (parseRows_accepted headers rest). fold accepted.
  rewrite length_map. fold N.
  split; [reflexivity | split; [now rewrite firstn_map | split]];
    intros HN; rewrite length_firstn, length_map; fold N; lia.
Qed.

Lemma parseCSV_row_counts_witness :
  exists dataset,
    parseCSV "id-1" Samples.smallCsv "small.csv" = Normal dataset /\
    rowCount dataset = 2 /\ List.length (data dataset) = 2.
Proof.
  destruct (parseCSV_row_counts "id-1" Samples.smallCsv "small.csv"
              (headerLine := "name,qty")
              (rest := [ "pen," ++ String quoteChar ("42" ++ String quoteChar EmptyString);
                         "ink," ++ String quoteChar ("42abc" ++ String quoteChar EmptyString) ])
              eq_refl)
    as [dataset [Hparse [Hcount [_ [Hsmall _]]]]].
  exists dataset. split; [exact Hparse | split; [exact Hcount |]].
  apply Hsmall. vm_compute. lia.
Defined.

(** A file of 3001 accepted lines: 3000 rows are kept, 3001 are counted. *)
Lemma truncation_example :
  exists dataset,
    parseCSV "id-2" Samples.longCsv "long.csv" = Normal dataset /\
    rowCount dataset = 3001 /\ List.length (data dataset) = 3000.
Proof.
  eexists. split; [vm_compute; reflexivity |].
  split; vm_compute; reflexivity.
Qed.

Lemma parseCSV_rows_built
    (uuid csvText fileName headerLine : string) (rest : list string)
    (dataset : Dataset) (row : object) :
  nonBlankLines csvText = headerLine :: rest ->
  parseCSV uuid csvText fileName = Normal dataset ->
  In row (data dataset) ->
  exists line,
    In line rest /\
    List.length (split commaChar line) = List.length (parseHeaders headerLine) /\
    row = buildRow (parseHeaders headerLine) (split commaChar line).
Proof.
  intros Hlines Hparse Hrow.
  unfold parseCSV in Hparse. rewrite Hlines in Hparse.
  apply Normal_inj in Hparse. subst dataset. cbn [data] in Hrow.
  apply In_firstn in Hrow.
  rewrite parseRows_accepted, in_map_iff in Hrow.
  destruct Hrow as [line [Hrow Hline]].
  apply filter_In in Hline. destruct Hline as [Hline Hlen].
  exists line. split; [assumption | split; [| now symmetry]].
  now apply Nat.eqb_eq.
Qed.



(** ** Correlation engine *)

Section Correlation.

Variable data : list object.
Variable columns : list string.

Lemma variables_numericColumns :
  variables (calculateCorrelations data columns) = numericColumns data columns.
Proof. reflexivity. Qed.


Lemma matrix_length :
  List.length (matrix (calculateCorrelations data columns)) =
  List.length (numericColumns data columns).
Proof. simpl. now rewrite length_map, length_seq. Qed.

Lemma matrix_rows_length (row : list number) :
  In row (matrix (calculateCorrelations data columns)) ->
  List.length row = List.length (numericColumns data columns).
Proof.
  simpl. rewrite in_map_iff. intros [i [<- _]].
  now rewrite length_map, length_seq.
Qed.

(** The entry of the matrix at row [i] and column [j]. *)
Lemma matrix_entry (i j : nat) (d : number) :
  i < List.length (numericColumns data columns) ->
  j < List.length (numericColumns data columns) ->
  nth j (nth i (matrix (calculateCorrelations data columns)) []) d =
  if Nat.eqb i j then one
  else calculatePearson
         (map (fun r => Get r (nth i (numericColumns data columns) EmptyString)) data)
         (map (fun r => Get r (nth j (numericColumns data columns) EmptyString)) data).
Proof.
  intros Hi Hj. simpl.
  rewrite (nth_map_seq _ _ Hi). now rewrite (nth_map_seq _ _ Hj).
Qed.

End Correlation.

Lemma sumProducts_comm (x y : list JS.value) :
  forall a, List.length x = List.length y ->
            sumProducts a x y = sumProducts a y x.
Proof.
  revert y. induction x as [| b x IH]; intros [| c y] a Hlen;
    try discriminate; [reflexivity |].
  simpl. rewrite (JSFacts.times_comm b c). apply IH.
  simpl in Hlen. congruence.
Qed.

Lemma pearsonNumerator_comm (x y : list JS.value) :
  List.length x = List.length y ->
  pearsonNumerator x y = pearsonNumerator y x.
Proof.
  intros Hlen. unfold pearsonNumerator.
  rewrite (sumProducts_comm x y _ Hlen), Hlen. f_equal.
  apply JSFacts.times_comm.
Qed.

Lemma pearsonDenominator_comm (x y : list JS.value) :
  List.length x = List.length y ->
  pearsonDenominator x y = pearsonDenominator y x.
Proof.
  intros Hlen. unfold pearsonDenominator. rewrite Hlen. f_equal.
  apply JSFacts.mul_comm.
Qed.

Lemma calculatePearson_comm (x y : list JS.value) :
  List.length x = List.length y ->
  calculatePearson x y = calculatePearson y x.
Proof.
  intros Hlen. unfold calculatePearson.
  now rewrite (pearsonNumerator_comm _ _ Hlen),
              (pearsonDenominator_comm _ _ Hlen), Hlen.
Qed.

(** *** On columns of numbers the program computes the formula of the
    specification *)

Lemma fold_plus_numbers (xs : list number) :
  forall acc,
    fold_left plus (map VNumber xs) (VNumber acc) =
    VNumber (fold_left add xs acc).
Proof.
  induction xs as [| x xs IH]; intros acc; simpl; [reflexivity | apply IH].
Qed.

Lemma fold_squares_numbers (xs : list number) :
  forall acc,
    fold_left (fun a b => plus a (VNumber (times b b))) (map VNumber xs)
              (VNumber acc) =
    VNumber (fold_left add (map (fun x => mul x x) xs) acc).
Proof.
  induction xs as [| x xs IH]; intros acc; simpl; [reflexivity | apply IH].
Qed.

Lemma sumProducts_numbers (xs : list number) :
  forall ys acc,
    List.length xs = List.length ys ->
    sumProducts (VNumber acc) (map VNumber xs) (map VNumber ys) =
    VNumber (fold_left add
               (map (fun p => mul (fst p) (snd p)) (combine xs ys)) acc).
Proof.
  induction xs as [| x xs IH]; intros [| y ys] acc Hlen;
    try discriminate; [reflexivity |].
  simpl. apply IH. simpl in Hlen. congruence.
Qed.

Lemma calculatePearson_numbers (xs ys : list number) :
  List.length xs = List.length ys -> xs <> [] ->
  calculatePearson (map VNumber xs) (map VNumber ys) = spec_coefficient xs ys.
Proof.
  intros Hlen Hne.
  assert (Hnum : pearsonNumerator (map VNumber xs) (map VNumber ys) =
                 spec_numerator xs ys).
  { unfold pearsonNumerator, spec_numerator, spec_sum.
    rewrite !fold_plus_numbers, (sumProducts_numbers xs ys zero Hlen).
    now rewrite length_map. }
  assert (Hden : pearsonDenominator (map VNumber xs) (map VNumber ys) =
                 spec_denominator xs ys).
  { unfold pearsonDenominator, spec_denominator, spec_sum.
    rewrite !fold_plus_numbers, !fold_squares_numbers.
    now rewrite length_map. }
  unfold calculatePearson, spec_coefficient. rewrite Hnum, Hden.
  destruct xs as [| x xs]; [contradiction | reflexivity].
Qed.

Lemma values_numbers (col : string) (data : list object) :
  (forall row, In row data -> typeofNumber (Get row col) = true) ->
  map (fun row => Get row col) data = map VNumber (numbersOf col data).
Proof.
  intros Hnum. unfold numbersOf. rewrite map_map. apply map_ext_in.
  intros row Hrow. specialize (Hnum row Hrow).
  now destruct (Get row col).
Qed.

(** C2, as the specification states it, fails: with one numeric column, and
    with none, [calculateCorrelations] returns a matrix like any other, 1x1
    and 0x0; its result type has no other case. *)
Lemma engine_returns_small_matrices :
  List.length (numericColumns (data Samples.salesData) ["sales"; "region"]) < 2 /\
  calculateCorrelations (data Samples.salesData) ["sales"; "region"] =
    {| variables := ["sales"]; matrix := [[one]] |} /\
  calculateCorrelations (data Samples.salesData) ["region"] =
    {| variables := []; matrix := [] |}.
Proof. split; [vm_compute; lia | split; reflexivity]. Qed.

(** C2 (amended): when fewer than two columns are confirmed numeric,
    [calculateCorrelations] returns the 0x0 matrix, or the 1x1 matrix whose
    entry is 1, over the confirmed columns; the condition is detected by its
    caller, the [CorrelationHeatmap] component, which then shows the message
    [Not enough numeric data for correlations] in place of the grid. *)
Theorem insufficient_data_is_reported_by_the_caller
    (data : list object) (columns : list string) :
  List.length (numericColumns data columns) < 2 ->
  let result := calculateCorrelations data columns in
  variables result = numericColumns data columns /\
  ((variables result = [] /\ matrix result = []) \/
   (exists col, variables result = [col] /\ matrix result = [[one]])) /\
  (forall profiles,
      map name (List.filter (fun c => isNumericType (type c)) profiles)
        = columns ->
      CorrelationHeatmap data profiles =
        Message "Not enough numeric data for correlations").
Proof.
  intros Hlen result. split; [reflexivity | split].
  - subst result. unfold calculateCorrelations.
    destruct (numericColumns data columns) as [| col [| col' cols]].
    + left. split; reflexivity.
    + right. exists col. split; reflexivity.
    + simpl in Hlen. lia.
  - intros profiles Hcols. unfold CorrelationHeatmap. rewrite Hcols.
    rewrite variables_numericColumns.
    now rewrite (proj2 (Nat.ltb_lt _ _) Hlen).
Qed.

Lemma insufficient_data_is_reported_by_the_caller_witness :
  List.length (numericColumns (data Samples.salesData) ["sales"; "region"]) < 2
  /\ CorrelationHeatmap (data Samples.salesData)
       [ {| name := "sales"; type := numeric; missingCount := zero;
            uniqueCount := one; exampleValues := ["10"] |};
         {| name := "region"; type := numeric; missingCount := zero;
            uniqueCount := one; exampleValues := ["north"] |} ]
     = Message "Not enough numeric data for correlations".
Proof.
  assert (H : List.length
                (numericColumns (data Samples.salesData) ["sales"; "region"]) < 2)
    by (vm_compute; lia).
  split; [exact H |].
  apply (insufficient_data_is_reported_by_the_caller
           (data Samples.salesData) ["sales"; "region"] H).
  reflexivity.
Defined.

(** What does hold of the matrix of [calculateCorrelations]: it is square
    over the confirmed numeric columns; its diagonal is 1; an entry and its
    mirror entry are the same Number value (which, when that value is NaN,
    does not make them [===]); an entry off the diagonal is
    [calculatePearson] of the two columns over all the rows, which is 0
    when the denominator the program computes is zero and otherwise the
    quotient rounded to two decimals by [toFixed(2)]; and when the two
    columns hold a number in every row, that entry is the coefficient the
    specification defines by its formula, computed in binary64. *)
Theorem correlation_matrix_is_square_and_symmetric
    (data : list object) (columns : list string) :
  let result := calculateCorrelations data columns in
  let n := List.length (variables result) in
  let entry i j := nth j (nth i (matrix result) []) NaN in
  let column i := nth i (variables result) EmptyString in
  let values i := map (fun row => Get row (column i)) data in
  List.length (matrix result) = n /\
  (forall row, In row (matrix result) -> List.length row = n) /\
  (forall i j, i < n -> j < n ->
     entry i i = one /\
     entry i j = entry j i /\
     (i <> j ->
        entry i j = calculatePearson (values i) (values j) /\
        (strictEq (pearsonDenominator (values i) (values j)) zero = true ->
           entry i j = zero) /\
        (data <> [] ->
         strictEq (pearsonDenominator (values i) (values j)) zero = false ->
           entry i j =
             StringToNumber
               (toFixed2 (div (pearsonNumerator (values i) (values j))
                              (pearsonDenominator (values i) (values j))))) /\
        (data <> [] ->
         (forall row, In row data ->
                      typeofNumber (Get row (column i)) = true /\
                      typeofNumber (Get row (column j)) = true) ->
           entry i j = spec_coefficient (numbersOf (column i) data)
                                        (numbersOf (column j) data)))).
Proof.
  intros result n entry column values.
  split; [apply matrix_length | split; [apply matrix_rows_length |]].
  intros i j Hi Hj.
  assert (Hentry : forall a b, a < n -> b < n ->
            entry a b = if Nat.eqb a b then one
                        else calculatePearson (values a) (values b)).
  { intros a b Ha Hb. apply matrix_entry; assumption. }
  split; [| split].
  - rewrite (Hentry i i Hi Hi). now rewrite Nat.eqb_refl.
  - rewrite (Hentry i j Hi Hj), (Hentry j i Hj Hi).
    rewrite (Nat.eqb_sym j i). destruct (Nat.eqb i j); [reflexivity |].
    apply calculatePearson_comm. unfold values. now rewrite !length_map.
  - intros Hij. rewrite (Hentry i j Hi Hj).
    rewrite (proj2 (Nat.eqb_neq i j) Hij).
    split; [reflexivity | split; [| split]].
    + intros Hden. unfold calculatePearson. rewrite Hden.
      now destruct (Nat.eqb _ 0).
    + intros Hdata Hden. unfold calculatePearson. rewrite Hden.
      destruct data as [| row rows]; [contradiction | reflexivity].
    + intros Hdata Hnum. unfold values.
      rewrite (values_numbers (column i) data)
        by (intros row Hrow; apply (Hnum row Hrow)).
      rewrite (values_numbers (column j) data)
        by (intros row Hrow; apply (Hnum row Hrow)).
      apply calculatePearson_numbers.
      * unfold numbersOf. now rewrite !length_map.
      * unfold numbersOf. destruct data; [contradiction | discriminate].
Qed.

Lemma correlation_matrix_is_square_and_symmetric_witness :
  let result := calculateCorrelations Samples.trend ["a"; "b"; "c"; "label"] in
  variables result = ["a"; "b"; "c"] /\
  nth 1 (nth 0 (matrix result) []) NaN = nth 0 (nth 1 (matrix result) []) NaN.
Proof.
  intros result. split; [reflexivity |].
  destruct (correlation_matrix_is_square_and_symmetric
              Samples.trend ["a"; "b"; "c"; "label"]) as [_ [_ H]].
  destruct (H 0 1) as [_ [Hsym _]];
    [vm_compute; lia | vm_compute; lia | exact Hsym].
Defined.

(** The examples of the specification: a column against its double gives 1,
    a column against a constant one gives 0. *)
Lemma correlation_examples :
  matrix (calculateCorrelations Samples.trend ["a"; "b"; "c"]) =
    [ [one; one; zero]; [one; one; zero]; [zero; zero; one] ].
Proof. vm_compute. reflexivity. Qed.

(** The entries are rounded: for the columns 1, 2, 3 and 1, 2, 4 the
    quotient is 0.98198... and the entry is 0.98. *)
Lemma rounding_example :
  let x := map Samples.num [1; 2; 3]%Z in
  let y := map Samples.num [1; 2; 4]%Z in
  calculatePearson x y = ofDecimal false 98 (-2) /\
  toFixed2 (div (pearsonNumerator x y) (pearsonDenominator x y)) = "0.98" /\
  strictEq (div (pearsonNumerator x y) (pearsonDenominator x y))
           (ofDecimal false 98 (-2)) = false.
Proof. repeat split; vm_compute; reflexivity. Qed.

(** C8 fails on the code.  A file with a column that is 0.7 in each of its
    five rows is parsed to rows that hold the number 0.7 there; the
    column is confirmed numeric; the rounding of the sums makes the
    radicand of the denominator negative, so that the denominator is NaN,
    which is not [=== 0]; the entry of the constant column against the
    other one is NaN: it is not 0, and it is not [===] to its mirror
    entry. *)
Theorem constant_column_correlation_is_NaN :
  exists dataset,
    parseCSV "id-3" Samples.constantCsv "constant.csv" = Normal dataset /\
    data dataset = Samples.constantRows /\
    (forall row, In row (data dataset) ->
                 Get row "c" = VNumber (ofDecimal false 7 (-1))) /\
    let result := calculateCorrelations (data dataset) ["c"; "i"] in
    let entry i j := nth j (nth i (matrix result) []) zero in
    let values col := map (fun row => Get row col) (data dataset) in
    variables result = ["c"; "i"] /\
    pearsonDenominator (values "c") (values "i") = NaN /\
    strictEq (pearsonDenominator (values "c") (values "i")) zero = false /\
    entry 0 1 = NaN /\
    entry 1 0 = NaN /\
    strictEq (entry 0 1) zero = false /\
    strictEq (entry 0 1) (entry 1 0) = false.
Proof.
  eexists. split; [vm_compute; reflexivity |].
  cbn [data]. split; [vm_compute; reflexivity |].
  split.
  - intros row Hrow. vm_compute in Hrow.
    destruct Hrow as [<- | [<- | [<- | [<- | [<- | []]]]]]; reflexivity.
  - repeat split; vm_compute; reflexivity.
Qed.

(** Two limits of the computation.  The rounding of the sums can make the
    radicand of a constant column negative, and the coefficient is then NaN
    instead of 0.  A column is confirmed on its first 50 rows only: a blank
    cell after them turns the running sum into a string ([1275 + ''] is
    ['1275'], then ['1275' + 52] is ['127552']), and the coefficient is NaN
    as well. *)
Lemma correlation_limits :
  matrix (calculateCorrelations Samples.constantRows ["c"; "i"]) =
    [ [one; NaN]; [NaN; one] ] /\
  variables (calculateCorrelations Samples.blankLateRows ["n"; "i"]) =
    ["n"; "i"] /\
  fold_left plus (map (fun row => Get row "n") Samples.blankLateRows)
            (VNumber zero) = VString "127552" /\
  matrix (calculateCorrelations Samples.blankLateRows ["n"; "i"]) =
    [ [one; NaN]; [NaN; one] ].
Proof. repeat split; vm_compute; reflexivity. Qed.


(** C10: for no rows at all every candidate column is confirmed numeric;
    the matrix has 1 on its diagonal and 0 everywhere else. *)
Theorem no_rows_confirm_every_column (columns : list string) :
  let result := calculateCorrelations [] columns in
  variables result = columns /\
  List.length (matrix result) = List.length columns /\
  forall i j, i < List.length columns -> j < List.length columns ->
    nth j (nth i (matrix result) []) NaN = if Nat.eqb i j then one else zero.
Proof.
  intros result.
  assert (Hvars : numericColumns [] columns = columns).
  { unfold numericColumns. simpl.
    induction columns as [| c cs IH]; simpl; [reflexivity | now rewrite IH]. }
  split; [exact Hvars | split].
  - subst result. now rewrite matrix_length, Hvars.
  - intros i j Hi Hj. subst result.
    rewrite matrix_entry by (rewrite Hvars; assumption).
    reflexivity.
Qed.

Lemma no_rows_confirm_every_column_witness :
  0 < List.length ["region"; "sales"] /\ 1 < List.length ["region"; "sales"] /\
  nth 1 (nth 0 (matrix (calculateCorrelations [] ["region"; "sales"])) []) NaN
    = zero.
Proof.
  assert (H0 : 0 < List.length ["region"; "sales"]) by (simpl; lia).
  assert (H1 : 1 < List.length ["region"; "sales"]) by (simpl; lia).
  split; [exact H0 | split; [exact H1 |]].
  destruct (no_rows_confirm_every_column ["region"; "sales"]) as [_ [_ H]].
  exact (H 0 1 H0 H1).
Defined.

(** ** Query engine *)

Lemma filterRows_filter (data : list object) (intent : QueryIntent)
    (fs : list QueryFilter) :
  filters intent = Some fs ->
  filterRows data intent =
  List.filter (fun row => forallb (evalFilter row) fs) data.
Proof.
  intros Hfs. unfold filterRows. rewrite Hfs.
  destruct fs as [| f fs]; simpl; [now rewrite filter_all | reflexivity].
Qed.

Lemma evalFilter_equals (row : object) (f : QueryFilter) :
  operator f = "==" ->
  (evalFilter row f = true <->
   toLowerCase (ToString (Get row (column f))) =
   toLowerCase (ToString (value f))).
Proof.
  intros Hop. unfold evalFilter. rewrite Hop. simpl. apply String.eqb_eq.
Qed.

Lemma evalFilter_unknown_operator (row : object) (f : QueryFilter) :
  ~ In (operator f) ["=="; ">"; "<"; ">="; "<="; "contains"] ->
  evalFilter row f = true.
Proof.
  intros Hop. unfold evalFilter.
  repeat match goal with
  | |- (if String.eqb ?a ?b then _ else _) = _ =>
      destruct (String.eqb_spec a b) as [Heq | _];
      [exfalso; apply Hop; rewrite Heq; simpl; tauto |]
  end.
  reflexivity.
Qed.

(** C5: the filter stage keeps, in their order, exactly the rows on which
    every filter holds; [==] holds when the strings of the row's value and
    of the filter's value are equal after [toLowerCase]; a filter whose
    operator is none of the six the program knows holds for every row. *)
Theorem filter_stage_keeps_rows_passing_every_filter
    (data : list object) (intent : QueryIntent) (fs : list QueryFilter) :
  filters intent = Some fs ->
  filterRows data intent =
    List.filter (fun row => forallb (evalFilter row) fs) data /\
  (forall row,
      In row (filterRows data intent) <->
      In row data /\ forall f, In f fs -> evalFilter row f = true) /\
  (forall row f,
      operator f = "==" ->
      (evalFilter row f = true <->
       toLowerCase (ToString (Get row (column f))) =
       toLowerCase (ToString (value f)))) /\
  (forall row f,
      ~ In (operator f) ["=="; ">"; "<"; ">="; "<="; "contains"] ->
      evalFilter row f = true).
Proof.
  intros Hfs. split; [| split; [| split]].
  - now apply filterRows_filter.
  - intros row. rewrite (filterRows_filter data intent Hfs).
    rewrite filter_In, forallb_forall. reflexivity.
  - apply evalFilter_equals.
  - apply evalFilter_unknown_operator.
Qed.

Lemma filter_stage_keeps_rows_passing_every_filter_witness :
  let fs := [ {| column := "cat"; operator := "=="; value := VString "X" |};
              {| column := "v"; operator := "between"; value := VString "1" |} ] in
  filterRows Samples.catRows (Samples.intent fs None None None) =
    [ [("cat", VString "x"); ("v", Samples.num 1)];
      [("cat", VString "x"); ("v", Samples.num 3)] ].
Proof.
  intros fs.
  destruct (filter_stage_keeps_rows_passing_every_filter
              Samples.catRows (Samples.intent fs None None None) eq_refl)
    as [Heq _].
  rewrite Heq. reflexivity.
Defined.

(** The example of the specification: the filter [a > 1]. *)
Lemma filter_example (engine : Engine) :
  queryData engine
            [ [("a", Samples.num 1)]; [("a", Samples.num 2)];
              [("a", Samples.num 3)] ]
            (Samples.intent
               [ {| column := "a"; operator := ">"; value := Samples.num 1 |} ]
               None None None)
  = Normal [ [("a", Samples.num 2)]; [("a", Samples.num 3)] ].
Proof. reflexivity. Qed.

(** Without one of the three grouping directives the result is the filtered
    rows, cut at 50. *)
Lemma queryData_without_grouping (engine : Engine) (data : list object)
    (intent : QueryIntent) :
  truthy (groupBy intent) = None \/ truthy (aggregateColumn intent) = None
  \/ truthy (aggregateType intent) = None ->
  queryData engine data intent = Normal (firstn 50 (filterRows data intent)).
Proof.
  intros H. unfold queryData.
  destruct (truthy (groupBy intent)), (truthy (aggregateColumn intent)),
    (truthy (aggregateType intent)); try reflexivity.
  destruct H as [H | [H | H]]; discriminate.
Qed.

(** When no row passes the filters the result is empty. *)
Lemma queryData_nothing_left (engine : Engine) (data : list object)
    (intent : QueryIntent) :
  filterRows data intent = [] -> queryData engine data intent = Normal [].
Proof.
  intros H. unfold queryData. rewrite H.
  destruct (truthy (groupBy intent)), (truthy (aggregateColumn intent)),
    (truthy (aggregateType intent)); try reflexivity.
  cbn [forEach bind map]. now rewrite sort_nil.
Qed.

(** A result has at most 50 rows. *)
Lemma queryData_cap (engine : Engine) (data : list object)
    (intent : QueryIntent) (rows : list object) :
  queryData engine data intent = Normal rows -> List.length rows <= 50.
Proof.
  unfold queryData.
  destruct (truthy (groupBy intent)), (truthy (aggregateColumn intent)),
    (truthy (aggregateType intent));
    try (intros H; apply Normal_inj in H; rewrite <- H;
         apply firstn_le_length).
  unfold bind. destruct (forEach _ _ _); [| discriminate].
  intros H. apply Normal_inj in H. rewrite <- H. apply firstn_le_length.
Qed.

(** With the three grouping directives, the result is the sorted rows of
    the groups, cut at 50. *)
Lemma queryData_grouped (engine : Engine) (data : list object)
    (intent : QueryIntent) (g a t : string)
    (groups : props (list number)) :
  truthy (groupBy intent) = Some g ->
  truthy (aggregateColumn intent) = Some a ->
  truthy (aggregateType intent) = Some t ->
  forEach (addToGroup g a) (filterRows data intent) [] = Normal groups ->
  queryData engine data intent =
  Normal (firstn 50 (sort engine (byAggregateDesc a)
                          (map (groupRow g a t) groups))).
Proof.
  intros Hg Ha Ht Hgroups. unfold queryData.
  now rewrite Hg, Ha, Ht, Hgroups.
Qed.

(** The examples of the specification, in every engine: the sum by
    category, whose comparator is consistent, and the cut of 80 groups at
    50. *)
Lemma aggregate_example (engine : Engine) :
  queryData engine Samples.catRows Samples.sumByCat =
  Normal [ [("cat", VString "x"); ("v", Samples.num 4)];
           [("cat", VString "y"); ("v", Samples.num 2)] ].
Proof.
  rewrite (@queryData_grouped engine Samples.catRows Samples.sumByCat
             "cat" "v" "SUM"
             [("x", [ofZ 1; ofZ 3]); ("y", [ofZ 2])]
             eq_refl eq_refl eq_refl eq_refl).
  rewrite sort_consistent by (vm_compute; reflexivity).
  vm_compute. reflexivity.
Qed.

Lemma cap_example (engine : Engine) :
  exists rows,
    queryData engine Samples.eightyRows Samples.sumByCat = Normal rows /\
    List.length rows = 50.
Proof.
  destruct (forEach (addToGroup "cat" "v")
                    (filterRows Samples.eightyRows Samples.sumByCat) [])
    as [groups | e] eqn:Hgroups; [| vm_compute in Hgroups; discriminate].
  eexists. split.
  - apply (@queryData_grouped engine Samples.eightyRows Samples.sumByCat
             "cat" "v" "SUM" groups eq_refl eq_refl eq_refl Hgroups).
  - rewrite length_firstn, sort_length, length_map.
    assert (Hlen : List.length groups = 80).
    { assert (H : match forEach (addToGroup "cat" "v")
                          (filterRows Samples.eightyRows Samples.sumByCat) []
                  with
                  | Normal gs => List.length gs
                  | Throw _ => 0
                  end = 80) by (vm_compute; reflexivity).
      now rewrite Hgroups in H. }
    rewrite Hlen. reflexivity.
Qed.

(** ** Where the query engine throws *)

Section Grouping.

Variables g a : string.

Lemma addToGroup_inherited (groups : props (list number)) (row : object) :
  clean groups ->
  inherited (groupKey g row) = true ->
  addToGroup g a groups row =
  Throw (TypeError "groups[key].push is not a function").
Proof.
  intros Hclean Hkey. unfold addToGroup.
  now rewrite (Hclean _ Hkey), Hkey.
Qed.

Lemma addToGroup_not_inherited (groups : props (list number)) (row : object) :
  clean groups ->
  inherited (groupKey g row) = false ->
  exists groups',
    addToGroup g a groups row = Normal groups' /\ clean groups'.
Proof.
  intros Hclean Hkey. unfold addToGroup.
  destruct (own groups (groupKey g row)) as [values |] eqn:Hown.
  - eexists. split; [reflexivity |].
    intros k Hk. rewrite own_replace.
    destruct (String.eqb_spec (groupKey g row) k) as [Heq | _];
      [congruence | now apply Hclean].
  - rewrite Hkey. eexists. split; [reflexivity |].
    intros k Hk. rewrite own_defineOwn.
    destruct (String.eqb_spec (groupKey g row) k) as [Heq | _];
      [congruence | now apply Hclean].
Qed.

Lemma forEach_addToGroup_throws (rows : list object) :
  forall groups,
    clean groups ->
    (exists row, In row rows /\ inherited (groupKey g row) = true) ->
    forEach (addToGroup g a) rows groups =
    Throw (TypeError "groups[key].push is not a function").
Proof.
  induction rows as [| row rows IH]; intros groups Hclean [bad [Hin Hbad]];
    [contradiction |].
  simpl.
  destruct (inherited (groupKey g row)) eqn:Hrow.
  - now rewrite (addToGroup_inherited row Hclean Hrow).
  - destruct (addToGroup_not_inherited row Hclean Hrow)
      as [groups' [-> Hclean']].
    simpl. apply IH; [assumption |].
    destruct Hin as [-> | Hin]; [congruence | now exists bad].
Qed.

Lemma forEach_addToGroup_returns (rows : list object) :
  forall groups,
    clean groups ->
    (forall row, In row rows -> inherited (groupKey g row) = false) ->
    exists groups', forEach (addToGroup g a) rows groups = Normal groups'.
Proof.
  induction rows as [| row rows IH]; intros groups Hclean Hrows; simpl.
  - now eexists.
  - destruct (addToGroup_not_inherited row Hclean (Hrows row (or_introl eq_refl)))
      as [groups' [-> Hclean']].
    simpl. apply IH; [assumption |].
    intros r Hr. apply Hrows. now right.
Qed.

End Grouping.

Lemma clean_nil : clean [].
Proof. intros k _. reflexivity. Qed.

(** X1: with the three grouping directives present, [queryData] throws
    exactly when a row that passed the filters has, as the string of its
    group-by value, the name of a property of [Object.prototype]. *)
Lemma queryData_throws_iff (engine : Engine) (data : list object)
    (intent : QueryIntent) (g a t : string) :
  truthy (groupBy intent) = Some g ->
  truthy (aggregateColumn intent) = Some a ->
  truthy (aggregateType intent) = Some t ->
  ((exists row, In row (filterRows data intent) /\
                inherited (groupKey g row) = true) ->
   queryData engine data intent =
   Throw (TypeError "groups[key].push is not a function")) /\
  ((forall row, In row (filterRows data intent) ->
                inherited (groupKey g row) = false) ->
   exists rows, queryData engine data intent = Normal rows).
Proof.
  intros Hg Ha Ht. unfold queryData. rewrite Hg, Ha, Ht. split.
  - intros Hbad.
    now rewrite (forEach_addToGroup_throws g a _ clean_nil Hbad).
  - intros Hgood.
    destruct (forEach_addToGroup_returns g a _ clean_nil Hgood)
      as [groups ->].
    unfold bind. now eexists.
Qed.

Lemma queryData_throws_iff_witness :
  queryData binaryInsertionEngine Samples.jobRows Samples.sumByCat =
    Throw (TypeError "groups[key].push is not a function") /\
  exists rows,
    queryData binaryInsertionEngine Samples.catRows Samples.sumByCat = Normal rows.
Proof.
  split.
  - apply (proj1 (@queryData_throws_iff binaryInsertionEngine
                    Samples.jobRows Samples.sumByCat
                    "cat" "v" "SUM" eq_refl eq_refl eq_refl)).
    exists [("cat", VString "constructor"); ("v", Samples.num 1)].
    split; [right; left; reflexivity | reflexivity].
  - apply (proj2 (@queryData_throws_iff binaryInsertionEngine
                    Samples.catRows Samples.sumByCat
                    "cat" "v" "SUM" eq_refl eq_refl eq_refl)).
    intros row Hrow. vm_compute in Hrow.
    destruct Hrow as [<- | [<- | [<- | []]]]; reflexivity.
Defined.

(** C4 fails on the code: [queryData] throws.  A row whose group-by value
    is [constructor] finds [groups[key]] truthy, since a plain object
    inherits that name, creates no array, and calls a [push] that is not
    there. *)
Theorem queryData_throws_on_inherited_group_key (engine : Engine) :
  queryData engine Samples.jobRows Samples.sumByCat =
  Throw (TypeError "groups[key].push is not a function").
Proof. reflexivity. Qed.

(** C3 fails on the code for the same reason: on these rows there is no
    output row for any group, since nothing is returned. *)
Theorem grouping_returns_no_rows_on_inherited_group_key (engine : Engine) :
  forall rows,
    queryData engine Samples.jobRows Samples.sumByCat <> Normal rows.
Proof.
  intros rows. cbv. discriminate.
Qed.

(** ** The groups of a query *)

Section Groups.

Variables g a : string.

Lemma valuesOf_cons (k : string) (row : object) (rows : list object) :
  valuesOf g a k (row :: rows) =
  if String.eqb (groupKey g row) k
  then groupValue a row :: valuesOf g a k rows
  else valuesOf g a k rows.
Proof.
  unfold valuesOf. simpl. now destruct (String.eqb (groupKey g row) k).
Qed.

Lemma addToGroup_own (groups groups' : props (list number)) (row : object) :
  addToGroup g a groups row = Normal groups' ->
  forall k,
    own groups' k =
    if String.eqb (groupKey g row) k
    then match own groups k with
         | Some vs => Some (vs ++ [groupValue a row])%list
         | None => Some [groupValue a row]
         end
    else own groups k.
Proof.
  unfold addToGroup. intros H k.
  destruct (own groups (groupKey g row)) as [values |] eqn:Hown.
  - apply Normal_inj in H. subst groups'. rewrite own_replace, Hown.
    destruct (String.eqb_spec (groupKey g row) k) as [<- | _];
      [now rewrite Hown | reflexivity].
  - destruct (inherited (groupKey g row)); [discriminate |].
    apply Normal_inj in H. subst groups'. rewrite own_defineOwn.
    destruct (String.eqb_spec (groupKey g row) k) as [<- | _];
      [now rewrite Hown | reflexivity].
Qed.

Lemma addToGroup_NoDup (groups groups' : props (list number)) (row : object) :
  addToGroup g a groups row = Normal groups' ->
  NoDup (keys groups) -> NoDup (keys groups').
Proof.
  unfold addToGroup. intros H Hnodup.
  destruct (own groups (groupKey g row)) as [values |] eqn:Hown.
  - apply Normal_inj in H. subst groups'. now rewrite keys_replace.
  - destruct (inherited (groupKey g row)); [discriminate |].
    apply Normal_inj in H. subst groups'.
    now apply NoDup_keys_defineOwn_fresh.
Qed.

Lemma forEach_addToGroup_own (rows : list object) :
  forall groups groups',
    forEach (addToGroup g a) rows groups = Normal groups' ->
    (NoDup (keys groups) -> NoDup (keys groups')) /\
    forall k,
      own groups' k =
      match own groups k with
      | Some vs => Some (vs ++ valuesOf g a k rows)%list
      | None => match valuesOf g a k rows with
                | [] => None
                | vs => Some vs
                end
      end.
Proof.
  induction rows as [| row rows IH]; intros groups groups' H.
  - apply Normal_inj in H. subst groups'. split; [tauto |].
    intros k. unfold valuesOf. simpl.
    destruct (own groups k); [now rewrite app_nil_r | reflexivity].
  - simpl in H. destruct (addToGroup g a groups row) as [g1 |] eqn:Hadd;
      [| discriminate].
    simpl in H. destruct (IH g1 groups' H) as [Hnodup Hown].
    split.
    + intros Hn. apply Hnodup. now apply (addToGroup_NoDup _ _ Hadd).
    + intros k. rewrite Hown, (addToGroup_own _ _ Hadd k), valuesOf_cons.
      destruct (String.eqb (groupKey g row) k).
      * destruct (own groups k); [now rewrite <- app_assoc | reflexivity].
      * reflexivity.
Qed.

End Groups.

Lemma byAggregateDesc_antisym (a : string) (x y : object) :
  positive_result (byAggregateDesc a x y) = true ->
  positive_result (byAggregateDesc a y x) = false.
Proof. unfold byAggregateDesc, minus. apply sub_antisym. Qed.

Lemma valuesOf_nil (g a k : string) (rows : list object) :
  valuesOf g a k rows = [] <->
  forall row, In row rows -> groupKey g row <> k.
Proof.
  unfold valuesOf. induction rows as [| row rows IH]; simpl.
  - split; [intros _ row [] | reflexivity].
  - destruct (String.eqb_spec (groupKey g row) k) as [Heq | Hne]; simpl.
    + split; [discriminate |]. intros H. exfalso. apply (H row); tauto.
    + rewrite IH. split.
      * intros H r [<- | Hr]; [assumption | now apply H].
      * intros H r Hr. apply H. now right.
Qed.

(** The fields of the row of one group, when the two columns differ. *)
Lemma groupRow_fields (g a t k : string) (vs : list number) :
  g <> a ->
  Get (groupRow g a t (k, vs)) g = VString k /\
  Get (groupRow g a t (k, vs)) a = VNumber (round2 (aggregate t vs)) /\
  Permutation (keys (groupRow g a t (k, vs))) [g; a].
Proof.
  intros Hne. unfold groupRow, Get. simpl fst. simpl snd.
  rewrite !own_defineOwn. simpl own.
  rewrite String.eqb_refl, (proj2 (String.eqb_neq a g)) by congruence.
  rewrite String.eqb_refl. repeat split.
  apply perm_trans with (a :: keys (defineOwn [] g (VString k))).
  - apply keys_defineOwn_fresh. rewrite own_defineOwn. simpl.
    now rewrite (proj2 (String.eqb_neq g a) Hne).
  - apply perm_trans with [a; g]; [| apply perm_swap].
    apply perm_skip. now apply keys_defineOwn_fresh.
Qed.

(** The four aggregates. *)
Lemma aggregate_kinds (vs : list number) :
  aggregate "SUM" vs = fold_left add vs zero /\
  aggregate "AVG" vs = div (fold_left add vs zero) (ofNat (List.length vs)) /\
  aggregate "COUNT" vs = ofNat (List.length vs) /\
  aggregate "COUNT_DISTINCT" vs = ofNat (List.length (SetOf vs)).
Proof. repeat split. Qed.

(** X2: what [queryData] returns, whatever the engine, when it groups and
    no group key is a name of [Object.prototype].  There is one group for
    each distinct key of the filtered rows, holding the coerced values of
    the rows of that key in their order, and the result is the rows of
    the groups in some order, cut at 50.  The order is fixed when the
    comparator [b - a] of the aggregates is consistent for these rows:
    then no row is followed, anywhere after it, by a row the comparator
    sends before it, and rows the comparator holds equal stand in the
    order of their groups. *)
Lemma queryData_groups (engine : Engine) (data : list object)
    (intent : QueryIntent) (g a t : string) :
  truthy (groupBy intent) = Some g ->
  truthy (aggregateColumn intent) = Some a ->
  truthy (aggregateType intent) = Some t ->
  (forall row, In row (filterRows data intent) ->
               inherited (groupKey g row) = false) ->
  exists groups result,
    forEach (addToGroup g a) (filterRows data intent) [] = Normal groups /\
    NoDup (keys groups) /\
    (forall k, In k (keys groups) <->
               exists row, In row (filterRows data intent) /\
                           groupKey g row = k) /\
    (forall k vs, In (k, vs) groups ->
                  vs = valuesOf g a k (filterRows data intent)) /\
    Permutation result (map (groupRow g a t) groups) /\
    queryData engine data intent = Normal (firstn 50 result) /\
    (consistent (byAggregateDesc a) (map (groupRow g a t) groups) = true ->
     StronglySorted (notAfter (byAggregateDesc a)) result /\
     forall row,
       In row result ->
       List.filter (equalC (byAggregateDesc a) row) result =
       List.filter (equalC (byAggregateDesc a) row)
                   (map (groupRow g a t) groups)).
Proof.
  intros Hg Ha Ht Hgood.
  destruct (forEach_addToGroup_returns g a _ clean_nil Hgood)
    as [groups Hgroups].
  destruct (forEach_addToGroup_own g a _ _ Hgroups) as [Hnodup Hown].
  specialize (Hnodup (NoDup_nil _)). simpl own in Hown.
  exists groups,
    (sort engine (byAggregateDesc a) (map (groupRow g a t) groups)).
  split; [assumption |].
  split; [assumption | split; [| split; [| split; [| split]]]].
  - intros k. split.
    + intros Hin.
      destruct (valuesOf g a k (filterRows data intent)) eqn:Hvals.
      * exfalso. revert Hin. apply own_None_keys. now rewrite Hown, Hvals.
      * destruct (List.filter
                    (fun row => String.eqb (groupKey g row) k)
                    (filterRows data intent)) as [| row rows] eqn:Hf;
          [unfold valuesOf in Hvals; rewrite Hf in Hvals; discriminate |].
        assert (Hrow : In row (List.filter
                    (fun row => String.eqb (groupKey g row) k)
                    (filterRows data intent))) by (rewrite Hf; now left).
        apply filter_In in Hrow. destruct Hrow as [Hrow Hkey].
        exists row. split; [assumption | now apply String.eqb_eq].
    + intros [row [Hrow Hkey]].
      destruct (in_dec string_dec k (keys groups)) as [Hin | Hnot];
        [assumption | exfalso].
      apply own_None_keys in Hnot. rewrite Hown in Hnot.
      destruct (valuesOf g a k (filterRows data intent)) eqn:Hvals;
        [| discriminate].
      now apply (proj1 (valuesOf_nil g a k _) Hvals row).
  - intros k vs Hin. apply (In_own _ _ _ Hnodup) in Hin.
    rewrite Hown in Hin.
    destruct (valuesOf g a k (filterRows data intent));
      [discriminate | congruence].
  - apply sort_elements.
  - now apply queryData_grouped with (t := t) (g := g).
  - intros Hcons. rewrite (sort_consistent engine _ _ Hcons).
    destruct (insertionSort_sorted _ _ Hcons) as [Hsorted Hstable].
    split; [assumption |].
    intros row Hrow. apply Hstable.
    now apply (Permutation_in _ (insertionSort_Permutation _ _)) in Hrow.
Qed.

Lemma queryData_groups_witness :
  exists (groups : props (list number)) result,
    keys groups = ["x"; "y"] /\
    queryData binaryInsertionEngine Samples.catRows Samples.sumByCat =
      Normal (firstn 50 result) /\
    StronglySorted (notAfter (byAggregateDesc "v")) result.
Proof.
  assert (Hgood : forall row,
             In row (filterRows Samples.catRows Samples.sumByCat) ->
             inherited (groupKey "cat" row) = false).
  { intros row Hrow. vm_compute in Hrow.
    destruct Hrow as [<- | [<- | [<- | []]]]; reflexivity. }
  destruct (@queryData_groups binaryInsertionEngine
              Samples.catRows Samples.sumByCat
              "cat" "v" "SUM" eq_refl eq_refl eq_refl Hgood)
    as [groups [result [Hgroups [_ [_ [_ [_ [Hquery Horder]]]]]]]].
  assert (Heq : groups = [("x", [ofZ 1; ofZ 3]); ("y", [ofZ 2])]).
  { apply Normal_inj. rewrite <- Hgroups. reflexivity. }
  exists groups, result.
  split; [now rewrite Heq |]. split; [exact Hquery |].
  apply Horder. rewrite Heq. vm_compute. reflexivity.
Defined.

(** With a NaN among the aggregates the comparator is not consistent, and
    the order of the result is the engine's: binary insertion, as in V8,
    turns the aggregates 1, 2, NaN, 3 into 3, 2, 1, NaN, where insertion
    from the right would give 2, 1, NaN, 3. *)
Lemma nan_aggregate_is_not_consistent :
  consistent (byAggregateDesc "v") Samples.nanRows = false /\
  map (fun row => Get row "cat")
      (sort binaryInsertionEngine (byAggregateDesc "v") Samples.nanRows)
    = [VString "d"; VString "b"; VString "a"; VString "c"] /\
  map (fun row => Get row "cat")
      (insertionSort (byAggregateDesc "v") Samples.nanRows)
    = [VString "b"; VString "a"; VString "c"; VString "d"].
Proof. repeat split; vm_compute; reflexivity. Qed.

(** With the same name for the group-by and the aggregate column, the row
    of a group has one field, the aggregate. *)
Lemma same_column_example (engine : Engine) :
  queryData engine Samples.catRows
            (Samples.intent [] (Some "cat") (Some "cat") (Some "COUNT"))
  = Normal [ [("cat", Samples.num 2)]; [("cat", Samples.num 1)] ].
Proof.
  rewrite (@queryData_grouped engine Samples.catRows
             (Samples.intent [] (Some "cat") (Some "cat") (Some "COUNT"))
             "cat" "cat" "COUNT"
             [("x", [zero; zero]); ("y", [zero])]
             eq_refl eq_refl eq_refl eq_refl).
  rewrite sort_consistent by (vm_compute; reflexivity).
  vm_compute. reflexivity.
Qed.

(** ** The shape of an object *)

Lemma arrayIndex_digits (k : string) (i : N) :
  arrayIndex k = Some i -> k = digits i.
Proof.
  unfold arrayIndex. destruct (readDigits k 0 0) as [[n cnt] rest].
  destruct (isEmpty rest); simpl; [| discriminate].
  destruct (0 <? cnt)%N; simpl; [| discriminate].
  destruct (String.eqb_spec (digits n) k) as [Heq | _]; simpl;
    [| discriminate].
  destruct (n <? 4294967295)%N; [| discriminate].
  intros [= <-]. now symmetry.
Qed.

Lemma precedes_irrefl (k : string) : precedes k k = false.
Proof.
  unfold precedes. destruct (arrayIndex k).
  - apply N.ltb_irrefl.
  - now rewrite String.eqb_refl.
Qed.

Lemma precedes_neq (k k' : string) : precedes k k' = true -> k <> k'.
Proof. intros H ->. now rewrite precedes_irrefl in H. Qed.

Lemma precedes_trans (k1 k2 k3 : string) :
  precedes k1 k2 = true -> precedes k2 k3 = true ->
  arrayIndex k1 <> None -> precedes k1 k3 = true.
Proof.
  unfold precedes.
  destruct (arrayIndex k1) as [i |], (arrayIndex k2) as [j |],
    (arrayIndex k3) as [l |]; try congruence.
  rewrite !N.ltb_lt. lia.
Qed.

Section ShapeFacts.

Variable A : Type.
Implicit Types (o : props A) (k : string) (v : A).

Lemma ordered_app_l (ks1 ks2 : list string) :
  ordered (ks1 ++ ks2)%list = true -> ordered ks1 = true.
Proof.
  induction ks1 as [| k ks1 IH]; simpl; [reflexivity |].
  rewrite !andb_true_iff, forallb_app, andb_true_iff.
  intros [[H1 _] H2]. split; [assumption | now apply IH].
Qed.

Lemma ordered_last_precedes (ks : list string) (k k' : string) :
  ordered (ks ++ [k])%list = true -> In k' ks -> precedes k' k = true.
Proof.
  induction ks as [| k0 ks IH]; simpl; [contradiction |].
  rewrite andb_true_iff, forallb_app, andb_true_iff. simpl.
  rewrite andb_true_r.
  intros [[_ Hk0] Hrest] [<- | Hin]; [assumption | now apply IH].
Qed.

Lemma ordered_NoDup (ks : list string) : ordered ks = true -> NoDup ks.
Proof.
  induction ks as [| k ks IH]; simpl; [constructor |].
  rewrite andb_true_iff, forallb_forall. intros [Hk Hks].
  constructor; [| now apply IH].
  intros Hin. now apply (precedes_neq (Hk k Hin)).
Qed.

Lemma canonical_NoDup o : canonical o -> NoDup (keys o).
Proof. apply ordered_NoDup. Qed.

Lemma canonical_nil : canonical (@nil (string * A)).
Proof. reflexivity. Qed.

(** A property written after all the others goes to the end. *)
Lemma insertIndex_last o i k v :
  arrayIndex k = Some i ->
  ordered (keys o ++ [k])%list = true ->
  insertIndex o i k v = (o ++ [(k, v)])%list.
Proof.
  intros Hk. induction o as [| [k0 v0] o IH]; simpl; [reflexivity |].
  rewrite andb_true_iff, forallb_app, andb_true_iff. simpl.
  rewrite andb_true_r. intros [[_ Hk0] Hrest].
  unfold precedes in Hk0. rewrite Hk in Hk0.
  destruct (arrayIndex k0) as [j |]; [| discriminate].
  rewrite Hk0. f_equal. now apply IH.
Qed.

Lemma defineOwn_last o k v :
  ordered (keys o ++ [k])%list = true ->
  defineOwn o k v = (o ++ [(k, v)])%list.
Proof.
  intros Hord. unfold defineOwn.
  assert (Hnone : own o k = None).
  { apply own_None_keys. intros Hin.
    now apply (precedes_neq (@ordered_last_precedes _ _ _ Hord Hin)). }
  rewrite Hnone. destruct (arrayIndex k) as [i |] eqn:Hk; [| reflexivity].
  now apply insertIndex_last.
Qed.

Lemma spread_from (rest : props A) :
  forall acc : props A,
    ordered (keys (acc ++ rest)%list) = true ->
    fold_left (fun acc kv => defineOwn acc (fst kv) (snd kv)) rest acc =
    (acc ++ rest)%list.
Proof.
  induction rest as [| [k v] rest IH]; intros acc Hord; simpl.
  - now rewrite app_nil_r.
  - rewrite defineOwn_last.
    + rewrite IH; rewrite <- app_assoc; [reflexivity | assumption].
    + unfold keys in *. rewrite map_app in Hord. simpl in Hord.
      change (map fst acc ++ k :: map fst rest)%list
        with (map fst acc ++ [k] ++ map fst rest)%list in Hord.
      rewrite app_assoc in Hord. now apply ordered_app_l in Hord.
Qed.

(** The copy of an object is the object. *)
Lemma spread_canonical o : canonical o -> spread o = o.
Proof. intros H. unfold spread. now rewrite spread_from. Qed.

End ShapeFacts.

Section ShapeUpdates.

Variable A : Type.
Implicit Types (o : props A) (k : string) (v : A).

Lemma own_Some_In o k v : own o k = Some v -> In (k, v) o.
Proof.
  induction o as [| [k0 v0] o IH]; simpl; [discriminate |].
  destruct (String.eqb_spec k0 k) as [-> | Hne].
  - intros [= ->]. now left.
  - intros H. right. now apply IH.
Qed.

Lemma canonical_own_In o k v :
  canonical o -> (own o k = Some v <-> In (k, v) o).
Proof.
  intros Hc. split; [apply own_Some_In |].
  apply In_own. now apply canonical_NoDup.
Qed.

Lemma forallb_precedes_insertIndex o i k v k0 :
  forallb (precedes k0) (map fst (insertIndex o i k v)) =
  precedes k0 k && forallb (precedes k0) (map fst o).
Proof.
  induction o as [| [k1 v1] o IH]; simpl; [reflexivity |].
  destruct (arrayIndex k1) as [j |]; [destruct (j <? i)%N |]; simpl;
    try reflexivity.
  rewrite IH.
  destruct (precedes k0 k), (precedes k0 k1); reflexivity.
Qed.

Lemma ordered_insertIndex o i k v :
  arrayIndex k = Some i -> own o k = None ->
  ordered (keys o) = true ->
  ordered (keys (insertIndex o i k v)) = true.
Proof.
  intros Hk. unfold keys.
  induction o as [| [k0 v0] o IH]; simpl; [reflexivity |].
  destruct (String.eqb_spec k0 k) as [-> | Hne]; [discriminate |].
  intros Hnone. rewrite andb_true_iff. intros [Hk0 Hrest].
  assert (Hfront : forallb (precedes k) (k0 :: map fst o) = true ->
                   ordered (k :: k0 :: map fst o) = true).
  { intros H. change (ordered (k :: k0 :: map fst o))
      with (forallb (precedes k) (k0 :: map fst o) && ordered (k0 :: map fst o)).
    rewrite H. simpl. now rewrite Hk0, Hrest. }
  destruct (arrayIndex k0) as [j |] eqn:Hk0i.
  - destruct (j <? i)%N eqn:Hji.
    + change (ordered (k0 :: map fst (insertIndex o i k v)) = true).
      simpl.
      rewrite forallb_precedes_insertIndex, Hk0, (IH Hnone Hrest).
      unfold precedes. now rewrite Hk0i, Hk, Hji.
    + apply Hfront.
      assert (Hij : precedes k k0 = true).
      { unfold precedes. rewrite Hk, Hk0i. apply N.ltb_lt.
        apply N.ltb_ge in Hji.
        assert (i <> j) by
          (intros ->; apply Hne;
           now rewrite (arrayIndex_digits _ Hk0i), (arrayIndex_digits _ Hk)).
        lia. }
      simpl. rewrite Hij. simpl. apply forallb_forall. intros k2 Hk2.
      rewrite forallb_forall in Hk0.
      apply (@precedes_trans _ _ _ Hij (Hk0 k2 Hk2)). congruence.
  - apply Hfront. simpl.
    assert (Hij : precedes k k0 = true)
      by (unfold precedes; now rewrite Hk, Hk0i).
    rewrite Hij. simpl. apply forallb_forall. intros k2 Hk2.
    rewrite forallb_forall in Hk0.
    apply (@precedes_trans _ _ _ Hij (Hk0 k2 Hk2)). congruence.
Qed.

Lemma ordered_snoc_name (ks : list string) (k : string) :
  arrayIndex k = None -> ~ In k ks -> ordered ks = true ->
  ordered (ks ++ [k])%list = true.
Proof.
  intros Hk. induction ks as [| k0 ks IH]; simpl; [reflexivity |].
  intros Hnot. rewrite !andb_true_iff, forallb_app, andb_true_iff. simpl.
  intros [Hk0 Hrest]. repeat split; try assumption.
  - rewrite andb_true_r. unfold precedes. rewrite Hk.
    destruct (arrayIndex k0); [reflexivity |].
    apply negb_true_iff, String.eqb_neq. intros ->. apply Hnot. now left.
  - apply IH; [| assumption]. intros Hin. apply Hnot. now right.
Qed.

(** Writing a property keeps the shape. *)
Lemma canonical_defineOwn o k v : canonical o -> canonical (defineOwn o k v).
Proof.
  unfold canonical, defineOwn. intros Hc.
  destruct (own o k) eqn:Hown.
  - now rewrite keys_replace.
  - destruct (arrayIndex k) as [i |] eqn:Hk.
    + now apply ordered_insertIndex.
    + unfold keys. rewrite map_app. simpl.
      apply ordered_snoc_name; try assumption.
      now apply own_None_keys.
Qed.

Lemma forallb_delete (p : string -> bool) o k :
  forallb p (keys o) = true -> forallb p (keys (delete o k)) = true.
Proof.
  unfold keys. induction o as [| [k0 v0] o IH]; simpl; [reflexivity |].
  rewrite andb_true_iff. intros [H0 Hrest].
  destruct (String.eqb k0 k); simpl; [assumption |].
  now rewrite H0, IH.
Qed.

(** Deleting a property keeps the shape. *)
Lemma canonical_delete o k : canonical o -> canonical (delete o k).
Proof.
  unfold canonical, keys. induction o as [| [k0 v0] o IH]; simpl;
    [reflexivity |].
  rewrite andb_true_iff. intros [H0 Hrest].
  destruct (String.eqb k0 k); simpl; [assumption |].
  rewrite IH by assumption. rewrite andb_true_r.
  now apply forallb_delete.
Qed.

Lemma own_delete_same o k : NoDup (keys o) -> own (delete o k) k = None.
Proof.
  unfold keys. induction o as [| [k0 v0] o IH]; simpl; intros Hnodup;
    [reflexivity |].
  apply NoDup_cons_iff in Hnodup. destruct Hnodup as [Hfresh Hnodup'].
  destruct (String.eqb_spec k0 k) as [Hk0 | Hne].
  - apply own_None_keys. rewrite <- Hk0. exact Hfresh.
  - simpl. rewrite (proj2 (String.eqb_neq k0 k) Hne). now apply IH.
Qed.

Lemma own_delete_other o k k' : k <> k' -> own (delete o k) k' = own o k'.
Proof.
  intros Hkk. induction o as [| [k0 v0] o IH]; simpl; [reflexivity |].
  destruct (String.eqb_spec k0 k) as [Hk0 | Hne].
  - now rewrite (proj2 (String.eqb_neq k0 k')) by congruence.
  - simpl. now rewrite IH.
Qed.

Lemma own_delete o k k' :
  NoDup (keys o) ->
  own (delete o k) k' = if String.eqb k k' then None else own o k'.
Proof.
  intros Hnodup. destruct (String.eqb_spec k k') as [<- | Hne].
  - now apply own_delete_same.
  - now apply own_delete_other.
Qed.

Lemma delete_absent o k : own o k = None -> delete o k = o.
Proof.
  induction o as [| [k0 v0] o IH]; simpl; [reflexivity |].
  destruct (String.eqb k0 k); [discriminate |].
  intros H. now rewrite IH.
Qed.

(** A property that was written new and is deleted leaves the object as it
    was. *)
Lemma delete_defineOwn_fresh o k v :
  own o k = None -> delete (defineOwn o k v) k = o.
Proof.
  intros Hnone. unfold defineOwn. rewrite Hnone.
  destruct (arrayIndex k) as [i |].
  - induction o as [| [k0 v0] o IH]; simpl.
    + now rewrite String.eqb_refl.
    + simpl in Hnone.
      destruct (String.eqb_spec k0 k) as [-> | Hne]; [discriminate |].
      destruct (arrayIndex k0) as [j |]; [destruct (j <? i)%N |]; simpl;
        rewrite ?String.eqb_refl; try reflexivity.
      rewrite (proj2 (String.eqb_neq k0 k) Hne). now rewrite IH.
  - induction o as [| [k0 v0] o IH]; simpl.
    + now rewrite String.eqb_refl.
    + simpl in Hnone.
      destruct (String.eqb_spec k0 k) as [-> | Hne]; [discriminate |].
      now rewrite IH.
Qed.

Lemma replace_twice o k v v' :
  replace (replace o k v) k v' = replace o k v'.
Proof.
  induction o as [| [k0 v0] o IH]; simpl; [reflexivity |].
  destruct (String.eqb_spec k0 k) as [-> | Hne]; simpl.
  - now rewrite String.eqb_refl.
  - rewrite (proj2 (String.eqb_neq k0 k) Hne). now rewrite IH.
Qed.

Lemma replace_insertIndex o i k v v' :
  own o k = None ->
  replace (insertIndex o i k v) k v' = insertIndex o i k v'.
Proof.
  induction o as [| [k0 v0] o IH]; simpl.
  - now rewrite String.eqb_refl.
  - destruct (String.eqb_spec k0 k) as [-> | Hne]; [discriminate |].
    intros Hnone.
    destruct (arrayIndex k0) as [j |]; [destruct (j <? i)%N |]; simpl;
      rewrite ?String.eqb_refl; try reflexivity.
    rewrite (proj2 (String.eqb_neq k0 k) Hne). now rewrite IH.
Qed.

Lemma replace_app_last o k v v' :
  own o k = None ->
  replace (o ++ [(k, v)])%list k v' = (o ++ [(k, v')])%list.
Proof.
  induction o as [| [k0 v0] o IH]; simpl.
  - now rewrite String.eqb_refl.
  - destruct (String.eqb_spec k0 k) as [-> | Hne]; [discriminate |].
    intros Hnone. now rewrite IH.
Qed.

(** Writing a property twice is writing the second value. *)
Lemma defineOwn_twice o k v v' :
  defineOwn (defineOwn o k v) k v' = defineOwn o k v'.
Proof.
  unfold defineOwn at 1. rewrite own_defineOwn, String.eqb_refl.
  unfold defineOwn. destruct (own o k) eqn:Hown.
  - apply replace_twice.
  - destruct (arrayIndex k) as [i |];
      [now apply replace_insertIndex | now apply replace_app_last].
Qed.

End ShapeUpdates.

(** ** The dashboard *)

Lemma filter_filter (A : Type) (p q : A -> bool) (l : list A) :
  List.filter q (List.filter p l) = List.filter (fun x => p x && q x) l.
Proof.
  induction l as [| x l IH]; simpl; [reflexivity |].
  destruct (p x); simpl; [destruct (q x) |]; now rewrite IH.
Qed.

Lemma fold_filters (A B : Type) (p : B -> A -> bool) (fs : list B) :
  forall l,
    fold_left (fun l f => List.filter (p f) l) fs l =
    List.filter (fun x => forallb (fun f => p f x) fs) l.
Proof.
  induction fs as [| f fs IH]; intros l; simpl.
  - now rewrite filter_all.
  - rewrite IH. apply filter_filter.
Qed.

Lemma filteredData_filter (data : list object) (searchTerm : string)
    (activeFilters : FilterState) :
  filteredData data searchTerm activeFilters =
  List.filter (fun row => passesFilters activeFilters row
                          && (isEmpty (trim searchTerm)
                              || matchesSearch searchTerm row))
              data.
Proof.
  unfold filteredData.
  rewrite (fold_filters (fun kv row => looseEq (Get row (fst kv)) (snd kv))).
  destruct (isEmpty (trim searchTerm)); simpl.
  - apply filter_ext. intros row. unfold passesFilters.
    now rewrite andb_true_r.
  - rewrite filter_filter. reflexivity.
Qed.

(** X3: the rows the dashboard shows are the rows of the dataset, in their
    order, on which every drill-down filter holds under [==] and, when the
    search term is not blank, one of whose cells contains the term, both in
    lower case. *)
Theorem filteredData_rows (data : list object) (searchTerm : string)
    (activeFilters : FilterState) :
  filteredData data searchTerm activeFilters =
    List.filter (fun row => passesFilters activeFilters row
                            && (isEmpty (trim searchTerm)
                                || matchesSearch searchTerm row))
                data /\
  (forall row,
      In row (filteredData data searchTerm activeFilters) <->
      In row data /\
      (forall k v, In (k, v) (entries activeFilters) ->
                   looseEq (Get row k) v = true) /\
      (trim searchTerm <> EmptyString ->
       exists val, In val (values row) /\
                   includes (toLowerCase (ToString val))
                            (toLowerCase searchTerm) = true)) /\
  filteredData data EmptyString [] = data.
Proof.
  split; [apply filteredData_filter | split].
  - intros row. rewrite filteredData_filter, filter_In, andb_true_iff.
    unfold passesFilters, matchesSearch.
    rewrite forallb_forall, orb_true_iff, existsb_exists.
    split; intros [Hin [Hf Hs]]; (split; [assumption | split]).
    + intros k v Hkv. apply (Hf (k, v) Hkv).
    + intros Hne. destruct Hs as [Hs | Hs]; [| assumption].
      now apply JSFacts.isEmpty_false in Hne; rewrite Hne in Hs.
    + intros [k v] Hkv. now apply Hf.
    + destruct (isEmpty (trim searchTerm)) eqn:He; [now left | right].
      apply Hs. now apply JSFacts.isEmpty_false.
  - rewrite filteredData_filter. simpl. apply filter_all.
Qed.

(** *** The filter state *)

Lemma handleDrillDown_canonical (key : string) (value : JS.value)
    (prev : FilterState) :
  canonical prev -> handleDrillDown key value prev = defineOwn prev key value.
Proof. intros H. unfold handleDrillDown. now rewrite spread_canonical. Qed.

Lemma removeFilter_canonical (key : string) (activeFilters : FilterState) :
  canonical activeFilters ->
  removeFilter key activeFilters = delete activeFilters key.
Proof. intros H. unfold removeFilter. now rewrite spread_canonical. Qed.

(** X4: the drill-down filters behave as a map from columns to values: a
    drill-down sets the value of its column and no other, a second one on
    the same column replaces the first, removing a filter removes that
    column and no other, and a drill-down on a new column followed by its
    removal leaves the filters as they were. *)
Theorem filter_state_is_a_map (activeFilters : FilterState)
    (key : string) (value value' : JS.value) :
  canonical activeFilters ->
  canonical (handleDrillDown key value activeFilters) /\
  canonical (removeFilter key activeFilters) /\
  own (handleDrillDown key value activeFilters) key = Some value /\
  (forall k, k <> key ->
     own (handleDrillDown key value activeFilters) k = own activeFilters k) /\
  handleDrillDown key value' (handleDrillDown key value activeFilters) =
    handleDrillDown key value' activeFilters /\
  own (removeFilter key activeFilters) key = None /\
  (forall k, k <> key ->
     own (removeFilter key activeFilters) k = own activeFilters k) /\
  (own activeFilters key = None ->
     removeFilter key (handleDrillDown key value activeFilters) =
     activeFilters).
Proof.
  intros Hc.
  assert (Hd : canonical (defineOwn activeFilters key value))
    by now apply canonical_defineOwn.
  rewrite !(handleDrillDown_canonical _ _ Hc), (removeFilter_canonical _ Hc).
  rewrite (handleDrillDown_canonical _ _ Hd), (removeFilter_canonical _ Hd).
  split; [assumption | split; [now apply canonical_delete |]].
  split; [now rewrite own_defineOwn, String.eqb_refl |].
  split.
  { intros k Hk. rewrite own_defineOwn.
    now rewrite (proj2 (String.eqb_neq key k)) by congruence. }
  split; [apply defineOwn_twice |].
  split; [apply own_delete_same; now apply canonical_NoDup |].
  split.
  { intros k Hk. apply own_delete_other. congruence. }
  apply delete_defineOwn_fresh.
Qed.

Lemma filter_state_is_a_map_witness :
  removeFilter "cat" (handleDrillDown "cat" (VString "x") [("v", Samples.num 1)])
  = [("v", Samples.num 1)].
Proof.
  assert (Hc : canonical [("v", Samples.num 1)]) by reflexivity.
  destruct (filter_state_is_a_map "cat" (VString "x") (VString "x") Hc)
    as [_ [_ [_ [_ [_ [_ [_ H]]]]]]].
  apply H. reflexivity.
Defined.

Lemma passesFilters_own (f1 f2 : FilterState) (row : object) :
  canonical f1 -> canonical f2 ->
  (forall k, own f1 k = own f2 k) ->
  passesFilters f1 row = passesFilters f2 row.
Proof.
  intros H1 H2 Hown. unfold passesFilters, entries.
  apply eq_true_iff_eq. rewrite !forallb_forall.
  split; intros H [k v] Hin; apply H;
    apply (canonical_own_In _ _ H1) in Hin || apply (canonical_own_In _ _ H2) in Hin;
    [apply (canonical_own_In _ _ H1) | apply (canonical_own_In _ _ H2)];
    congruence.
Qed.

(** X5: the order in which two drill-downs on different columns were made
    does not change the rows shown. *)
Theorem drill_down_order_is_irrelevant (data : list object)
    (searchTerm : string) (activeFilters : FilterState)
    (k1 k2 : string) (v1 v2 : JS.value) :
  canonical activeFilters -> k1 <> k2 ->
  filteredData data searchTerm
    (handleDrillDown k1 v1 (handleDrillDown k2 v2 activeFilters)) =
  filteredData data searchTerm
    (handleDrillDown k2 v2 (handleDrillDown k1 v1 activeFilters)).
Proof.
  intros Hc Hne.
  assert (H1 : canonical (defineOwn activeFilters k1 v1))
    by now apply canonical_defineOwn.
  assert (H2 : canonical (defineOwn activeFilters k2 v2))
    by now apply canonical_defineOwn.
  rewrite (handleDrillDown_canonical k2 v2 Hc),
          (handleDrillDown_canonical k1 v1 Hc),
          (handleDrillDown_canonical k1 v1 H2),
          (handleDrillDown_canonical k2 v2 H1).
  rewrite !filteredData_filter. apply filter_ext. intros row. f_equal.
  apply passesFilters_own; try now apply canonical_defineOwn.
  intros k. rewrite !own_defineOwn.
  destruct (String.eqb_spec k1 k) as [Heq1 | _];
    destruct (String.eqb_spec k2 k) as [Heq2 | _]; congruence.
Qed.

Lemma drill_down_order_is_irrelevant_witness :
  filteredData Samples.catRows EmptyString
    (handleDrillDown "cat" (VString "x")
       (handleDrillDown "v" (VString "3.0") [])) =
  filteredData Samples.catRows EmptyString
    (handleDrillDown "v" (VString "3.0")
       (handleDrillDown "cat" (VString "x") [])).
Proof.
  apply drill_down_order_is_irrelevant; [reflexivity | discriminate].
Defined.

(** *** Drill-down from a chart *)

Lemma strictEq_refl (x : number) : x <> NaN -> strictEq x x = true.
Proof.
  unfold strictEq, SFeqb, SFcompare.
  destruct x as [s | s | | s m e]; try (now destruct s);
    [intros H; now contradiction H |].
  intros _. rewrite Z.compare_refl, Pos.compare_cont_refl. now destruct s.
Qed.

Lemma looseEq_refl (v : JS.value) : v <> VNumber NaN -> looseEq v v = true.
Proof.
  destruct v as [| x | s | p]; simpl; intros Hv;
    try apply String.eqb_refl; [reflexivity |].
  apply strictEq_refl. congruence.
Qed.

(** X6: a click on an element of a chart filters the dashboard by the value
    of the row under it, and that row is still shown afterwards (a cell that
    holds NaN apart, which equals nothing). *)
Theorem clicked_row_stays (data : list object) (searchTerm : string)
    (activeFilters : FilterState) (config : ChartConfig) (row : object)
    (key : string) (value : JS.value) :
  canonical activeFilters ->
  In row (filteredData data searchTerm activeFilters) ->
  handleClick config row = Some (key, value) ->
  value <> VNumber NaN ->
  key = xKey config /\ value = Get row (xKey config) /\
  In row (filteredData data searchTerm
            (handleDrillDown key value activeFilters)).
Proof.
  intros Hc Hin Hclick Hvalue.
  assert (Hkv : key = xKey config /\ value = Get row (xKey config)).
  { unfold handleClick in Hclick.
    destruct (Get row (xKey config)); [discriminate | | |];
      injection Hclick as <- <-; now split. }
  destruct Hkv as [Hkey Hval]. split; [assumption | split; [assumption |]].
  rewrite (handleDrillDown_canonical key value Hc).
  rewrite filteredData_filter, filter_In, andb_true_iff in *.
  destruct Hin as [Hdata [Hpass Hsearch]].
  split; [assumption | split; [| assumption]].
  unfold passesFilters, entries in *. rewrite forallb_forall in *.
  intros [k v] Hkv.
  apply (canonical_own_In _ _ (canonical_defineOwn key value Hc)) in Hkv.
  rewrite own_defineOwn in Hkv. simpl.
  destruct (String.eqb_spec key k) as [Heq | Hne].
  - injection Hkv as <-. subst k. rewrite Hkey, <- Hval.
    now apply looseEq_refl.
  - apply (canonical_own_In _ _ Hc) in Hkv. apply (Hpass (k, v) Hkv).
Qed.

Lemma clicked_row_stays_witness :
  In (hd [] Samples.catRows)
     (filteredData Samples.catRows EmptyString
        (handleDrillDown "cat" (VString "x") [])).
Proof.
  apply (@clicked_row_stays Samples.catRows EmptyString []
           (Samples.chart "cat" "v" None) (hd [] Samples.catRows)
           "cat" (VString "x"));
    [reflexivity | now left | reflexivity | discriminate].
Defined.

(** *** The search *)

Lemma lowerChar_idem (c : ascii) : lowerChar (lowerChar c) = lowerChar c.
Proof.
  destruct c as [[] [] [] [] [] [] [] []]; reflexivity.
Qed.

Lemma isWhiteSpace_lowerChar (c : ascii) :
  isWhiteSpace (lowerChar c) = isWhiteSpace c.
Proof.
  destruct c as [[] [] [] [] [] [] [] []]; reflexivity.
Qed.

Lemma toLowerCase_idem (s : string) :
  toLowerCase (toLowerCase s) = toLowerCase s.
Proof.
  induction s as [| c s IH]; simpl; [reflexivity |].
  now rewrite lowerChar_idem, IH.
Qed.

Lemma trimStart_toLowerCase (s : string) :
  trimStart (toLowerCase s) = toLowerCase (trimStart s).
Proof.
  induction s as [| c s IH]; simpl; [reflexivity |].
  rewrite isWhiteSpace_lowerChar. now destruct (isWhiteSpace c).
Qed.

Lemma trimEnd_toLowerCase (s : string) :
  trimEnd (toLowerCase s) = toLowerCase (trimEnd s).
Proof.
  induction s as [| c s IH]; simpl; [reflexivity |].
  rewrite IH, isWhiteSpace_lowerChar.
  destruct (trimEnd s); simpl; [now destruct (isWhiteSpace c) | reflexivity].
Qed.

Lemma trim_toLowerCase (s : string) :
  trim (toLowerCase s) = toLowerCase (trim s).
Proof.
  unfold trim. now rewrite trimStart_toLowerCase, trimEnd_toLowerCase.
Qed.

Lemma isEmpty_toLowerCase (s : string) :
  isEmpty (toLowerCase s) = isEmpty s.
Proof. now destruct s. Qed.

(** X7: the search ignores the case of the term: a term and its lower-case
    form show the same rows. *)
Theorem search_ignores_case (data : list object) (searchTerm : string)
    (activeFilters : FilterState) :
  filteredData data (toLowerCase searchTerm) activeFilters =
  filteredData data searchTerm activeFilters.
Proof.
  rewrite !filteredData_filter. apply filter_ext. intros row.
  unfold matchesSearch.
  now rewrite trim_toLowerCase, isEmpty_toLowerCase, toLowerCase_idem.
Qed.

(** ** The columns of a parsed dataset *)

Section KeysExt.

Variables A B : Type.

Lemma own_keys_ext (o : props A) (o' : props B) (k : string) :
  keys o = keys o' -> (own o k = None <-> own o' k = None).
Proof. intros H. rewrite !own_None_keys. now rewrite H. Qed.

Lemma keys_insertIndex_ext (i : N) (k : string) (v : A) (v' : B) :
  forall (o : props A) (o' : props B),
    keys o = keys o' ->
    keys (insertIndex o i k v) = keys (insertIndex o' i k v').
Proof.
  unfold keys.
  induction o as [| [k0 v0] o IH]; intros [| [k0' v0'] o'] H;
    try discriminate; [reflexivity |].
  simpl in *. injection H as <- H.
  destruct (arrayIndex k0) as [j |]; [destruct (j <? i)%N |]; simpl;
    f_equal; try assumption; try (now f_equal).
  now apply IH.
Qed.

Lemma keys_defineOwn_ext (o : props A) (o' : props B) (k : string)
    (v : A) (v' : B) :
  keys o = keys o' -> keys (defineOwn o k v) = keys (defineOwn o' k v').
Proof.
  intros H. unfold defineOwn.
  pose proof (own_keys_ext o o' k H) as Hnone.
  destruct (own o k) eqn:Ho, (own o' k) eqn:Ho'.
  - now rewrite !keys_replace.
  - exfalso. assert (Some a = None) by now apply Hnone. discriminate.
  - exfalso. assert (Some b = None) by now apply Hnone. discriminate.
  - destruct (arrayIndex k); [now apply keys_insertIndex_ext |].
    unfold keys in *. rewrite !map_app. simpl. now rewrite H.
Qed.

End KeysExt.

Lemma keys_Put_ext (o o' : object) (k : string) (v v' : JS.value) :
  keys o = keys o' -> keys (Put o k v) = keys (Put o' k v').
Proof.
  intros H. unfold Put.
  pose proof (own_keys_ext o o' k H) as Hnone.
  destruct (own o k) eqn:Ho, (own o' k) eqn:Ho'.
  - now apply keys_defineOwn_ext.
  - exfalso. assert (Some v0 = None) by now apply Hnone. discriminate.
  - exfalso. assert (Some v0 = None) by now apply Hnone. discriminate.
  - destruct (String.eqb k "__proto__"); [assumption |].
    now apply keys_defineOwn_ext.
Qed.

Lemma canonical_Put (o : object) (k : string) (v : JS.value) :
  canonical o -> canonical (Put o k v).
Proof.
  intros H. unfold Put.
  destruct (own o k); [| destruct (String.eqb k "__proto__")];
    try assumption; now apply canonical_defineOwn.
Qed.

Lemma buildRow_keys_from (headers : list string) :
  forall (l1 l2 : list string) (o1 o2 : object),
    List.length l1 = List.length headers ->
    List.length l2 = List.length headers ->
    keys o1 = keys o2 ->
    keys (fold_left putCell (combine headers l1) o1) =
    keys (fold_left putCell (combine headers l2) o2).
Proof.
  induction headers as [| h hs IH]; intros [| f1 l1] [| f2 l2] o1 o2 H1 H2 Hk;
    try discriminate; [assumption |].
  simpl. apply IH; [simpl in H1; congruence | simpl in H2; congruence |].
  unfold putCell; simpl. now apply keys_Put_ext.
Qed.

Lemma buildRow_canonical (headers currentLine : list string) :
  canonical (buildRow headers currentLine).
Proof.
  unfold buildRow.
  assert (H : forall l o, canonical o -> canonical (fold_left putCell l o)).
  { induction l as [| hf l IH]; intros o Ho; simpl; [assumption |].
    apply IH. now apply canonical_Put. }
  apply H. reflexivity.
Qed.

Lemma own_fold_present (l : list (string * string)) (h : string) :
  forall o,
    h <> "__proto__" ->
    In h (map fst l) \/ own o h <> None ->
    own (fold_left putCell l o) h <> None.
Proof.
  induction l as [| [h0 f0] l IH]; intros o Hproto Hin; simpl.
  - destruct Hin as [[] | Hown]. assumption.
  - apply IH; [assumption |]. unfold putCell; simpl.
    destruct (String.eqb_spec h0 h) as [-> | Hne].
    + right. now rewrite own_Put_same.
    + destruct Hin as [[Heq | Hin] | Hown]; [contradiction | now left |].
      right. now rewrite own_Put_other.
Qed.

(** The rows of a parsed dataset have the same columns. *)
Lemma parsed_rows_uniform
    (uuid csvText fileName : string) (dataset : Dataset) (r1 r2 : object) :
  parseCSV uuid csvText fileName = Normal dataset ->
  In r1 (data dataset) -> In r2 (data dataset) -> keys r1 = keys r2.
Proof.
  intros Hparse H1 H2.
  destruct (nonBlankLines csvText) as [| headerLine rest] eqn:Hlines.
  { unfold parseCSV in Hparse. rewrite Hlines in Hparse. discriminate. }
  destruct (@parseCSV_rows_built uuid csvText fileName headerLine rest
              dataset r1 Hlines Hparse H1) as [l1 [_ [Hl1 ->]]].
  destruct (@parseCSV_rows_built uuid csvText fileName headerLine rest
              dataset r2 Hlines Hparse H2) as [l2 [_ [Hl2 ->]]].
  unfold buildRow. now apply buildRow_keys_from.
Qed.

(** X8: every row of the dataset [parseCSV] returns has the same property
    names in the same order; they are names of the header, and each header
    other than [__proto__] is one of them. *)
Theorem parsed_rows_have_the_columns_of_the_header
    (uuid csvText fileName headerLine : string) (rest : list string)
    (dataset : Dataset) :
  nonBlankLines csvText = headerLine :: rest ->
  parseCSV uuid csvText fileName = Normal dataset ->
  let headers := parseHeaders headerLine in
  forall row, In row (data dataset) ->
    canonical row /\
    keys row = keys (buildRow headers headers) /\
    (forall k, In k (keys row) -> In k headers) /\
    (forall h, In h headers -> h <> "__proto__" -> In h (keys row)) /\
    (forall row', In row' (data dataset) -> keys row' = keys row).
Proof.
  intros Hlines Hparse headers row Hrow.
  destruct (@parseCSV_rows_built uuid csvText fileName headerLine rest
              dataset row Hlines Hparse Hrow) as [line [_ [Hlen Hbuilt]]].
  fold headers in Hlen, Hbuilt.
  assert (Hfst : map fst (combine headers (split commaChar line)) = headers).
  { clear - Hlen. revert Hlen. generalize (split commaChar line).
    induction headers as [| x xs IH]; intros [| y ys] Hlen;
      try discriminate; [reflexivity |].
    simpl. f_equal. apply IH. simpl in Hlen. congruence. }
  split; [rewrite Hbuilt; apply buildRow_canonical | split; [| split; [| split]]].
  - rewrite Hbuilt. unfold buildRow.
    now apply buildRow_keys_from.
  - intros k Hk.
    destruct (in_dec string_dec k headers) as [Hin | Hnot]; [assumption |].
    exfalso. revert Hk. apply own_None_keys. rewrite Hbuilt. unfold buildRow.
    rewrite own_fold_other; [reflexivity | now rewrite Hfst].
  - intros h Hh Hproto.
    destruct (in_dec string_dec h (keys row)) as [Hin | Hnot]; [assumption |].
    exfalso. apply own_None_keys in Hnot. revert Hnot. rewrite Hbuilt.
    apply own_fold_present; [assumption | left; now rewrite Hfst].
  - intros row' Hrow'. eapply parsed_rows_uniform; eassumption.
Qed.

Lemma parsed_rows_have_the_columns_of_the_header_witness :
  exists dataset,
    parseCSV "id-1" Samples.smallCsv "small.csv" = Normal dataset /\
    forall row, In row (data dataset) -> keys row = ["name"; "qty"].
Proof.
  destruct (parseCSV "id-1" Samples.smallCsv "small.csv") as [dataset | e]
    eqn:Hparse; [| vm_compute in Hparse; discriminate Hparse].
  exists dataset. split; [reflexivity |]. intros row Hrow.
  destruct (@parsed_rows_have_the_columns_of_the_header
              "id-1" Samples.smallCsv "small.csv" "name,qty"
              [ "pen," ++ String quoteChar ("42" ++ String quoteChar EmptyString);
                "ink," ++ String quoteChar ("42abc" ++ String quoteChar EmptyString) ]
              dataset eq_refl Hparse row Hrow) as [_ [Hkeys _]].
  rewrite Hkeys. reflexivity.
Defined.

(** ** The chart renderer *)

Lemma firstn_min_length (A : Type) (n : nat) (l : list A) :
  firstn (Nat.min n (List.length l)) l = firstn n l.
Proof.
  destruct (Nat.le_ge_cases n (List.length l)) as [H | H].
  - now rewrite Nat.min_l.
  - rewrite Nat.min_r by assumption.
    now rewrite firstn_all, firstn_all2.
Qed.

(** [a.slice(0, n)] is the first [n] elements. *)
Lemma slice_0 (A : Type) (n : nat) (l : list A) :
  slice 0 (Z.of_nat n) l = firstn n l.
Proof.
  unfold slice.
  assert (H0 : (0 <? 0)%Z = false) by reflexivity. rewrite H0.
  assert (Hn : (Z.of_nat n <? 0)%Z = false) by (apply Z.ltb_ge; lia).
  rewrite Hn.
  replace (Z.to_nat (Z.min 0 (Z.of_nat (List.length l)))) with 0%nat by lia.
  replace (Z.to_nat (Z.max (Z.min (Z.of_nat n) (Z.of_nat (List.length l))
                            - Z.min 0 (Z.of_nat (List.length l))) 0))
    with (Nat.min n (List.length l)) by lia.
  simpl skipn. apply firstn_min_length.
Qed.

Lemma chartData_firstn (data : list object) :
  chartData data =
  if Nat.ltb 2000 (List.length data) then firstn 500 data else data.
Proof.
  unfold chartData. destruct (Nat.ltb 2000 (List.length data)); [| reflexivity].
  apply (slice_0 500).
Qed.

Lemma chartData_head (data : list object) (row : object) (rows : list object) :
  data = row :: rows -> exists rows', chartData data = row :: rows'.
Proof.
  intros ->. rewrite chartData_firstn.
  destruct (Nat.ltb 2000 _); [| now eexists].
  change 500 with (S 499). rewrite firstn_cons. now eexists.
Qed.

(** X9: the renderer never draws more than 2000 rows: a longer input is cut
    to its first 500, a shorter one is drawn whole, and a pie shows at most
    ten of them. *)
Theorem chart_rows_are_bounded (config : ChartConfig) (data : list object) :
  (exists rest, data = (chartData data ++ rest)%list) /\
  List.length (chartData data) <= 2000 /\
  (List.length data <= 2000 -> chartData data = data) /\
  (2000 < List.length data -> List.length (chartData data) = 500) /\
  (forall kind points,
      ChartRenderer config data = Chart kind points ->
      kind = chart_type config /\
      points = (if match kind with PIE => true | _ => false end
                then firstn 10 (chartData data) else chartData data)).
Proof.
  rewrite chartData_firstn.
  destruct (Nat.ltb_spec 2000 (List.length data)) as [Hlong | Hshort].
  - split; [exists (skipn 500 data); now rewrite firstn_skipn |].
    split; [rewrite length_firstn; lia |].
    split; [lia |]. split; [intros _; rewrite length_firstn; lia |].
    intros kind points. unfold ChartRenderer.
    destruct (negb _ || _); [discriminate |].
    rewrite chartData_firstn, (proj2 (Nat.ltb_lt _ _) Hlong).
    destruct (chart_type config); intros [= <- <-]; split; try reflexivity.
    apply (slice_0 10).
  - split; [exists []; now rewrite app_nil_r |].
    split; [assumption |]. split; [reflexivity |]. split; [lia |].
    intros kind points. unfold ChartRenderer.
    destruct (negb _ || _); [discriminate |].
    rewrite chartData_firstn, (proj2 (Nat.ltb_ge _ _) Hshort).
    destruct (chart_type config); intros [= <- <-]; split; try reflexivity.
    apply (slice_0 10).
Qed.

Lemma hasProperty_key (row : object) (k : string) :
  In k (keys row) -> hasProperty row k = true.
Proof.
  intros Hin. unfold hasProperty.
  destruct (own row k) eqn:Hown; [reflexivity |].
  now apply own_None_keys in Hown.
Qed.

(** X10: every chart that is left after the reconciliation of an analysis
    with a parsed dataset can be drawn on whatever rows of that dataset the
    dashboard shows, if it shows any: the renderer finds both keys. *)
Theorem reconciled_charts_render
    (uuid csvText fileName : string) (dataset : Dataset)
    (raw : AnalysisResult) (chart : ChartConfig)
    (searchTerm : string) (activeFilters : FilterState) :
  parseCSV uuid csvText fileName = Normal dataset ->
  In chart (recommendedCharts (sanitizeAnalysisResult raw dataset)) ->
  filteredData (data dataset) searchTerm activeFilters <> [] ->
  exists points,
    ChartRenderer chart (filteredData (data dataset) searchTerm activeFilters)
      = Chart (chart_type chart) points /\
    points <> [].
Proof.
  intros Hparse Hchart Hshown.
  destruct (filteredData (data dataset) searchTerm activeFilters)
    as [| row rows] eqn:Hfiltered; [contradiction |].
  assert (Hrow : In row (data dataset)).
  { assert (H : In row (filteredData (data dataset) searchTerm activeFilters))
      by (rewrite Hfiltered; now left).
    rewrite filteredData_filter in H. now apply filter_In in H. }
  destruct (data dataset) as [| row0 rest] eqn:Hdata; [contradiction |].
  assert (Hkeys : In (xKey chart) (keys row) /\ In (yKey chart) (keys row)).
  { unfold sanitizeAnalysisResult in Hchart. rewrite Hdata in Hchart.
    simpl in Hchart. apply filter_In in Hchart.
    destruct Hchart as [_ Hvalid]. apply andb_true_iff in Hvalid.
    rewrite !includesKey_In in Hvalid.
    assert (Hsame : keys row = keys row0).
    { eapply parsed_rows_uniform; [exact Hparse | |];
        rewrite Hdata; [assumption | now left]. }
    now rewrite Hsame. }
  destruct (chartData_head eq_refl : exists rows',
              chartData (row :: rows) = row :: rows') as [rows' Hcd].
  unfold ChartRenderer. rewrite Hcd. simpl isValidKey.
  rewrite (hasProperty_key _ _ (proj1 Hkeys)),
          (hasProperty_key _ _ (proj2 Hkeys)).
  simpl.
  destruct (chart_type chart); eexists; (split; [reflexivity |]);
    try discriminate.
  change 10%Z with (Z.of_nat 10). rewrite slice_0. discriminate.
Qed.

Lemma reconciled_charts_render_witness :
  exists dataset points,
    parseCSV "id-1" Samples.smallCsv "small.csv" = Normal dataset /\
    ChartRenderer (Samples.chart "name" "qty" None)
                  (filteredData (data dataset) "PEN" []) =
      Chart BAR points.
Proof.
  destruct (parseCSV "id-1" Samples.smallCsv "small.csv") as [dataset | e]
    eqn:Hparse; [| vm_compute in Hparse; discriminate Hparse].
  assert (Hd : dataset =
               match parseCSV "id-1" Samples.smallCsv "small.csv" with
               | Normal d => d
               | Throw _ => dataset
               end) by now rewrite Hparse.
  destruct (@reconciled_charts_render "id-1" Samples.smallCsv "small.csv"
              dataset (Samples.proposal [Samples.chart "Name" "QTY" None])
              (Samples.chart "name" "qty" None) "PEN" [] Hparse)
    as [points [Hview _]].
  - rewrite Hd. vm_compute. now left.
  - rewrite Hd. vm_compute. discriminate.
  - exists dataset, points. split; [reflexivity | exact Hview].
Defined.

(** ** The data studio *)

(** [a.slice(start, end)] between two indices that are not negative. *)
Lemma slice_nat (A : Type) (a b : nat) (l : list A) :
  slice (Z.of_nat a) (Z.of_nat b) l = firstn (b - a) (skipn a l).
Proof.
  unfold slice.
  assert (Ha : (Z.of_nat a <? 0)%Z = false) by (apply Z.ltb_ge; lia).
  assert (Hb : (Z.of_nat b <? 0)%Z = false) by (apply Z.ltb_ge; lia).
  rewrite Ha, Hb.
  destruct (Nat.le_gt_cases a (List.length l)) as [Hle | Hgt].
  - replace (Z.to_nat (Z.min (Z.of_nat a) (Z.of_nat (List.length l))))
      with a by lia.
    destruct (Nat.le_gt_cases b (List.length l)) as [Hb' | Hb'].
    + f_equal. lia.
    + rewrite !firstn_all2; [reflexivity | |]; rewrite length_skipn; lia.
  - rewrite !(skipn_all2 l) by lia. now rewrite !firstn_nil.
Qed.

Lemma paginatedData_firstn (data : list object) (p : nat) :
  paginatedData data (Z.of_nat (S p)) = firstn 50 (skipn (50 * p) data).
Proof.
  unfold paginatedData, rowsPerPage.
  replace ((Z.of_nat (S p) - 1) * 50)%Z with (Z.of_nat (50 * p)) by lia.
  replace (Z.of_nat (S p) * 50)%Z with (Z.of_nat (50 * p + 50)) by lia.
  rewrite slice_nat. f_equal. lia.
Qed.

Lemma firstn_plus (A : Type) (a b : nat) (l : list A) :
  firstn (a + b) l = (firstn a l ++ firstn b (skipn a l))%list.
Proof.
  revert l. induction a as [| a IH]; intros l; [reflexivity |].
  destruct l as [| x l]; simpl.
  - now rewrite firstn_nil.
  - now rewrite IH.
Qed.

Lemma pages_firstn (data : list object) (n : nat) :
  List.concat (map (fun p => paginatedData data (Z.of_nat (S p))) (seq 0 n)) =
  firstn (50 * n) data.
Proof.
  induction n as [| n IH]; [reflexivity |].
  rewrite seq_S, map_app, List.concat_app, IH, Nat.add_0_l.
  cbn [map List.concat]. rewrite app_nil_r, paginatedData_firstn.
  replace (50 * S n) with (50 * n + 50) by lia.
  now rewrite firstn_plus.
Qed.

(** X11: the pages of the data studio are the rows cut into runs of 50: a
    page has at most 50 rows, its row [i] is row [(page - 1) * 50 + i] of
    the data, and the pages from 1 on, one after the other, are the data. *)
Theorem pages_partition_the_rows (data : list object) :
  (forall p,
      List.length (paginatedData data (Z.of_nat (S p))) <= 50 /\
      forall i, i < 50 ->
                nth_error (paginatedData data (Z.of_nat (S p))) i =
                nth_error data (50 * p + i)) /\
  (forall n,
      List.length data <= 50 * n ->
      List.concat (map (fun p => paginatedData data (Z.of_nat (S p))) (seq 0 n)) =
      data).
Proof.
  split.
  - intros p. rewrite paginatedData_firstn. split.
    + rewrite length_firstn. lia.
    + intros i Hi. rewrite nth_error_firstn, nth_error_skipn.
      now rewrite (proj2 (Nat.ltb_lt _ _) Hi).
  - intros n Hn. rewrite pages_firstn. now apply firstn_all2.
Qed.

Lemma pages_partition_the_rows_witness :
  List.concat (map (fun p => paginatedData Samples.eightyRows (Z.of_nat (S p)))
              (seq 0 2)) = Samples.eightyRows.
Proof.
  apply (proj2 (pages_partition_the_rows Samples.eightyRows) 2).
  vm_compute. lia.
Defined.

Section SpreadFacts.
Variable A : Type.

Lemma own_spread (o : props A) (k : string) :
  canonical o -> own (spread o) k = own o k.
Proof. intros Ho. now rewrite spread_canonical. Qed.

End SpreadFacts.

Lemma Get_editRow_same (row : object) (key value : string) :
  Get (editRow row key value) key = editedValue value.
Proof.
  unfold editRow, Get. rewrite own_defineOwn.
  now rewrite String.eqb_refl.
Qed.

Lemma Get_editRow_other (row : object) (key value k : string) :
  canonical row -> k <> key ->
  Get (editRow row key value) k = Get row k.
Proof.
  intros Hrow Hne. unfold editRow, Get. rewrite own_defineOwn.
  rewrite (proj2 (String.eqb_neq key k)) by congruence.
  now rewrite spread_canonical.
Qed.

(** X12: an edit of the cell [key] of the row shown at [rowIndex] of a page
    replaces that row of the data and no other: the array keeps its length
    and has no hole, the page shows the edited row at the same place, the
    edited row reads as the typed value under [key] and as before under
    every other name, and it keeps the shape of an object. *)
Theorem cell_edit_changes_the_row_shown
    (data : list object) (p i : nat) (key value : string) (row : object) :
  nth_error (paginatedData data (Z.of_nat (S p))) i = Some row ->
  canonical row ->
  exists newData,
    handleCellEdit data (Z.of_nat (S p)) (Z.of_nat i) key value =
      map Some newData /\
    List.length newData = List.length data /\
    nth_error (paginatedData newData (Z.of_nat (S p))) i =
      Some (editRow row key value) /\
    (forall j, j <> 50 * p + i -> nth_error newData j = nth_error data j) /\
    Get (editRow row key value) key = editedValue value /\
    (forall k, k <> key -> Get (editRow row key value) k = Get row k) /\
    canonical (editRow row key value).
Proof.
  intros Hshown Hrow.
  rewrite paginatedData_firstn, nth_error_firstn, nth_error_skipn in Hshown.
  destruct (Nat.ltb_spec i 50) as [Hi | Hi]; [| discriminate].
  assert (Hlen : 50 * p + i < List.length data).
  { apply nth_error_Some. now rewrite Hshown. }
  exists (firstn (50 * p + i) data ++
          editRow row key value :: skipn (S (50 * p + i)) data)%list.
  assert (Hlen' :
    List.length (firstn (50 * p + i) data ++
                 editRow row key value :: skipn (S (50 * p + i)) data)%list =
    List.length data).
  { rewrite length_app, length_firstn, length_cons, length_skipn. lia. }
  split; [| split; [exact Hlen' | split; [| split; [| split; [| split]]]]].
  - unfold handleCellEdit, rowsPerPage.
    replace ((Z.of_nat (S p) - 1) * 50 + Z.of_nat i)%Z
      with (Z.of_nat (50 * p + i)) by lia.
    assert (H0 : (Z.of_nat (50 * p + i) <? 0)%Z = false)
      by (apply Z.ltb_ge; lia).
    rewrite H0, Nat2Z.id, Hshown.
    rewrite map_app. simpl map. now rewrite firstn_map, skipn_map.
  - rewrite paginatedData_firstn, nth_error_firstn, nth_error_skipn.
    rewrite (proj2 (Nat.ltb_lt _ _) Hi).
    rewrite nth_error_app2 by (rewrite length_firstn; lia).
    rewrite length_firstn.
    replace (50 * p + i - Nat.min (50 * p + i) (List.length data)) with 0
      by lia.
    reflexivity.
  - intros j Hj.
    destruct (Nat.lt_ge_cases j (50 * p + i)) as [Hlt | Hge].
    + rewrite nth_error_app1 by (rewrite length_firstn; lia).
      rewrite nth_error_firstn. now rewrite (proj2 (Nat.ltb_lt _ _) Hlt).
    + rewrite nth_error_app2 by (rewrite length_firstn; lia).
      rewrite length_firstn.
      replace (j - Nat.min (50 * p + i) (List.length data))
        with (S (j - S (50 * p + i))) by lia.
      cbn [nth_error]. rewrite nth_error_skipn. f_equal. lia.
  - apply Get_editRow_same.
  - intros k Hk. now apply Get_editRow_other.
  - unfold editRow. apply canonical_defineOwn.
    now rewrite spread_canonical.
Qed.

Lemma cell_edit_changes_the_row_shown_witness :
  exists newData,
    handleCellEdit Samples.eightyRows 2 5 "v" "7" = map Some newData /\
    nth_error newData 55 =
      Some [("cat", VString "g55"); ("v", Samples.num 7)].
Proof.
  destruct (@cell_edit_changes_the_row_shown Samples.eightyRows 1 5 "v" "7"
              [("cat", VString "g55"); ("v", VNumber (ofNat 55))]
              eq_refl eq_refl)
    as [newData [Hedit [_ [Hshown _]]]].
  exists newData. split; [exact Hedit |].
  rewrite paginatedData_firstn, nth_error_firstn, nth_error_skipn in Hshown.
  exact Hshown.
Defined.

(** ** File upload *)

(** X13: a file is refused for its kind only when neither its type nor its
    name says CSV; an accepted file fails to parse exactly when its text has
    no line that is not blank, and otherwise is loaded as the dataset
    [parseCSV] returns, under the name of the file, with at most 3000 of the
    rows that were counted. *)
Theorem upload_outcomes (uuid fileType fileName text : string) :
  match processFile uuid fileType fileName text with
  | DataLoaded dataset =>
      (fileType = "text/csv" \/ endsWith fileName ".csv" = true) /\
      nonBlankLines text <> [] /\
      parseCSV uuid text fileName = Normal dataset /\
      dataset_id dataset = uuid /\
      dataset_name dataset = fileName /\
      analysis dataset = None /\
      List.length (data dataset) <= 3000 /\
      List.length (data dataset) <= rowCount dataset
  | UploadError message =>
      (message = "Please upload a valid CSV file." /\
       fileType <> "text/csv" /\ endsWith fileName ".csv" = false) \/
      (message = "Failed to parse CSV. Please check the file format." /\
       (fileType = "text/csv" \/ endsWith fileName ".csv" = true) /\
       nonBlankLines text = [])
  end.
Proof.
  unfold processFile.
  assert (Hkind :
    forall b, negb (String.eqb fileType "text/csv")
              && negb (endsWith fileName ".csv") = b ->
    if b then fileType <> "text/csv" /\ endsWith fileName ".csv" = false
    else fileType = "text/csv" \/ endsWith fileName ".csv" = true).
  { intros b <-.
    destruct (String.eqb_spec fileType "text/csv") as [Heq | Hne]; simpl;
      [now left |].
    destruct (endsWith fileName ".csv"); simpl; [now right | now split]. }
  specialize (Hkind _ eq_refl).
  destruct (negb (String.eqb fileType "text/csv")
            && negb (endsWith fileName ".csv")).
  - left. now split.
  - unfold parseCSV.
    destruct (nonBlankLines text) as [| headerLine rest].
    + right. now repeat split.
    + cbn [dataset_id dataset_name data rowCount analysis].
      repeat split; try assumption; try discriminate.
      * rewrite length_firstn. lia.
      * rewrite length_firstn. lia.
Qed.

(** ** Typed cells and parsed cells *)

Lemma trimStart_head (s : string) :
  match trimStart s with
  | EmptyString => True
  | String c _ => isWhiteSpace c = false
  end.
Proof.
  induction s as [| c s IH]; simpl; [exact I |].
  destruct (isWhiteSpace c) eqn:Hc; [exact IH | exact Hc].
Qed.

Lemma trimEnd_idem (s : string) : trimEnd (trimEnd s) = trimEnd s.
Proof.
  induction s as [| c s IH]; [reflexivity |].
  cbn [trimEnd]. destruct (trimEnd s) as [| d t] eqn:Ht.
  - destruct (isWhiteSpace c) eqn:Hc; [reflexivity |].
    cbn [trimEnd]. now rewrite Hc.
  - change (trimEnd (String c (String d t)))
      with (match trimEnd (String d t) with
            | EmptyString =>
                if isWhiteSpace c then EmptyString else String c EmptyString
            | String e u => String c (String e u)
            end).
    now rewrite IH.
Qed.

Lemma trimStart_trimEnd (s : string) :
  match s with
  | EmptyString => True
  | String c _ => isWhiteSpace c = false
  end ->
  trimStart (trimEnd s) = trimEnd s.
Proof.
  destruct s as [| c s]; [reflexivity |]. intros Hc.
  cbn [trimEnd]. destruct (trimEnd s) as [| d t].
  - rewrite Hc. cbn [trimStart]. now rewrite Hc.
  - cbn [trimStart]. now rewrite Hc.
Qed.

Lemma trim_idem (s : string) : trim (trim s) = trim s.
Proof.
  unfold trim. rewrite (trimStart_trimEnd _ (trimStart_head s)).
  apply trimEnd_idem.
Qed.

Lemma StringToNumber_trim (s : string) :
  StringToNumber (trim s) = StringToNumber s.
Proof. unfold StringToNumber. now rewrite trim_idem. Qed.

(** X14: a text with no quote at either end, typed into a cell of the data
    studio, is stored as the number the parser stores for it as a field of
    the file whenever the parser stores a number; a text the parser keeps as
    a string is kept as typed, where the parser keeps it trimmed. *)
Theorem typed_cells_agree_with_parsed_cells (text : string) :
  stripQuotes (trim text) = trim text ->
  match parseCell text with
  | VNumber x => editedValue text = VNumber x
  | VString s => s = trim text /\ editedValue text = VString text
  | _ => False
  end.
Proof.
  intros Hplain. unfold parseCell, editedValue.
  rewrite Hplain, StringToNumber_trim.
  destruct (negb (isNaN (StringToNumber text)) && negb (isEmpty (trim text)));
    [reflexivity | now split].
Qed.

Lemma typed_cells_agree_with_parsed_cells_witness :
  editedValue " 42 " = Samples.num 42 /\
  editedValue "4 2" = VString "4 2".
Proof.
  split.
  - apply (typed_cells_agree_with_parsed_cells " 42 "). reflexivity.
  - apply (typed_cells_agree_with_parsed_cells "4 2"). reflexivity.
Defined.

(** ** Intent post-processing *)

Lemma IsLessThan_number_l (x y : JS.value) :
  primString x = None ->
  IsLessThan x y = lessThan (ToNumber x) (ToNumber y).
Proof. unfold IsLessThan. now intros ->. Qed.

Lemma IsLessThan_number_r (x y : JS.value) :
  primString x = None ->
  IsLessThan y x = lessThan (ToNumber y) (ToNumber x).
Proof.
  unfold IsLessThan. intros ->. now destruct (primString y).
Qed.

(** X15: the pass over the filters of an intent changes neither the column
    nor the operator of a filter, leaves a [contains] filter as it is, does
    nothing when applied a second time, and does not change the outcome of
    an order comparison on a cell that is no string. *)
Theorem coerceFilter_is_stable (f : QueryFilter) :
  column (coerceFilter f) = column f /\
  operator (coerceFilter f) = operator f /\
  (operator f = "contains" -> coerceFilter f = f) /\
  coerceFilter (coerceFilter f) = coerceFilter f /\
  (forall row,
      In (operator f) [">"; "<"; ">="; "<="] ->
      primString (Get row (column f)) = None ->
      evalFilter row (coerceFilter f) = evalFilter row f).
Proof.
  unfold coerceFilter.
  destruct (isNaN (ToNumber (value f))) eqn:Hnan; simpl negb; cbn [andb].
  - repeat split; try reflexivity. now rewrite Hnan.
  - destruct (String.eqb_spec (operator f) "contains") as [Hop | Hop];
      cbn [negb].
    + repeat split; try reflexivity. rewrite Hnan, Hop. reflexivity.
    + cbn [column operator value ToNumber].
      split; [reflexivity |]. split; [reflexivity |].
      split; [intros H; contradiction |].
      split.
      * rewrite Hnan. cbn [negb andb].
        now rewrite (proj2 (String.eqb_neq _ _) Hop).
      * intros row Hin Hcell. unfold evalFilter.
        cbn [column operator value].
        unfold gt, lt, ge, le.
        rewrite !(@IsLessThan_number_l _ _ Hcell),
          !(@IsLessThan_number_r _ _ Hcell).
        cbn [ToNumber].
        destruct Hin as [<- | [<- | [<- | [<- | []]]]]; reflexivity.
Qed.

Lemma coerceFilter_is_stable_witness :
  evalFilter [("v", Samples.num 9)]
             (coerceFilter {| column := "v"; operator := ">";
                              value := VString "10" |}) = false.
Proof.
  set (f := {| column := "v"; operator := ">"; value := VString "10" |}).
  destruct (coerceFilter_is_stable f) as [_ [_ [_ [_ H]]]].
  rewrite (H [("v", Samples.num 9)]); [| simpl; tauto | reflexivity].
  vm_compute. reflexivity.
Defined.

(** ** Reconciliation, once more *)

Lemma find_In (A : Type) (p : A -> bool) (l : list A) (x : A) :
  find p l = Some x -> In x l.
Proof. intros H. now apply find_some in H. Qed.

Lemma findKey_cases (validKeys : list string) (key : string) :
  findKey validKeys key = key \/ In (findKey validKeys key) validKeys.
Proof.
  unfold findKey.
  destruct (isEmpty key); [now left |].
  destruct (includesKey validKeys key); [now left |].
  destruct (find _ validKeys) as [m |] eqn:Hfind; [| now left].
  destruct (isEmpty m); [now left |].
  right. now apply find_In in Hfind.
Qed.

Lemma findKey_idem (validKeys : list string) (key : string) :
  findKey validKeys (findKey validKeys key) = findKey validKeys key.
Proof.
  destruct (findKey_cases validKeys key) as [H | H].
  - congruence.
  - now apply findKey_exact.
Qed.

Lemma findKey_not_empty (validKeys : list string) (key : string) :
  isEmpty key = false -> isEmpty (findKey validKeys key) = false.
Proof.
  intros Hkey. unfold findKey. rewrite Hkey.
  destruct (includesKey validKeys key); [assumption |].
  destruct (find _ validKeys) as [m |]; [| assumption].
  destruct (isEmpty m) eqn:Hm; assumption.
Qed.

Lemma sanitizeChart_idem (validKeys : list string) (chart : ChartConfig) :
  sanitizeChart validKeys (sanitizeChart validKeys chart) =
  sanitizeChart validKeys chart.
Proof.
  unfold sanitizeChart. cbn [chart_id chart_type chart_title
    chart_description xKey yKey categoryKey].
  rewrite !findKey_idem. f_equal.
  destruct (categoryKey chart) as [c |]; [| reflexivity].
  cbn [truthy]. destruct (isEmpty c) eqn:Hc; [reflexivity |].
  cbn [truthy]. rewrite (findKey_not_empty validKeys c Hc).
  now rewrite findKey_idem.
Qed.

(** X16: reconciling a reconciled analysis against the same dataset changes
    nothing: the charts it kept name columns of the dataset. *)
Theorem sanitizeAnalysisResult_idempotent
    (result : AnalysisResult) (dataset : Dataset) :
  sanitizeAnalysisResult (sanitizeAnalysisResult result dataset) dataset =
  sanitizeAnalysisResult result dataset.
Proof.
  unfold sanitizeAnalysisResult.
  destruct (data dataset) as [| row0 rows]; [reflexivity |].
  cbn [summary columns recommendedCharts insights]. f_equal.
  set (valid := fun chart : ChartConfig =>
                  includesKey (keys row0) (xKey chart)
                  && includesKey (keys row0) (yKey chart)).
  induction (recommendedCharts result) as [| chart charts IH];
    [reflexivity |].
  cbn [map List.filter].
  destruct (valid (sanitizeChart (keys row0) chart)) eqn:Hvalid.
  - cbn [map List.filter]. rewrite sanitizeChart_idem, Hvalid.
    f_equal. exact IH.
  - exact IH.
Qed.

(** ** The chat *)

Lemma names_nil (p : ColumnProfile -> bool) (columns : list ColumnProfile) :
  map name (List.filter p columns) = [] <->
  forall c, In c columns -> p c = false.
Proof.
  induction columns as [| c columns IH]; simpl.
  - split; [intros _ c [] | reflexivity].
  - destruct (p c) eqn:Hc; simpl.
    + split; [discriminate |]. intros H. specialize (H c (or_introl eq_refl)).
      congruence.
    + rewrite IH. split.
      * intros H c' [<- | Hin]; [assumption | now apply H].
      * intros H c' Hin. apply H. now right.
Qed.

(** X17: the welcome message makes two suggestions, unless every column is a
    date column (or there is none): then the only one is the summary. The
    cut at three never removes one. With a numeric column, the first
    suggestion asks for the average of the first of them. *)
Theorem suggestions_count (columns : list ColumnProfile) :
  ((forall c, In c columns -> type c = datetime) ->
   suggestions columns = ["Summarize the key insights"]) /\
  ((exists c, In c columns /\ type c <> datetime) ->
   List.length (suggestions columns) = 2) /\
  (forall n0 rest,
      map name (List.filter (fun c => isNumericType (type c)) columns)
        = n0 :: rest ->
      hd_error (suggestions columns) =
        Some ("What is the average **" ++ n0 ++ "**?")).
Proof.
  unfold suggestions.
  set (numericCols :=
         map name (List.filter (fun c => isNumericType (type c)) columns)).
  set (catCols :=
         map name (List.filter (fun c => match type c with
                                         | categorical | text => true
                                         | _ => false
                                         end) columns)).
  set (dateCols :=
         map name (List.filter (fun c => match type c with
                                         | datetime => true
                                         | _ => false
                                         end) columns)).
  split; [| split].
  - intros Hdates.
    assert (Hnum : numericCols = []).
    { apply names_nil. intros c Hc. now rewrite (Hdates c Hc). }
    assert (Hcat : catCols = []).
    { apply names_nil. intros c Hc. now rewrite (Hdates c Hc). }
    rewrite Hnum, Hcat. now destruct dateCols.
  - intros [c [Hc Htype]].
    assert (Hsome : numericCols <> [] \/ catCols <> []).
    { destruct (type c) eqn:Hty; try contradiction.
      - left. intros H. pose proof (proj1 (names_nil _ _) H c Hc) as H'.
        cbv beta in H'. now rewrite Hty in H'.
      - right. intros H. pose proof (proj1 (names_nil _ _) H c Hc) as H'.
        cbv beta in H'. now rewrite Hty in H'.
      - right. intros H. pose proof (proj1 (names_nil _ _) H c Hc) as H'.
        cbv beta in H'. now rewrite Hty in H'. }
    destruct numericCols as [| n0 [| n1 ns]], catCols as [| c0 cs],
      dateCols as [| d0 ds]; try reflexivity;
      destruct Hsome as [H | H]; contradiction.
  - intros n0 rest ->.
    destruct rest as [| n1 ns], catCols as [| c0 cs], dateCols as [| d0 ds];
      reflexivity.
Qed.

Lemma suggestions_count_witness :
  List.length (suggestions Samples.threeColumns) = 2 /\
  hd_error (suggestions Samples.threeColumns) =
    Some "What is the average **sales**?" /\
  suggestions (skipn 2 Samples.threeColumns) =
    ["Summarize the key insights"].
Proof.
  destruct (suggestions_count Samples.threeColumns) as [_ [Htwo Hfirst]].
  split; [| split].
  - apply Htwo. exists (hd (Build_ColumnProfile EmptyString text zero zero [])
                           Samples.threeColumns).
    split; [now left | discriminate].
  - apply (Hfirst "sales" []). reflexivity.
  - apply (proj1 (suggestions_count (skipn 2 Samples.threeColumns))).
    intros c [<- | []]. reflexivity.
Defined.

Lemma hasProperty_groupRow (g a t : string) (entry : string * list number) :
  hasProperty (groupRow g a t entry) g = true /\
  hasProperty (groupRow g a t entry) a = true.
Proof.
  unfold hasProperty, groupRow. rewrite !own_defineOwn. simpl own.
  rewrite !String.eqb_refl.
  destruct (String.eqb a g); now split.
Qed.

Lemma queryData_grouped_rows (engine : Engine) (data : list object)
    (intent : QueryIntent) (g a t : string) (rows : list object) :
  truthy (groupBy intent) = Some g ->
  truthy (aggregateColumn intent) = Some a ->
  truthy (aggregateType intent) = Some t ->
  queryData engine data intent = Normal rows ->
  forall row, In row rows -> exists entry, row = groupRow g a t entry.
Proof.
  intros Hg Ha Ht. unfold queryData. rewrite Hg, Ha, Ht. unfold bind.
  destruct (forEach _ _ _) as [groups | e]; [| discriminate].
  intros H row Hrow. apply Normal_inj in H. rewrite <- H in Hrow.
  apply In_firstn in Hrow.
  apply sort_In in Hrow.
  apply in_map_iff in Hrow. destruct Hrow as [entry [Heq _]].
  now exists entry.
Qed.

Section Chat.

Variables (engine : Engine)
          (messages : list ChatMessage) (data : list object)
          (input : string) (intent : QueryIntent)
          (generateDataSummary : string -> list object -> string)
          (times : Times).

Lemma reply_Normal (answer : ChatMessage) :
  reply engine data intent input generateDataSummary times = Normal answer ->
  role answer = ai /\ isError answer = None /\
  (forall c, chart answer = Some c ->
     exists g a kind,
       intent_type intent = query /\
       truthy (groupBy intent) = Some g /\
       truthy (aggregateColumn intent) = Some a /\
       chartType intent = Some kind /\
       queryData engine data intent = Normal (chart_data c) /\
       chart_data c <> [] /\
       xKey (config c) = g /\ yKey (config c) = a /\
       chart_type (config c) = kind /\
       content answer = generateDataSummary input (chart_data c)).
Proof.
  unfold reply.
  destruct (intent_type intent);
    try (intros H; apply Normal_inj in H; subst answer;
         repeat split; discriminate).
  destruct (truthy (groupBy intent)) as [g |];
    [| intros H; apply Normal_inj in H; subst answer;
       repeat split; discriminate].
  destruct (truthy (aggregateColumn intent)) as [a |];
    [| intros H; apply Normal_inj in H; subst answer;
       repeat split; discriminate].
  unfold bind.
  destruct (queryData engine data intent) as [resultData | e];
    [| discriminate].
  destruct resultData as [| row rows].
  - intros H. apply Normal_inj in H. subst answer. repeat split; discriminate.
  - cbn [List.length Nat.ltb Nat.leb].
    destruct (chartType intent) as [kind |];
      intros H; apply Normal_inj in H; subst answer;
      (split; [reflexivity |]); (split; [reflexivity |]);
      cbn [chart]; [| discriminate].
    intros c [= <-]. exists g, a, kind. cbn [chart_data config xKey yKey
      chart_type content].
    repeat split. discriminate.
Qed.

Lemma reply_Throw (e : exn) :
  reply engine data intent input generateDataSummary times = Throw e ->
  intent_type intent = query /\
  (exists g, truthy (groupBy intent) = Some g) /\
  (exists a, truthy (aggregateColumn intent) = Some a) /\
  queryData engine data intent = Throw e.
Proof.
  unfold reply.
  destruct (intent_type intent); try discriminate.
  destruct (truthy (groupBy intent)) as [g |]; [| discriminate].
  destruct (truthy (aggregateColumn intent)) as [a |]; [| discriminate].
  unfold bind.
  destruct (queryData engine data intent) as [resultData | e']; intros H.
  - destruct resultData as [| row rows]; [discriminate |].
    cbn [List.length Nat.ltb Nat.leb] in H.
    destruct (chartType intent); discriminate.
  - injection H as ->. repeat split; eauto.
Qed.

(** X18: a blank input sends nothing. Any other input adds two messages to
    the list, the question as it was typed and one answer of the assistant
    after it; the answer is marked as an error exactly when the intent is a
    query with a group-by and an aggregate column on which [queryData]
    throws, and it then has no chart. *)
Theorem handleSend_appends_question_and_answer :
  (isEmpty (trim input) = true ->
   handleSend engine messages data input intent generateDataSummary
                times
   = messages) /\
  (isEmpty (trim input) = false ->
   exists question answer,
     handleSend engine messages data input intent generateDataSummary
                times
     = (messages ++ [question; answer])%list /\
     role question = user /\ content question = input /\
     chart question = None /\ isError question = None /\
     role answer = ai /\
     (isError answer = Some true <->
      intent_type intent = query /\
      (exists g, truthy (groupBy intent) = Some g) /\
      (exists a, truthy (aggregateColumn intent) = Some a) /\
      exists e, queryData engine data intent = Throw e) /\
     (isError answer = Some true ->
      chart answer = None /\
      content answer =
        "Sorry, I encountered an error processing your request.")).
Proof.
  unfold handleSend. split; intros Hblank; rewrite Hblank; [reflexivity |].
  cbn [content].
  destruct (reply engine data intent input generateDataSummary times)
    as [answer | e] eqn:Hreply.
  - destruct (reply_Normal Hreply) as [Hrole [Herr _]].
    eexists; exists answer. rewrite <- app_assoc. cbn [app].
    split; [reflexivity |]. cbn [role content chart isError].
    do 4 (split; [reflexivity |]). split; [exact Hrole |]. split.
    + split; [rewrite Herr; discriminate |].
      intros [Hq [[g Hg] [[a Ha] [e He]]]].
      exfalso. revert Hreply. unfold reply. rewrite Hq, Hg, Ha, He.
      discriminate.
    + rewrite Herr. discriminate.
  - destruct (reply_Throw Hreply) as [Hq [Hg [Ha He]]].
    eexists; eexists. rewrite <- app_assoc. cbn [app].
    split; [reflexivity |]. cbn [role content chart isError].
    do 5 (split; [reflexivity |]). split.
    + split; [intros _ | reflexivity].
      split; [assumption |]. split; [assumption |]. split; [assumption |].
      now exists e.
    + intros _. now split.
Qed.

(** X19: the chart of an answer shows the rows [queryData] returned, of
    which there are between 1 and 50, under the group-by column as its x key
    and the aggregate column as its y key; when the intent also names an
    aggregate, the renderer draws it: every row of the result has both
    columns. *)
Theorem chat_chart_shows_the_query_result
    (answer : ChatMessage) (c : ChatChart) :
  In answer
     (handleSend engine messages data input intent generateDataSummary
                times) ->
  ~ In answer messages ->
  chart answer = Some c ->
  queryData engine data intent = Normal (chart_data c) /\
  1 <= List.length (chart_data c) <= 50 /\
  truthy (groupBy intent) = Some (xKey (config c)) /\
  truthy (aggregateColumn intent) = Some (yKey (config c)) /\
  chartType intent = Some (chart_type (config c)) /\
  (truthy (aggregateType intent) <> None ->
   ChartRenderer (config c) (chart_data c) =
   Chart (chart_type (config c))
         (match chart_type (config c) with
          | PIE => firstn 10 (chart_data c)
          | _ => chart_data c
          end)).
Proof.
  unfold handleSend. intros Hin Hnew Hchart.
  destruct (isEmpty (trim input)); [contradiction |].
  cbn [content] in Hin.
  assert (Hreply :
    reply engine data intent input generateDataSummary times = Normal answer).
  { destruct (reply engine data intent input generateDataSummary times)
      as [answer' | e] eqn:Hreply;
      rewrite <- app_assoc in Hin; apply in_app_or in Hin;
      destruct Hin as [Hin | [<- | [<- | []]]];
      try contradiction; try discriminate Hchart.
    reflexivity. }
  destruct (reply_Normal Hreply) as [_ [_ Hc]].
  destruct (Hc c Hchart)
    as [g [a [kind [_ [Hg [Ha [Hkind [Hquery [Hrows [Hx [Hy [Hk _]]]]]]]]]]]].
  subst g a kind.
  assert (Hcap := queryData_cap _ _ _ Hquery).
  split; [assumption |]. split.
  { destruct (chart_data c); [contradiction | simpl in *; lia]. }
  split; [assumption |]. split; [assumption |]. split; [assumption |].
  intros Ht. destruct (truthy (aggregateType intent)) as [t |] eqn:Htype;
    [| contradiction].
  unfold ChartRenderer. rewrite chartData_firstn.
  assert (Hshort : Nat.ltb 2000 (List.length (chart_data c)) = false)
    by (apply Nat.ltb_ge; lia).
  rewrite Hshort.
  destruct (chart_data c) as [| row rows] eqn:Hdata; [contradiction |].
  destruct (@queryData_grouped_rows engine data intent _ _ t _
              Hg Ha Htype Hquery row)
    as [entry Hentry]; [now left |].
  cbn [isValidKey]. rewrite Hentry.
  destruct (hasProperty_groupRow (xKey (config c)) (yKey (config c)) t entry)
    as [-> ->].
  cbn [andb negb orb List.length Nat.eqb].
  destruct (chart_type (config c)); try reflexivity.
  f_equal. apply (slice_0 10).
Qed.

End Chat.

Lemma handleSend_appends_question_and_answer_witness :
  List.length (handleSend binaryInsertionEngine [] Samples.catRows "sum v by cat"
                          Samples.sumByCat Samples.summarize Samples.clock)
  = 2.
Proof.
  destruct (handleSend_appends_question_and_answer
              binaryInsertionEngine [] Samples.catRows "sum v by cat"
              Samples.sumByCat Samples.summarize Samples.clock)
    as [_ Hsent].
  destruct (Hsent eq_refl) as [question [answer [Heq _]]].
  rewrite Heq. reflexivity.
Defined.

Lemma chat_chart_shows_the_query_result_witness :
  exists c,
    queryData binaryInsertionEngine Samples.catRows Samples.sumByCat =
      Normal (chart_data c) /\
    ChartRenderer (config c) (chart_data c) = Chart BAR (chart_data c).
Proof.
  let r := eval vm_compute in
      (reply binaryInsertionEngine Samples.catRows Samples.sumByCat
             "sum v by cat" Samples.summarize Samples.clock) in
  match r with
  | Normal ?a =>
      let ch := eval vm_compute in (chart a) in
      match ch with
      | Some ?c0 => pose (answer := a); pose (c := c0)
      end
  end.
  destruct (@chat_chart_shows_the_query_result
              binaryInsertionEngine [] Samples.catRows "sum v by cat"
              Samples.sumByCat Samples.summarize Samples.clock answer c)
    as [Hquery [_ [_ [_ [_ Hdraw]]]]].
  - vm_compute. right. left. reflexivity.
  - intros [].
  - reflexivity.
  - exists c. split; [exact Hquery |]. apply Hdraw. discriminate.
Defined.

(** ** Every row is in one group *)

Section GroupSizes.

Variables g a : string.

Lemma collected_replace (groups : props (list number)) (k : string)
    (vs vs' : list number) :
  own groups k = Some vs ->
  collected (replace groups k vs') + List.length vs =
  collected groups + List.length vs'.
Proof.
  unfold collected.
  induction groups as [| [k0 v0] groups IH]; simpl; [discriminate |].
  destruct (String.eqb k0 k); simpl.
  - intros [= ->]. lia.
  - intros H. specialize (IH H). lia.
Qed.

Lemma collected_insertIndex (groups : props (list number)) (i : N) (k : string)
    (vs : list number) :
  collected (insertIndex groups i k vs) = List.length vs + collected groups.
Proof.
  unfold collected.
  induction groups as [| [k0 v0] groups IH]; simpl; [reflexivity |].
  destruct (arrayIndex k0) as [j |]; [destruct (j <? i)%N |]; simpl;
    try reflexivity.
  rewrite IH. lia.
Qed.

Lemma collected_addToGroup (groups groups' : props (list number)) (row : object) :
  addToGroup g a groups row = Normal groups' ->
  collected groups' = S (collected groups).
Proof.
  unfold addToGroup.
  destruct (own groups (groupKey g row)) as [vs |] eqn:Hown.
  - intros H. apply Normal_inj in H. subst groups'.
    pose proof (@collected_replace _ _ _ (vs ++ [groupValue a row])%list Hown)
      as Hs.
    rewrite length_app in Hs. simpl in Hs. lia.
  - destruct (inherited (groupKey g row)); [discriminate |].
    intros H. apply Normal_inj in H. subst groups'.
    unfold defineOwn. rewrite Hown.
    destruct (arrayIndex (groupKey g row)).
    + now rewrite collected_insertIndex.
    + unfold collected. rewrite map_app, list_sum_app. simpl. lia.
Qed.

Lemma collected_forEach (rows : list object) :
  forall groups groups',
    forEach (addToGroup g a) rows groups = Normal groups' ->
    collected groups' = collected groups + List.length rows.
Proof.
  induction rows as [| row rows IH]; intros groups groups'; simpl.
  - intros H. apply Normal_inj in H. subst. lia.
  - destruct (addToGroup g a groups row) as [groups1 |] eqn:Hadd;
      [| discriminate].
    simpl. intros H. rewrite (IH _ _ H), (collected_addToGroup _ _ Hadd). lia.
Qed.

(** X20: the grouping stage loses no row and counts none twice: when it
    returns, the groups together hold as many values as there were rows, and
    no group is empty. *)
Theorem every_row_is_in_one_group
    (rows : list object) (groups : props (list number)) :
  forEach (addToGroup g a) rows [] = Normal groups ->
  collected groups = List.length rows /\
  NoDup (keys groups) /\
  forall k vs, In (k, vs) groups ->
               vs = valuesOf g a k rows /\ vs <> [].
Proof.
  intros Hgroups.
  split; [exact (collected_forEach _ _ Hgroups) |].
  destruct (forEach_addToGroup_own g a _ _ Hgroups) as [Hnodup Hown].
  specialize (Hnodup (NoDup_nil _)). simpl own in Hown.
  split; [assumption |].
  intros k vs Hin. apply (In_own _ _ _ Hnodup) in Hin.
  rewrite Hown in Hin.
  destruct (valuesOf g a k rows) eqn:Hv; [discriminate |].
  injection Hin as <-. now split.
Qed.

End GroupSizes.

Lemma every_row_is_in_one_group_witness :
  exists groups,
    forEach (addToGroup "cat" "v") Samples.catRows [] = Normal groups /\
    collected groups = 3.
Proof.
  destruct (forEach (addToGroup "cat" "v") Samples.catRows [])
    as [groups | e] eqn:Hgroups; [| vm_compute in Hgroups; discriminate].
  exists groups. split; [reflexivity |].
  now destruct (every_row_is_in_one_group "cat" "v" _ Hgroups) as [-> _].
Defined.

(** ** Line endings *)

Lemma splitLines_withCRLF (s : string) :
  forallb (fun c => negb (Ascii.eqb c CR)) (list_ascii_of_string s) = true ->
  splitLines (withCRLF s) = splitLines s.
Proof.
  induction s as [| c s IH]; [reflexivity |].
  cbn [list_ascii_of_string forallb]. intros H.
  apply andb_true_iff in H. destruct H as [Hc Hs].
  apply negb_true_iff in Hc. specialize (IH Hs).
  cbn [withCRLF]. destruct (Ascii.eqb c LF) eqn:Hlf.
  - cbn [splitLines]. rewrite Hlf.
    assert (H1 : Ascii.eqb CR LF = false) by reflexivity.
    assert (H2 : Ascii.eqb CR CR = true) by reflexivity.
    assert (H3 : Ascii.eqb LF LF = true) by reflexivity.
    rewrite H1, H2, H3. now rewrite IH.
  - cbn [splitLines]. rewrite Hlf, Hc. now rewrite IH.
Qed.

(** X21: a text without carriage returns parses to the same dataset when it
    is saved with CR LF at the end of each line. *)
Theorem line_endings_do_not_matter (uuid csvText fileName : string) :
  forallb (fun c => negb (Ascii.eqb c CR)) (list_ascii_of_string csvText)
    = true ->
  parseCSV uuid (withCRLF csvText) fileName = parseCSV uuid csvText fileName.
Proof.
  intros H. unfold parseCSV, nonBlankLines.
  now rewrite (splitLines_withCRLF _ H).
Qed.

Lemma line_endings_do_not_matter_witness :
  parseCSV "id-2" (withCRLF Samples.longCsv) "long.csv" =
  parseCSV "id-2" Samples.longCsv "long.csv".
Proof.
  apply (line_endings_do_not_matter "id-2" Samples.longCsv "long.csv").
  vm_compute. reflexivity.
Defined.
